(** * elfview: the target-process model and the remote-syscall executor

    A shallow embedding of [src/utils/task.c], [src/elf/note.c] and
    [src/ultask.c].  C objects that live behind pointers are kept in an
    arena (a list indexed by allocation order) and pointers are indices
    into it; [unsigned long] values are [Z] with the wrap-around modulo
    [2^64] written out. *)

From Stdlib Require Import ZArith Lia Bool List String Ascii.
From stdpp Require Import base tactics option list.

Local Open Scope Z_scope.

(** ** Machine integers *)

Module Word.

Definition ULONG_MAX : Z := 2 ^ 64 - 1.

(** Conversion of a C value to [unsigned long]. *)
Definition u64 (x : Z) : Z := x mod 2 ^ 64.

(** Conversion of a C value to [unsigned int]. *)
Definition u32 (x : Z) : Z := x mod 2 ^ 32.

(** Conversion of an [unsigned long] bit pattern to [int]
    (the low 32 bits, two's complement). *)
Definition to_int (x : Z) : Z :=
  let y := x mod 2 ^ 32 in if y <? 2 ^ 31 then y else y - 2 ^ 32.

Definition sub64 (a b : Z) : Z := u64 (a - b).
Definition add64 (a b : Z) : Z := u64 (a + b).

End Word.

(** ** The VMA model ([struct vma_struct], [struct task]) *)

Module Vma.
Import Word.

(** [enum vma_type]. *)
Inductive vma_type :=
| VMA_NONE | VMA_SELF | VMA_LIBC | VMA_LIBELF | VMA_HEAP | VMA_LD
| VMA_STACK | VMA_VVAR | VMA_VDSO | VMA_VSYSCALL | VMA_LIB_DONT_KNOWN
| VMA_ANON.

Definition vma_type_eqb (a b : vma_type) : bool :=
  match a, b with
  | VMA_NONE, VMA_NONE | VMA_SELF, VMA_SELF | VMA_LIBC, VMA_LIBC
  | VMA_LIBELF, VMA_LIBELF | VMA_HEAP, VMA_HEAP | VMA_LD, VMA_LD
  | VMA_STACK, VMA_STACK | VMA_VVAR, VMA_VVAR | VMA_VDSO, VMA_VDSO
  | VMA_VSYSCALL, VMA_VSYSCALL
  | VMA_LIB_DONT_KNOWN, VMA_LIB_DONT_KNOWN | VMA_ANON, VMA_ANON => true
  | _, _ => false
  end.

(** The fields of [GElf_Ehdr] and [GElf_Phdr] that the code reads. *)
Record Ehdr := mkEhdr {
  e_ident : list Z;
  e_type : Z;
  e_phoff : Z;
  e_phnum : Z
}.

Record Phdr := mkPhdr {
  p_type : Z;
  p_offset : Z;
  p_vaddr : Z;
  p_memsz : Z;
  p_align : Z
}.

(** [struct vma_elf]. *)
Record vma_elf := mkVmaElf {
  ehdr : Ehdr;
  phdrs : list Phdr;
  load_offset : Z
}.

(** The pointer [vma->elf]: NULL, a live allocation, or a pointer the
    code has passed to [free] without clearing it. *)
Inductive elf_ptr :=
| ElfNull
| ElfFreed
| ElfLive (e : vma_elf).

(** [struct vma_struct].  [leader] is a pointer into the arena (an
    index); [siblings] is the ring threaded through the [siblings] list
    heads of one group, kept at the group's leader in the order
    [list_for_each_entry] visits it from there. *)
Record vma_struct := mkVma {
  type : vma_type;
  start : Z;
  end_ : Z;
  perms : string;
  prot : Z;
  offset : Z;
  voffset : Z;
  maj : Z;
  min : Z;
  inode : Z;
  name_ : string;
  leader : option nat;
  siblings : list nat;
  elf : elf_ptr;
  is_elf : bool;
  is_share_lib : bool
}.

(** *** [find_vma_span_area] *)

(** The loop of [find_vma_span_area] over the nodes [rb_first],
    [rb_next], ... of [task->vmas_rb], given as the sequence the
    traversal yields. *)
Fixpoint span_scan (rb : list vma_struct) (size : Z) : Z :=
  match rb with
  | [] => 0
  | ivma :: rest =>
    match rest with
    | [] => 0
    | next_vma :: _ =>
      if sub64 (start next_vma) (end_ ivma) >=? size
      then end_ ivma
      else span_scan rest size
    end
  end.

(** [__vma_rb_cmp]: the key is the VMA being inserted.  The last
    branch stands for the [assert(0)], which no pair of VMAs reaches. *)
Definition __vma_rb_cmp (vma new : vma_struct) : Z :=
  if end_ new <=? start vma then -1
  else if (start vma <? end_ new) && (end_ vma >? start new) then 0
  else if end_ vma <=? start new then 1
  else 0.

(** Modelled from the spec: [rb_insert_node] (utils/rbtree, not under
    src/) inserts into "an interval tree keyed by start"; the tree is
    represented by its in-order sequence, the comparator decides the
    place, and a node that compares equal is kept in place of the new
    one. *)
Fixpoint rb_insert_node (rb : list vma_struct) (new : vma_struct)
  : list vma_struct :=
  match rb with
  | [] => [new]
  | vma :: rest =>
    let c := __vma_rb_cmp vma new in
    if c <? 0 then new :: vma :: rest
    else if c =? 0 then vma :: rest
    else vma :: rb_insert_node rest new
  end.

(** A VMA as [/proc/PID/maps] prints it: a non-empty range of
    [unsigned long] addresses. *)
Definition vma_range_ok (v : vma_struct) : Prop :=
  0 <= start v /\ start v < end_ v /\ end_ v < 2 ^ 64.

(** Consecutive nodes of the traversal do not overlap and ascend. *)
Fixpoint ascending (rb : list vma_struct) : Prop :=
  match rb with
  | [] => True
  | v :: rest =>
    match rest with
    | [] => True
    | w :: _ => start v < start w /\ end_ v <= start w /\ ascending rest
    end
  end.

(** The gap that follows node [a] when [b] is its successor. *)
Definition gap (a b : vma_struct) : Z := sub64 (start b) (end_ a).

(** Every pair of neighbours in [l] is closer than [size]. *)
Fixpoint no_gap (l : list vma_struct) (size : Z) : Prop :=
  match l with
  | [] => True
  | a :: rest =>
    match rest with
    | [] => True
    | b :: _ => gap a b < size /\ no_gap rest size
    end
  end.

(** *** Classification of a mapping by its pathname *)

(** [basename]: the component that follows the last slash. *)
Fixpoint basename_from (acc s : string) : string :=
  match s with
  | EmptyString => acc
  | String c rest =>
    if Ascii.eqb c "/" then basename_from rest rest
    else basename_from acc rest
  end.

Definition basename (s : string) : string := basename_from s s.

(** [!strncmp(s, lit, strlen(lit))]. *)
Definition starts_with (lit s : string) : bool := String.prefix lit s.

Definition PROT_READ : Z := 1.
Definition PROT_WRITE : Z := 2.
Definition PROT_EXEC : Z := 4.

Definition char_at (s : string) (i : nat) : ascii :=
  match String.get i s with Some c => c | None => zero end.

Definition __perms2prot (perms : string) : Z :=
  let prot := 0 in
  let prot := if Ascii.eqb (char_at perms 0) "r"
              then Z.lor prot PROT_READ else prot in
  let prot := if Ascii.eqb (char_at perms 1) "w"
              then Z.lor prot PROT_WRITE else prot in
  let prot := if Ascii.eqb (char_at perms 2) "x"
              then Z.lor prot PROT_EXEC else prot in
  prot.

Definition get_vma_type (exe name : string) : vma_type :=
  if String.eqb name exe then VMA_SELF
  else if starts_with "libc" (basename name)
          || starts_with "libssp" (basename name) then VMA_LIBC
  else if starts_with "libelf" (basename name) then VMA_LIBELF
  else if String.eqb name "[heap]" then VMA_HEAP
  else if starts_with "ld-linux" (basename name) then VMA_LD
  else if String.eqb name "[stack]" then VMA_STACK
  else if String.eqb name "[vvar]" then VMA_VVAR
  else if String.eqb name "[vdso]" then VMA_VDSO
  else if String.eqb name "[vsyscall]" then VMA_VSYSCALL
  else if starts_with "lib" (basename name) then VMA_LIB_DONT_KNOWN
  else if (String.length name =? 0)%nat then VMA_ANON
  else VMA_NONE.

(** *** The task and its VMA containers *)

(** [struct task], without the symbol tree.  [arena] holds every
    allocated [vma_struct]; [vmas] is the list threaded through
    [vma->node] in the order [list_for_each_entry] visits it; [vmas_rb]
    is the in-order sequence of the interval tree. *)
Record task := mkTask {
  pid : Z;
  exe : string;
  fto_flag : Z;
  proc_mem_fd : Z;
  arena : list vma_struct;
  vmas : list nat;
  vmas_rb : list nat;
  libc_vma : option nat;
  stack : option nat;
  libc_elf : option string;
  exe_elf : option string
}.

Definition vma_zero : vma_struct :=
  mkVma VMA_NONE 0 0 "" 0 0 0 0 0 0 "" None [] ElfNull false false.

(** Dereference of a VMA pointer. *)
Definition deref (a : list vma_struct) (i : nat) : vma_struct :=
  default vma_zero (a !! i).

Definition set_leader (v : vma_struct) (l : option nat) : vma_struct :=
  mkVma (type v) (start v) (end_ v) (perms v) (prot v) (offset v)
        (voffset v) (maj v) (min v) (inode v) (name_ v) l (siblings v)
        (elf v) (is_elf v) (is_share_lib v).

Definition set_siblings (v : vma_struct) (s : list nat) : vma_struct :=
  mkVma (type v) (start v) (end_ v) (perms v) (prot v) (offset v)
        (voffset v) (maj v) (min v) (inode v) (name_ v) (leader v) s
        (elf v) (is_elf v) (is_share_lib v).

(** Modelled from the spec: [list_add] (utils/list.h, not under src/)
    keeps the VMA list in "insertion order" and the sibling set
    "ordered by file offset": a traversal from the head meets the new
    node last. *)
Definition list_add (new : nat) (head : list nat) : list nat := head ++ [new].

(** The tree insertion of [insert_vma], on pointers. *)
Fixpoint rb_insert_ptr (a : list vma_struct) (rb : list nat) (new : nat)
  : list nat :=
  match rb with
  | [] => [new]
  | n :: rest =>
    let c := __vma_rb_cmp (deref a n) (deref a new) in
    if c <? 0 then new :: n :: rest
    else if c =? 0 then n :: rest
    else n :: rb_insert_ptr a rest new
  end.

(** The first statement of [insert_vma]: a VMA whose pathname equals
    that of [prev] takes over the leader of [prev] and is linked into
    the sibling ring of that leader. *)
Definition link_leader (a : list vma_struct) (vma : nat) (prev : option nat)
  : list vma_struct :=
  match prev with
  | Some p =>
    if String.eqb (name_ (deref a p)) (name_ (deref a vma)) then
      match leader (deref a p) with
      | Some ld =>
        let a := <[vma := set_leader (deref a vma) (Some ld)]> a in
        <[ld := set_siblings (deref a ld)
                  (list_add vma (siblings (deref a ld)))]> a
      | None => a
      end
    else a
  | None => a
  end.

(** [insert_vma(task, vma, prev)]; [vma] is already in the arena. *)
Definition insert_vma (t : task) (vma : nat) (prev : option nat) : task :=
  let a := link_leader (arena t) vma prev in
  mkTask (pid t) (exe t) (fto_flag t) (proc_mem_fd t) a
         (list_add vma (vmas t)) (rb_insert_ptr a (vmas_rb t) vma)
         (libc_vma t) (stack t) (libc_elf t) (exe_elf t).

(** One line of [/proc/PID/maps] after [sscanf]. *)
Record maps_line := mkLine {
  l_start : Z;
  l_end : Z;
  l_perms : string;
  l_offset : Z;
  l_maj : Z;
  l_min : Z;
  l_inode : Z;
  l_name : string
}.

(** The VMA [read_task_vmas] fills in for a line, stored at [vma];
    [vma->leader = vma] comes just before [insert_vma]. *)
Definition new_vma (exe_path : string) (vma : nat) (ln : maps_line)
  : vma_struct :=
  mkVma (get_vma_type exe_path (l_name ln)) (l_start ln) (l_end ln)
        (l_perms ln) (__perms2prot (l_perms ln)) (l_offset ln) 0
        (l_maj ln) (l_min ln) (l_inode ln) (l_name ln)
        (Some vma) [] ElfNull false false.

(** The body of the [do ... while (1)] loop of [read_task_vmas] for a
    line that [sscanf] accepted. *)
Definition read_one_line (t : task) (prev : option nat) (ln : maps_line)
  : task * option nat :=
  let vma := length (arena t) in
  let v := new_vma (exe t) vma ln in
  let libc :=
    match libc_vma t with
    | None => if vma_type_eqb (type v) VMA_LIBC
                 && negb (Z.land (prot v) PROT_EXEC =? 0)
              then Some vma else None
    | Some l => Some l
    end in
  let stk :=
    match stack t with
    | None => if vma_type_eqb (type v) VMA_STACK then Some vma else None
    | Some s => Some s
    end in
  let t := mkTask (pid t) (exe t) (fto_flag t) (proc_mem_fd t)
                  (arena t ++ [v]) (vmas t) (vmas_rb t) libc stk
                  (libc_elf t) (exe_elf t) in
  (insert_vma t vma prev, Some vma).

(** The loop: [None] stands for a line on which [sscanf] returned a
    value [<= 0], the end of the list for [fgets] returning NULL. *)
Fixpoint read_lines (t : task) (prev : option nat)
  (lines : list (option maps_line)) : Z * task :=
  match lines with
  | [] => (0, t)
  | None :: _ => (-1, t)
  | Some ln :: rest =>
    let '(t, prev) := read_one_line t prev ln in
    read_lines t prev rest
  end.

(** [free_task_vmas]. *)
Definition free_task_vmas (t : task) : task :=
  mkTask (pid t) (exe t) (fto_flag t) (proc_mem_fd t) [] [] [] None None
         (libc_elf t) (exe_elf t).

(** [read_task_vmas(task, update)]: [maps] is what [open_pid_maps]
    yields, [None] when the [open] fails. *)
Definition read_task_vmas (t : task) (update : bool)
  (maps : option (list (option maps_line))) : Z * task :=
  let t := if update then free_task_vmas t else t in
  match maps with
  | None => (-1, t)
  | Some lines => read_lines t None lines
  end.

(** The VMAs of the tree in traversal order. *)
Definition tree_nodes (t : task) : list vma_struct :=
  map (deref (arena t)) (vmas_rb t).

(** [find_vma_span_area(task, size)]. *)
Definition find_vma_span_area (t : task) (size : Z) : Z :=
  span_scan (tree_nodes t) size.

(** Two VMAs over the same range. *)
Definition same_range (v w : vma_struct) : Prop :=
  start v = start w /\ end_ v = end_ w.

(** A maps line with a non-empty range of [unsigned long] addresses. *)
Definition line_range_ok (ln : maps_line) : Prop :=
  0 <= l_start ln /\ l_start ln < l_end ln /\ l_end ln < 2 ^ 64.

(** What the loop of [read_task_vmas] keeps true of the tree. *)
Definition tree_inv (t : task) : Prop :=
  Forall (fun i => (i < length (arena t))%nat) (vmas_rb t) /\
  ascending (tree_nodes t) /\
  forall i, (i < length (arena t))%nat -> vma_range_ok (deref (arena t) i).

(** Two mappings with a gap of 0xff000 bytes between them. *)
Definition span_lines : list maps_line :=
  [mkLine 0x400000 0x401000 "r-xp" 0 8 1 42 "/usr/bin/app";
   mkLine 0x500000 0x501000 "rw-p" 0 0 0 0 ""].

(** *** [vma_peek_phdr] *)

Definition PT_LOAD : Z := 1.
Definition PT_INTERP : Z := 3.
Definition ET_DYN : Z := 3.
Definition sizeof_Ehdr : Z := 64.
Definition sizeof_Phdr : Z := 56.

Definition ehdr_zero : Ehdr := mkEhdr (repeat 0 16) 0 0 0.

(** Modelled from the spec: [check_ehdr_magic_is_ok] (elf/, not under
    src/) is the "header magic check" on [EI_MAG0..3]. *)
Definition check_ehdr_magic_is_ok (e : Ehdr) : bool :=
  match e_ident e with
  | m0 :: m1 :: m2 :: m3 :: _ =>
    (m0 =? 0x7f) && (m1 =? 69) && (m2 =? 76) && (m3 =? 70)
  | _ => false
  end.

(** Modelled from the spec: [ALIGN_DOWN] (utils/util.h, not under src/)
    is "[x & ~(align - 1)]" on [unsigned long]. *)
Definition ALIGN_DOWN (x a : Z) : Z := Z.land x (Z.lnot (u64 (a - 1))).

(** What [memcpy_from_task] hands back for the two reads of
    [vma_peek_phdr]: its return value and the bytes it delivered,
    already laid out as the structure read. *)
Record peek_env := mkPeek {
  read_ehdr : Z -> Z * Ehdr;
  malloc_phdrs_ok : Z -> bool;
  read_phdrs : Z -> Z -> Z * list Phdr
}.

Definition ends_with_so (name : string) : bool :=
  String.eqb (String.substring (String.length name - 3) 3 name) ".so".

Definition elf_vma_is_interp_exception (vma : vma_struct) : bool :=
  let name := name_ vma in
  if starts_with "libc" name && ends_with_so name then true
  else if starts_with "libssp" name then true
  else if starts_with "libpthread" name && ends_with_so name then true
  else if starts_with "libdl" name && ends_with_so name then true
  else false.

Definition set_elf (v : vma_struct) (e : elf_ptr) (ie sl : bool) : vma_struct :=
  mkVma (type v) (start v) (end_ v) (perms v) (prot v) (offset v)
        (voffset v) (maj v) (min v) (inode v) (name_ v) (leader v)
        (siblings v) e ie sl.

Definition set_voffset (v : vma_struct) (vo : Z) : vma_struct :=
  mkVma (type v) (start v) (end_ v) (perms v) (prot v) (offset v)
        vo (maj v) (min v) (inode v) (name_ v) (leader v)
        (siblings v) (elf v) (is_elf v) (is_share_lib v).

(** The members of a ring before and after the node [v]. *)
Fixpoint split_ring (v : nat) (ring : list nat) : list nat * list nat :=
  match ring with
  | [] => ([], [])
  | x :: rest =>
    if Nat.eqb x v then ([], rest)
    else let '(b, af) := split_ring v rest in (x :: b, af)
  end.

(** [list_for_each_entry_safe(.., &vma->siblings, siblings)]: the other
    members of the ring [vma] is linked in, starting behind [vma]. *)
Definition ring_from (a : list vma_struct) (v : nat) : list nat :=
  match leader (deref a v) with
  | Some ld =>
    let '(b, af) := split_ring v (ld :: siblings (deref a ld)) in af ++ b
  | None => []
  end.

(** The inner loop over the siblings for one [PT_LOAD] header. *)
Fixpoint set_voffsets (a : list vma_struct) (sibs : list nat) (off vaddr : Z)
  : list vma_struct :=
  match sibs with
  | [] => a
  | s :: rest =>
    let a := if offset (deref a s) =? off
             then <[s := set_voffset (deref a s) vaddr]> a else a in
    set_voffsets a rest off vaddr
  end.

(** The second loop over the program headers: the lowest [p_vaddr] and
    the [voffset] updates. *)
Fixpoint load_loop (a : list vma_struct) (sibs : list nat) (phs : list Phdr)
  (lowest_vaddr : Z) : list vma_struct * Z :=
  match phs with
  | [] => (a, lowest_vaddr)
  | phdr :: rest =>
    if p_type phdr =? PT_LOAD then
      let lowest_vaddr := if lowest_vaddr <=? p_vaddr phdr
                          then lowest_vaddr else p_vaddr phdr in
      let off := ALIGN_DOWN (p_vaddr phdr) (p_align phdr) in
      load_loop (set_voffsets a sibs off (p_vaddr phdr)) sibs rest lowest_vaddr
    else load_loop a sibs rest lowest_vaddr
  end.

(** The first loop: does some header carry [PT_INTERP] while the VMA is
    no interp exception? *)
Definition interp_found (vma : vma_struct) (phs : list Phdr) : bool :=
  existsb (fun ph => (p_type ph =? PT_INTERP)
                     && negb (elf_vma_is_interp_exception vma)) phs.

Definition vma_peek_phdr (env : peek_env) (a : list vma_struct) (vi : nat)
  : Z * list vma_struct :=
  let vma := deref a vi in
  match type vma with
  | VMA_VVAR | VMA_STACK | VMA_VSYSCALL => (0, a)
  | _ =>
    if match elf vma with ElfNull => false | _ => true end || is_elf vma
    then (0, a)
    else
      let '(r, got) := read_ehdr env (start vma) in
      if u64 r <? sizeof_Ehdr then (-1, a)
      else
        let eh := if r <=? 0 then ehdr_zero else got in
        if negb (check_ehdr_magic_is_ok eh) then (0, a)
        else
          let phaddr := add64 (start vma) (e_phoff eh) in
          let phsz := u32 (e_phnum eh * sizeof_Phdr) in
          let freed := <[vi := set_elf vma ElfFreed false (is_share_lib vma)]> a in
          if phsz =? 0 then (0, freed)
          else if negb (malloc_phdrs_ok env phsz) then (-1, freed)
          else
            let '(r2, buf) := read_phdrs env phaddr phsz in
            if u32 r2 <? phsz then (-1, freed)
            else
              let phs := take (Z.to_nat (e_phnum eh)) buf in
              let is_share_lib :=
                if negb (e_type eh =? ET_DYN) then false
                else negb (interp_found vma phs) in
              let is_share_lib :=
                is_share_lib || vma_type_eqb (type vma) VMA_LIBC
                || vma_type_eqb (type vma) VMA_LIB_DONT_KNOWN in
              let '(a, lowest_vaddr) :=
                load_loop a (ring_from a vi) phs ULONG_MAX in
              let vma := deref a vi in
              if lowest_vaddr =? ULONG_MAX
              then (-1, <[vi := set_elf vma ElfNull false false]> a)
              else
                let e := mkVmaElf eh phs (sub64 (start vma) lowest_vaddr) in
                (0, <[vi := set_elf vma (ElfLive e) true is_share_lib]> a)
  end.

(** *** [open_task] *)

(** The [FTO_*] bits of utils/task.h, which is not under src/. *)
Record fto_bits := mkFto {
  FTO_LIBC : Z;
  FTO_SELF : Z;
  FTO_VMA_ELF : Z;
  FTO_PROC : Z
}.

(** Everything [open_task] obtains from the system: the descriptor
    [open_pid_mem] returns, the [/proc/PID/exe] link, the maps listing,
    the outcome of [elf_file_open] per path, the target memory, and
    whether each of the two [mkdirat] steps ends well (success or
    [EEXIST]). *)
Record open_env := mkOpenEnv {
  mem_fd : Z;
  exe_link : string;
  maps : option (list (option maps_line));
  elf_file_open : string -> bool;
  peek : peek_env;
  mkdir_pid_ok : bool;
  mkdir_map_files_ok : bool
}.

Definition flag_set (flag bit : Z) : bool := negb (Z.land flag bit =? 0).

(** [task_for_each_vma(v, task) vma_peek_phdr(v)], return values
    dropped as in the source; the iteration follows [next_vma], that is
    the tree order. *)
Fixpoint peek_all (env : peek_env) (a : list vma_struct) (order : list nat)
  : list vma_struct :=
  match order with
  | [] => a
  | v :: rest => peek_all env (snd (vma_peek_phdr env a v)) rest
  end.

(** [open_task(pid, flag)]: [None] is the NULL return.  The symbol
    loading under [FTO_VMA_ELF_SYMBOLS] only fills the symbol tree,
    which [task] leaves out. *)
Definition open_task (bits : fto_bits) (env : open_env) (the_pid flag : Z)
  : option task :=
  let memfd := mem_fd env in
  if memfd <=? 0 then None
  else
    let t := mkTask the_pid (exe_link env) flag memfd [] [] [] None None
                    None None in
    let '(_, t) := read_task_vmas t false (maps env) in
    match libc_vma t, stack t with
    | Some libc, Some _ =>
      let libc_name := name_ (deref (arena t) libc) in
      if flag_set flag (FTO_LIBC bits) && negb (elf_file_open env libc_name)
      then None
      else
        let le := if flag_set flag (FTO_LIBC bits)
                  then Some libc_name else None in
        if flag_set flag (FTO_SELF bits) && negb (elf_file_open env (exe t))
        then None
        else
          let ee := if flag_set flag (FTO_SELF bits)
                    then Some (exe t) else None in
          let a := if flag_set flag (FTO_VMA_ELF bits)
                   then peek_all (peek env) (arena t) (vmas_rb t)
                   else arena t in
          if flag_set flag (FTO_PROC bits)
             && negb (mkdir_pid_ok env && mkdir_map_files_ok env)
          then None
          else Some (mkTask (pid t) (exe t) (fto_flag t) (proc_mem_fd t) a
                            (vmas t) (vmas_rb t) (libc_vma t) (stack t)
                            le ee)
    | _, _ => None
    end.

(** A maps line that [read_task_vmas] takes for the executable libc
    segment, and one it takes for the stack. *)
Definition is_exec_libc_line (exe : string) (ln : maps_line) : bool :=
  vma_type_eqb (get_vma_type exe (l_name ln)) VMA_LIBC
  && negb (Z.land (__perms2prot (l_perms ln)) PROT_EXEC =? 0).

Definition is_stack_line (exe : string) (ln : maps_line) : bool :=
  vma_type_eqb (get_vma_type exe (l_name ln)) VMA_STACK.

(** The lines of a listing that [sscanf] accepted. *)
Definition parsed_lines (maps : option (list (option maps_line)))
  : list maps_line :=
  match maps with
  | None => []
  | Some lines => omap id lines
  end.

(** *** Leaders: what the listing determines *)

(** The first VMA of the block of neighbouring maps lines with one
    pathname that VMA [i] lies in. *)
Fixpoint run_leader (a : list vma_struct) (i : nat) : nat :=
  match i with
  | O => O
  | S j =>
    if String.eqb (name_ (deref a j)) (name_ (deref a (S j)))
    then run_leader a j else S j
  end.

(** [ld] starts the block of [i]: every VMA from [ld] to [i] carries the
    pathname of [i], and the VMA before [ld], if any, another one. *)
Definition is_run_leader (a : list vma_struct) (i ld : nat) : Prop :=
  (ld <= i)%nat /\
  (forall j, (ld <= j <= i)%nat -> name_ (deref a j) = name_ (deref a i)) /\
  (ld = O \/ name_ (deref a (ld - 1)) <> name_ (deref a ld)).

(** The first VMA of the whole listing with the pathname of VMA [i]. *)
Definition first_same_name (a : list vma_struct) (i : nat) : nat :=
  default i (head (filter (fun j => String.eqb (name_ (deref a j))
                                               (name_ (deref a i)) = true)
                          (seq 0 (length a)))).

(** Leaders by pathname alone, wherever the lines stand. *)
Definition leaders_by_pathname (t : task) : Prop :=
  forall i, (i < length (arena t))%nat ->
    leader (deref (arena t) i) = Some (first_same_name (arena t) i) /\
    (first_same_name (arena t) i <> i ->
     In i (siblings (deref (arena t) (first_same_name (arena t) i)))).

(** The lines of every file stand next to each other. *)
Definition files_adjacent (a : list vma_struct) : Prop :=
  forall j k i, (j <= k <= i)%nat ->
    name_ (deref a j) = name_ (deref a i) ->
    name_ (deref a k) = name_ (deref a i).

Definition fresh_task (p : Z) (e : string) : task :=
  mkTask p e 0 3 [] [] [] None None None None.

Definition file_line (s e off : Z) (pm nm : string) : maps_line :=
  mkLine s e pm off 8 1 42 nm.

(** The state of the loop of [read_task_vmas] between two lines. *)
Definition leaders_inv (t : task) (prev : option nat) : Prop :=
  let a := arena t in
  prev = match length a with O => None | S m => Some m end /\
  (forall i, (i < length a)%nat -> leader (deref a i) = Some (run_leader a i)) /\
  (forall ld i, In i (siblings (deref a ld)) <->
                (i < length a)%nat /\ i <> ld /\ run_leader a i = ld).

(** A listing in which one file is mapped on both sides of another. *)
Definition line_a1 : maps_line :=
  file_line 0x7f0000000000 0x7f0000001000 0 "r--p" "/srv/data.bin".
Definition line_b : maps_line :=
  file_line 0x7f0000100000 0x7f0000128000 0 "r--p" "/usr/lib64/libc.so.6".
Definition line_a2 : maps_line :=
  file_line 0x7f0000200000 0x7f0000201000 0 "r--p" "/srv/data.bin".

(** *** What [vma_peek_phdr] leaves behind *)

Definition is_load (h : Phdr) : bool := p_type h =? PT_LOAD.

(** The [PT_LOAD] header [h] names the file offset [off]. *)
Definition load_at (off : Z) (h : Phdr) : bool :=
  is_load h && (off =? ALIGN_DOWN (p_vaddr h) (p_align h)).


(** The [voffset] of a mapping at file offset [off] once the program
    headers [phs] have gone by, [v0] being its value before. *)
Fixpoint voffset_after (phs : list Phdr) (off v0 : Z) : Z :=
  match phs with
  | [] => v0
  | h :: rest => voffset_after rest off (if load_at off h then p_vaddr h else v0)
  end.

(** A target with libc mapped as a read-only segment and an executable
    segment, and a stack. *)
Definition libc_ro : maps_line :=
  file_line 0x7f0000000000 0x7f0000028000 0 "r--p" "/usr/lib64/libc.so.6".
Definition libc_rx : maps_line :=
  file_line 0x7f0000028000 0x7f000019d000 0x28000 "r-xp" "/usr/lib64/libc.so.6".
Definition stack_line : maps_line :=
  mkLine 0x7ffc00000000 0x7ffc00021000 "rw-p" 0 0 0 0 "[stack]".

Definition libc_ehdr : Ehdr :=
  mkEhdr (0x7f :: 69 :: 76 :: 70 :: repeat 0 12) ET_DYN 64 2.
Definition libc_phdrs : list Phdr :=
  [mkPhdr PT_LOAD 0 0 0x27ed8 0x1000;
   mkPhdr PT_LOAD 0x28000 0x28000 0x1742fc 0x1000].

Definition demo_peek : peek_env :=
  mkPeek (fun addr => if addr =? 0x7f0000000000 then (64, libc_ehdr)
                      else (64, ehdr_zero))
         (fun _ => true)
         (fun _ sz => (sz, libc_phdrs)).

Definition demo_bits : fto_bits := mkFto 1 2 4 8.

Definition demo_env : open_env :=
  mkOpenEnv 3 "/usr/bin/app"
            (Some [Some libc_ro; Some libc_rx; Some stack_line])
            (fun _ => true) demo_peek true true.

(** Two VMAs that differ in [voffset] at most. *)
Definition same_but_voffset (v w : vma_struct) : Prop :=
  w = set_voffset v (voffset w).


(** Is the pointer [i] a member of the ring [sibs]? *)
Definition memb (i : nat) (sibs : list nat) : bool := existsb (Nat.eqb i) sibs.

(** *** [task_vma_symbol_value] *)
















End Vma.

(** ** The remote-syscall executor *)

Module Remote.
Import Word.

(** The two builds of the source ([#if defined(__x86_64__)],
    [#elif defined(__aarch64__)]). *)
Inductive arch := X86_64 | AArch64.

(** [struct user_regs_struct] as the array of 64-bit slots it is; a
    register is the index of its slot. *)
Definition regs := list Z.

Definition reg_get (r : regs) (i : nat) : Z := default 0 (r !! i).
Definition reg_set (r : regs) (i : nat) (v : Z) : regs := <[i := v]> r.

(** x86-64: the fields of [user_regs_struct] in declaration order. *)
Definition r15 : nat := 0.
Definition r14 : nat := 1.
Definition r13 : nat := 2.
Definition r12 : nat := 3.
Definition rbp : nat := 4.
Definition rbx : nat := 5.
Definition r11 : nat := 6.
Definition r10 : nat := 7.
Definition r9 : nat := 8.
Definition r8 : nat := 9.
Definition rax : nat := 10.
Definition rcx : nat := 11.
Definition rdx : nat := 12.
Definition rsi : nat := 13.
Definition rdi : nat := 14.
Definition orig_rax : nat := 15.
Definition rip : nat := 16.
Definition rsp : nat := 19.

(** AArch64: [regs[0..30]], then [sp], [pc], [pstate]. *)
Definition xreg (i : nat) : nat := i.
Definition pc : nat := 32.

(** The registers [copy_regs] copies, in the order of the source. *)
Definition copied_regs (A : arch) : list nat :=
  match A with
  | X86_64 => [r15; r14; r13; r12; rbp; rbx; r11; r10; r9; r8; rax; rcx;
               rdx; rsi; rdi]
  | AArch64 => map xreg [0; 1; 2; 3; 4; 5; 8; 29; 9; 10; 11; 12; 13; 14;
                         15; 16; 17; 18; 19; 20]%nat
  end.

Definition copy_regs (A : arch) (dst src : regs) : regs :=
  fold_left (fun d x => reg_set d x (reg_get src x)) (copied_regs A) dst.

(** Modelled from the spec: the macros of arch/*/regs.h, which is not
    under src/.  [SYSCALL_INSTR] is "0F 05 (x86-64) or D4 00 00 01
    (AArch64 SVC #0)"; [SYSCALL_REGS_PREPARE] "writes syscall number and
    arguments into the right registers for the ABI"; [SYSCALL_IP] and
    [SYSCALL_RET] are the "accessor for the program counter and
    return-value register". *)
Definition SYSCALL_INSTR (A : arch) : list Z :=
  match A with
  | X86_64 => [0x0f; 0x05]
  | AArch64 => [0xd4; 0x00; 0x00; 0x01]
  end.

Definition SYSCALL_IP (A : arch) : nat :=
  match A with X86_64 => rip | AArch64 => pc end.

Definition SYSCALL_RET (A : arch) : nat :=
  match A with X86_64 => rax | AArch64 => xreg 0 end.

Definition SYSCALL_REGS_PREPARE (A : arch) (r : regs)
  (nr a1 a2 a3 a4 a5 a6 : Z) : regs :=
  let slots :=
    match A with
    | X86_64 => [rax; rdi; rsi; rdx; r10; r8; r9]
    | AArch64 => map xreg [8; 0; 1; 2; 3; 4; 5]%nat
    end in
  fold_left (fun d '(x, v) => reg_set d x (u64 v))
            (zip slots [nr; a1; a2; a3; a4; a5; a6]) r.

(** The syscall numbers and constants of the two ABIs. *)
Definition __NR_mmap (A : arch) : Z := match A with X86_64 => 9 | AArch64 => 222 end.
Definition __NR_munmap (A : arch) : Z := match A with X86_64 => 11 | AArch64 => 215 end.
Definition __NR_open : Z := 2.
Definition __NR_openat : Z := 56.
Definition AT_FDCWD : Z := -100.
Definition O_RDWR : Z := 2.
Definition O_CREAT : Z := 64.
Definition PROT_READ : Z := 1.
Definition PROT_WRITE : Z := 2.
Definition MAP_PRIVATE : Z := 2.
Definition MAP_ANONYMOUS : Z := 32.
Definition MAP_FAILED : Z := ULONG_MAX.
Definition SIGTRAP : Z := 5.
Definition SIGSEGV : Z := 11.
Definition SIGSTOP : Z := 19.
Definition EINTR : positive := 4.
Definition ENOMEM : Z := 12.

(** *** The target and the system around it *)

(** The traced process: its register set and its memory, byte by
    byte. *)
Record target := mkTarget {
  t_regs : regs;
  t_mem : Z -> Z
}.

Definition read_mem (m : Z -> Z) (addr : Z) (n : nat) : list Z :=
  map (fun i => m (addr + Z.of_nat i)) (seq 0 n).

Definition write_mem (m : Z -> Z) (addr : Z) (bytes : list Z) : Z -> Z :=
  fun x =>
    if (addr <=? x) && (x <? addr + Z.of_nat (length bytes))
    then nth (Z.to_nat (x - addr)) bytes 0 else m x.

(** What [waitpid] reports in [status]. *)
Inductive wait_status :=
| WStopped (sig : Z)
| WSignaled (sig : Z)
| WOther.

(** The outcome of one system call of the controller ([ptrace],
    [waitpid], [pread], [pwrite]): the [errno] it fails with, if it
    fails; for [waitpid] the status and what the target did while it
    ran. *)
Record answer := mkAnswer {
  a_errno : option positive;
  a_status : wait_status;
  a_run : target -> target
}.

(** What the controller asked of the system, in order. *)
Inductive event :=
| EvGetRegs (ok : bool)
| EvSetRegs (r : regs) (ok : bool)
| EvRead (addr : Z) (n : nat) (ok : bool)
| EvWrite (addr : Z) (bytes : list Z) (ok : bool)
| EvCont (sig : Z) (ok : bool)
| EvWait (ok : bool).

(** What uninitialised locals of the controller hold. *)
Record garbage := mkGarbage {
  junk_regs : regs;
  junk_code : list Z;
  junk_result : Z
}.

Record world := mkWorld {
  w_target : target;
  w_script : list answer;
  w_trace : list event;
  w_junk : garbage
}.

(** A computation of the controller; [None] when the script of answers
    runs out, that is, for a call that does not return. *)
Definition M (A : Type) : Type := world -> option (A * world).

Definition ret {A} (x : A) : M A := fun w => Some (x, w).

Definition bind {A B} (m : M A) (k : A -> M B) : M B :=
  fun w => match m w with
           | Some (x, w') => k x w'
           | None => None
           end.

Declare Scope remote_scope.
Delimit Scope remote_scope with remote.
Notation "x <- m ;; k" := (bind m (fun x => k))
  (at level 100, m at next level, right associativity) : remote_scope.
Local Open Scope remote_scope.

Definition next_answer : M answer :=
  fun w => match w_script w with
           | [] => None
           | x :: rest =>
             Some (x, mkWorld (w_target w) rest (w_trace w) (w_junk w))
           end.

Definition log (e : event) : M unit :=
  fun w => Some (tt, mkWorld (w_target w) (w_script w) (w_trace w ++ [e])
                             (w_junk w)).

Definition get_target : M target := fun w => Some (w_target w, w).

Definition set_target (t : target) : M unit :=
  fun w => Some (tt, mkWorld t (w_script w) (w_trace w) (w_junk w)).

Definition junk : M garbage := fun w => Some (w_junk w, w).

Definition errno_of (e : positive) : Z := Z.pos e.

(** [ptrace(PTRACE_GETREGS, ...)] or [PTRACE_GETREGSET]: the [errno]
    on failure, the register set otherwise. *)
Definition ptrace_getregs : M (Z + regs) :=
  a <- next_answer ;;
  t <- get_target ;;
  match a_errno a with
  | Some e => _ <- log (EvGetRegs false) ;; ret (inl (errno_of e))
  | None => _ <- log (EvGetRegs true) ;; ret (inr (t_regs t))
  end.

(** [ptrace(PTRACE_SETREGS, ...)] or [PTRACE_SETREGSET]. *)
Definition ptrace_setregs (r : regs) : M (Z + unit) :=
  a <- next_answer ;;
  t <- get_target ;;
  match a_errno a with
  | Some e => _ <- log (EvSetRegs r false) ;; ret (inl (errno_of e))
  | None =>
    _ <- log (EvSetRegs r true) ;;
    _ <- set_target (mkTarget r (t_mem t)) ;;
    ret (inr tt)
  end.

(** [memcpy_from_task]: the value returned and, when [pread] delivered,
    the bytes. *)
Definition memcpy_from_task (src : Z) (size : nat) : M (Z * option (list Z)) :=
  a <- next_answer ;;
  t <- get_target ;;
  match a_errno a with
  | Some e => _ <- log (EvRead src size false) ;; ret (- errno_of e, None)
  | None =>
    _ <- log (EvRead src size true) ;;
    ret (Z.of_nat size, Some (read_mem (t_mem t) src size))
  end.

(** [memcpy_to_task]. *)
Definition memcpy_to_task (dst : Z) (bytes : list Z) : M Z :=
  a <- next_answer ;;
  t <- get_target ;;
  match a_errno a with
  | Some e => _ <- log (EvWrite dst bytes false) ;; ret (- errno_of e)
  | None =>
    _ <- log (EvWrite dst bytes true) ;;
    _ <- set_target (mkTarget (t_regs t) (write_mem (t_mem t) dst bytes)) ;;
    ret (Z.of_nat (length bytes))
  end.

(** [ptrace(PTRACE_CONT, pid, NULL, status)]. *)
Definition ptrace_cont (sig : Z) : M (Z + unit) :=
  a <- next_answer ;;
  match a_errno a with
  | Some e => _ <- log (EvCont sig false) ;; ret (inl (errno_of e))
  | None => _ <- log (EvCont sig true) ;; ret (inr tt)
  end.

(** [waitpid(pid, &status, __WALL)]: the target has run in between. *)
Definition waitpid : M (Z + wait_status) :=
  a <- next_answer ;;
  t <- get_target ;;
  _ <- set_target (a_run a t) ;;
  match a_errno a with
  | Some e => _ <- log (EvWait false) ;; ret (inl (errno_of e))
  | None => _ <- log (EvWait true) ;; ret (inr (a_status a))
  end.

(** *** [wait_for_stop] *)

(** One turn of the [while (1)] loop per unit of fuel. *)
Fixpoint wait_loop (fuel : nat) (status : Z) : M Z :=
  match fuel with
  | O => fun _ => None
  | S fuel =>
    c <- ptrace_cont status ;;
    match c with
    | inl _ => ret (-1)
    | inr _ =>
      r <- waitpid ;;
      match r with
      | inl _ => ret (-1)
      | inr (WStopped sig) =>
        if (sig =? SIGSTOP) || (sig =? SIGTRAP) then ret 0
        else if sig =? SIGSEGV then ret (-1)
        else wait_loop fuel sig
      | inr (WSignaled sig) => wait_loop fuel sig
      | inr WOther => wait_loop fuel 0
      end
    end
  end.

(** Every turn takes two answers off the script, so the length of the
    script is fuel enough: the loop stops short only when the script
    does. *)
Definition wait_for_stop : M Z :=
  fun w => wait_loop (S (length (w_script w))) 0 w.

(** *** [task_syscall] and its wrappers *)

(** The label [poke_back]. *)
Definition poke_back (libc_base : Z) (orig_code : list Z) (r res : Z)
  : M (Z * Z) :=
  _ <- memcpy_to_task libc_base orig_code ;;
  ret (r, res).

(** [task_syscall]: the value returned and what [*res] holds
    afterwards, [res0] being what it held before. *)
Definition task_syscall (A : arch) (libc_base : Z)
  (nr arg1 arg2 arg3 arg4 arg5 arg6 : Z) (res0 : Z) : M (Z * Z) :=
  g <- junk ;;
  let __syscall := SYSCALL_INSTR A in
  let syscall_regs :=
    SYSCALL_REGS_PREPARE A (junk_regs g) nr arg1 arg2 arg3 arg4 arg5 arg6 in
  o <- ptrace_getregs ;;
  match o with
  | inl e => ret (- e, res0)
  | inr old_regs =>
    rd <- memcpy_from_task libc_base (length __syscall) ;;
    let orig_code :=
      default (take (length __syscall) (junk_code g)) (snd rd) in
    _ <- memcpy_to_task libc_base __syscall ;;
    let regs := old_regs in
    let regs := reg_set regs (SYSCALL_IP A) libc_base in
    let regs := copy_regs A regs syscall_regs in
    s <- ptrace_setregs regs ;;
    match s with
    | inl e => poke_back libc_base orig_code (- e) res0
    | inr _ =>
      r <- wait_for_stop ;;
      if r <? 0 then poke_back libc_base orig_code r res0
      else
        o2 <- ptrace_getregs ;;
        match o2 with
        | inl e => poke_back libc_base orig_code (- e) res0
        | inr regs =>
          s2 <- ptrace_setregs old_regs ;;
          match s2 with
          | inl e => poke_back libc_base orig_code (- e) res0
          | inr _ =>
            let syscall_regs := regs in
            poke_back libc_base orig_code 0
                      (reg_get syscall_regs (SYSCALL_RET A))
          end
        end
    end
  end.

Definition task_mmap (A : arch) (libc_base : Z)
  (addr length prot flags fd offset : Z) : M Z :=
  g <- junk ;;
  rr <- task_syscall A libc_base (__NR_mmap A) addr length prot flags fd
                     offset (junk_result g) ;;
  if fst rr <? 0 then ret 0 else ret (snd rr).

Definition task_munmap (A : arch) (libc_base : Z) (addr size : Z) : M Z :=
  g <- junk ;;
  rr <- task_syscall A libc_base (__NR_munmap A) addr size 0 0 0 0
                     (junk_result g) ;;
  if fst rr <? 0 then ret (-1) else ret (to_int (snd rr)).

Definition task_malloc (A : arch) (libc_base : Z) (length : Z) : M Z :=
  remote_addr <- task_mmap A libc_base 0 length
                           (Z.lor PROT_READ PROT_WRITE)
                           (Z.lor MAP_PRIVATE MAP_ANONYMOUS) (-1) 0 ;;
  if remote_addr =? MAP_FAILED then ret 0 else ret remote_addr.

Definition task_free (A : arch) (libc_base : Z) (addr length : Z) : M Z :=
  task_munmap A libc_base addr length.

(** *** [task_open] *)

(** The controller's view of the file system: [readlink] and
    [realpath], [None] when they fail. *)
Record fs_env := mkFs {
  fs_readlink : string -> option string;
  fs_realpath : string -> option string
}.

(** The bytes of a C string, the terminating NUL included. *)
Definition c_bytes (s : string) : list Z :=
  map (fun c => Z.of_nat (nat_of_ascii c)) (list_ascii_of_string s) ++ [0].

Definition task_open (fs : fs_env) (A : arch) (libc_base : Z)
  (pathname : string) (flags mode : Z) : M Z :=
  g <- junk ;;
  let resolved :=
    if Z.lor flags O_CREAT =? 0 then
      match fs_readlink fs pathname with
      | None => None
      | Some maybeislink =>
        match fs_realpath fs maybeislink with
        | None => None
        | Some path => Some path
        end
      end
    else Some pathname in
  match resolved with
  | None => ret (-1)
  | Some pathname =>
    let remote_filename_len := Z.of_nat (String.length pathname) + 1 in
    remote_fileaddr <- task_malloc A libc_base remote_filename_len ;;
    _ <- memcpy_to_task remote_fileaddr (c_bytes pathname) ;;
    rr <- match A with
          | X86_64 =>
            task_syscall A libc_base __NR_open remote_fileaddr flags mode
                         0 0 0 (junk_result g)
          | AArch64 =>
            task_syscall A libc_base __NR_openat AT_FDCWD remote_fileaddr
                         flags mode 0 0 (junk_result g)
          end ;;
    _ <- task_free A libc_base remote_fileaddr remote_filename_len ;;
    ret (to_int (snd rr))
  end.

(** *** What a call leaves in the target *)

(** The scratch bytes at libc-base. *)
Definition scratch (A : arch) (t : target) (libc_base : Z) : list Z :=
  read_mem (t_mem t) libc_base (length (SYSCALL_INSTR A)).

(** A [/proc/PID/mem] access that went through; other events count as
    such. *)
Definition mem_ok (e : event) : bool :=
  match e with
  | EvRead _ _ ok => ok
  | EvWrite _ _ ok => ok
  | _ => true
  end.

(** The events a computation added to the trace. *)
Definition new_events (w w' : world) : list event :=
  drop (length (w_trace w)) (w_trace w').

(** The frame condition for a call that led from [w] to [w']: scratch
    bytes and register set as before. *)
Definition frame_holds (A : arch) (libc_base : Z) (w w' : world) : Prop :=
  scratch A (w_target w') libc_base = scratch A (w_target w) libc_base /\
  t_regs (w_target w') = t_regs (w_target w).

Definition ok_answer : answer := mkAnswer None WOther (fun t => t).
Definition err_answer (e : positive) : answer :=
  mkAnswer (Some e) WOther (fun t => t).

(** [waitpid] reports a stop by [sig]; the target has executed the
    instruction at its program counter, which left [v] in the return
    register of [A] and moved the program counter on. *)
Definition stop_answer (A : arch) (sig v : Z) : answer :=
  mkAnswer None (WStopped sig)
           (fun t =>
              let r := t_regs t in
              let r := reg_set r (SYSCALL_RET A) v in
              let r := reg_set r (SYSCALL_IP A)
                         (reg_get r (SYSCALL_IP A)
                          + Z.of_nat (length (SYSCALL_INSTR A))) in
              mkTarget r (t_mem t)).

Definition demo_regs : regs :=
  [15; 14; 13; 12; 0x7ffc0001f000; 0xb; 0x246; 10; 9; 8; 0xfffffffffffffdfc;
   0x7f00000fa5a1; 3; 0x7ffc0001efd0; 4; 0xe6; 0x7f00000fa5a1; 0x33;
   0x246; 0x7ffc0001efb0; 0x2b; 0x7f0000740740; 0; 0; 0; 0; 0].

Definition demo_mem : Z -> Z :=
  write_mem (fun _ => 0) 0x7f0000028000 [0xf3; 0x0f; 0x1e; 0xfa].

Definition demo_garbage : garbage :=
  mkGarbage (repeat 0xdead 27) [0xcc; 0xcc; 0xcc; 0xcc] 0xdeadbeef.

Definition demo_world (script : list answer) : world :=
  mkWorld (mkTarget demo_regs demo_mem) script [] demo_garbage.

(** [waitpid] is interrupted while the target executes the syscall. *)
Definition eintr_script : list answer :=
  [ok_answer; ok_answer; ok_answer; ok_answer; ok_answer;
   mkAnswer (Some EINTR) WOther (a_run (stop_answer X86_64 SIGTRAP 1234));
   ok_answer].

(** The remote [mmap] runs and fails with [ENOMEM]. *)
Definition enomem_script : list answer :=
  [ok_answer; ok_answer; ok_answer; ok_answer; ok_answer;
   stop_answer X86_64 SIGTRAP (u64 (- ENOMEM));
   ok_answer; ok_answer; ok_answer].

(** What a primitive does to the world: the target it leaves, the
    events it adds; the garbage stays. *)
Definition step_of (w w' : world) (t' : target) (evs : list event) : Prop :=
  w_target w' = t' /\ w_trace w' = w_trace w ++ evs /\ w_junk w' = w_junk w.

(** The nine answers of a remote syscall that goes through and leaves
    [v] in the return register. *)
Definition syscall_script (A : arch) (v : Z) : list answer :=
  [ok_answer; ok_answer; ok_answer; ok_answer; ok_answer;
   stop_answer A SIGTRAP v; ok_answer; ok_answer; ok_answer].

(** [getpid] in a target whose pid is 1234. *)
Definition getpid_script : list answer := syscall_script X86_64 1234.

(** A controller for which [/tmp/patch-link] is a symbolic link to a
    staged patch object. *)
Definition link_fs : fs_env :=
  mkFs (fun p => if String.eqb p "/tmp/patch-link"
                 then Some "/var/run/ultask/1234/map_files/patch-Hy3kQz"%string
                 else None)
       (fun p => Some p).

(** [task_open] on a target that grants the scratch allocation at
    0x7f0000800000, opens the file as descriptor 3 and unmaps the
    scratch again. *)
Definition open_script : list answer :=
  syscall_script X86_64 0x7f0000800000 ++ [ok_answer]
  ++ syscall_script X86_64 3 ++ syscall_script X86_64 0.

End Remote.

(** ** GNU build-ID notes ([elf_object_note]) *)

Module Note.
Import Word.

Definition NT_VERSION : Z := 1.
Definition NT_GNU_BUILD_ID : Z := 3.
Definition NT_GNU_BUILD_ATTRIBUTE_OPEN : Z := 0x100.
Definition NT_GNU_BUILD_ATTRIBUTE_FUNC : Z := 0x101.

(** The part of [struct elf_file] that note processing writes:
    [build_id] points to a heap buffer, given by its bytes, or is
    NULL. *)
Record elf_file := mkElfFile {
  filepath : string;
  build_id : option (list ascii)
}.

Definition hex_digits : list ascii :=
  ["0"; "1"; "2"; "3"; "4"; "5"; "6"; "7"; "8"; "9";
   "a"; "b"; "c"; "d"; "e"; "f"]%char.

Definition hex_digit (d : Z) : ascii := nth (Z.to_nat d) hex_digits "0"%char.

(** [sprintf(v, "%02" PRIx8, (uint8_t) c)]: the two characters left in
    [v[0]] and [v[1]]. *)
Definition sprintf_02x (c : Z) : ascii * ascii :=
  let b := c mod 256 in (hex_digit (b / 16), hex_digit (b mod 16)).

(** [malloc(size)]: a fresh buffer whose bytes are whatever the heap
    held, [heap i] at index [i]. *)
Definition malloc (heap : nat -> ascii) (size : Z) : list ascii :=
  map heap (seq 0 (Z.to_nat size)).

(** The statements that store the digits of [desc[i]] at [build_id[i*2]]
    and [build_id[i*2+1]].  A store at an index outside the buffer
    leaves the buffer as it is: in C it lands in the memory behind the
    allocation. *)
Definition put_byte (desc : list Z) (build_id : list ascii) (i : nat)
  : list ascii :=
  let v := sprintf_02x (nth i desc 0) in
  <[(i * 2 + 1)%nat := snd v]> (<[(i * 2)%nat := fst v]> build_id).

(** [for (i = 0; i < descsz - 1; ++i)], [n] turns from [i] on. *)
Fixpoint build_id_loop (n : nat) (desc : list Z) (build_id : list ascii)
  (i : nat) : list ascii * nat :=
  match n with
  | O => (build_id, i)
  | S n => build_id_loop n desc (put_byte desc build_id i) (S i)
  end.

(** The [NT_GNU_BUILD_ID] case. *)
Definition save_build_id (heap : nat -> ascii) (descsz : Z) (desc : list Z)
  : list ascii :=
  let build_id := malloc heap (u32 (descsz * 2 + 1)) in
  let '(build_id, i) :=
    build_id_loop (Z.to_nat (u32 (descsz - 1))) desc build_id 0 in
  let build_id := put_byte desc build_id i in
  <[(i * 2 + 2)%nat := zero]> build_id.

(** [elf_object_note]; every [printf] in note.c expands to nothing, so
    the branches that only print leave [elf] as it is. *)
Definition elf_object_note (heap : nat -> ascii) (elf : elf_file)
  (namesz : Z) (name : string) (type descsz : Z) (desc : list Z)
  : elf_file :=
  if String.eqb "stapsdt" name then elf
  else if String.prefix "GA" name
          && ((type =? NT_GNU_BUILD_ATTRIBUTE_OPEN)
              || (type =? NT_GNU_BUILD_ATTRIBUTE_FUNC)) then elf
  else if (descsz =? 0) && (type =? NT_VERSION) then elf
  else if negb (String.eqb "GNU" name) then elf
  else if type =? NT_GNU_BUILD_ID then
    if String.eqb name "GNU" && (descsz >? 0)
    then mkElfFile (filepath elf) (Some (save_build_id heap descsz desc))
    else elf
  else elf.

(** *** What the claim speaks of *)

(** The lowercase hexadecimal text of a sequence of bytes. *)
Fixpoint hex_of (bytes : list Z) : list ascii :=
  match bytes with
  | [] => []
  | b :: rest => fst (sprintf_02x b) :: snd (sprintf_02x b) :: hex_of rest
  end.

Definition is_lower_hex (c : ascii) : bool :=
  existsb (Ascii.eqb c) hex_digits.

(** The value of a hexadecimal digit, and the bytes a hexadecimal text
    stands for. *)
Definition hex_value (c : ascii) : Z :=
  let n := Z.of_nat (nat_of_ascii c) in
  if n <? 58 then n - 48 else n - 87.

Fixpoint unhex (s : list ascii) : list Z :=
  match s with
  | hi :: lo :: rest => (hex_value hi * 16 + hex_value lo) :: unhex rest
  | _ => []
  end.

(** The C string a buffer holds: the characters before the first
    NUL. *)
Fixpoint c_string (buf : list ascii) : list ascii :=
  match buf with
  | [] => []
  | c :: rest => if Ascii.eqb c zero then [] else c :: c_string rest
  end.

(** The descriptor of the build ID that the source quotes. *)
Definition ls_build_id : list Z :=
  [0x49; 0xc2; 0xfa; 0xd6; 0x5d; 0x0c; 0x2d; 0xf7; 0x00; 0x25;
   0x64; 0x4c; 0x9b; 0xc7; 0x48; 0x5b; 0x28; 0xba; 0xb8; 0x99].

End Note.

(** ** The [ultask] command line ([parse_config]) *)

Module Ultask.

Definition EEXIST : Z := 17.
Definition ENOENT : Z := 2.
Definition EINVAL : Z := 22.

(** A computation that may end the process.  Modelled from the spec:
    [cmd_exit(v)] and [cmd_exit_success()] (utils/cmds.h, not under
    src/) end the run with "exit codes: 0 = success; 1 =
    usage/validation error; EEXIST / ENOENT / EINVAL for path
    errors". *)
Inductive outcome (A : Type) :=
| Ret (a : A)
| Exit (code : Z).
Arguments Ret {A} a.
Arguments Exit {A} code.

Definition obind {A B} (m : outcome A) (k : A -> outcome B) : outcome B :=
  match m with
  | Ret a => k a
  | Exit c => Exit c
  end.

Definition cmd_exit {A} (v : Z) : outcome A := Exit v.
Definition cmd_exit_success {A} : outcome A := Exit 0.

Declare Scope exit_scope.
Delimit Scope exit_scope with exit.
Notation "x <~ m ;; k" := (obind m (fun x => k))
  (at level 100, m at next level, right associativity) : exit_scope.
Local Open Scope exit_scope.

(** The file-scope variables of ultask.c, by type. *)
Inductive bvar :=
| flag_print_task | flag_print_vmas | flag_dump_vma | flag_dump_addr
| flag_unmap_vma | map_ro | map_noexec | flag_list_symbols
| flag_print_threads | flag_print_fds | flag_print_auxv
| flag_print_status | flag_disasm | flag_rdonly.

Inductive ivar :=
| target_pid | vma_addr | dump_addr | dump_size | jmp_addr_from
| jmp_addr_to | disasm_addr | disasm_size.

Inductive svar := map_file | output_file.

#[local] Instance bvar_eq_dec : EqDecision bvar.
Proof. solve_decision. Defined.
#[local] Instance ivar_eq_dec : EqDecision ivar.
Proof. solve_decision. Defined.
#[local] Instance svar_eq_dec : EqDecision svar.
Proof. solve_decision. Defined.

Record statics := mkStatics {
  flags : bvar -> bool;
  nums : ivar -> Z;
  strs : svar -> option string
}.

Definition set_flag (v : bvar) (x : bool) (s : statics) : statics :=
  mkStatics (fun v' => if decide (v' = v) then x else flags s v')
            (nums s) (strs s).

Definition set_num (v : ivar) (x : Z) (s : statics) : statics :=
  mkStatics (flags s) (fun v' => if decide (v' = v) then x else nums s v')
            (strs s).

Definition set_str (v : svar) (x : option string) (s : statics) : statics :=
  mkStatics (flags s) (nums s)
            (fun v' => if decide (v' = v) then x else strs s v').

(** [ultask_args_reset]. *)
Definition ultask_args_reset : statics :=
  mkStatics (fun v => match v with
                      | flag_print_task | flag_rdonly => true
                      | _ => false
                      end)
            (fun v => match v with target_pid => -1 | _ => 0 end)
            (fun _ => None).

(** What the controller's libc and file system answer. *)
Record env := mkEnv {
  atoi : string -> Z;
  str2addr : string -> Z;
  str2size : string -> Z;
  proc_pid_exist : Z -> bool;
  get_proc_pid_cwd : Z -> string;
  fexist : string -> bool;
  fregular : string -> bool;
  fsize : string -> Z;
  force : bool
}.

(** What [getopt_long] returns, one item per turn of the loop.  A
    common option (args-common.c, not under src/) either ends the run
    with a code or lets the loop go on; [OptUnknown] is the [default]
    case. *)
Inductive opt :=
| OptPid (optarg : string)
| OptVmas
| OptThreads
| OptFds
| OptAuxv
| OptStatus
| OptDump (optarg : string)
| OptJmp (optarg : string)
| OptMap (optarg : string)
| OptUnmap (optarg : string)
| OptSymbols
| OptOutput (optarg : string)
| OptCommon (ends : option Z)
| OptUnknown.

(** *** [getsubopt] *)

Fixpoint split_on (sep : ascii) (s : string) : list string :=
  match s with
  | EmptyString => [EmptyString]
  | String c r =>
    if Ascii.eqb c sep then EmptyString :: split_on sep r
    else match split_on sep r with
         | [] => [String c EmptyString]
         | t :: ts => String c t :: ts
         end
  end.

(** The suboptions that the [while] loop around [getsubopt] meets: the
    loop ends when the rest of the argument is empty. *)
Definition subopt_tokens (s : string) : list string :=
  let l := split_on "," s in
  match List.last l "x"%string with
  | EmptyString => removelast l
  | _ => l
  end.

Fixpoint index_of (name : string) (tokens : list string) (i : nat)
  : option nat :=
  match tokens with
  | [] => None
  | t :: rest => if String.eqb t name then Some i
                 else index_of name rest (S i)
  end.

(** One call of [getsubopt]: the index it returns ([None] for -1) and
    what it stores in [value] ([None] for NULL). *)
Definition getsubopt (tokens : list string) (tok : string)
  : option nat * option string :=
  match split_on "=" tok with
  | name :: v :: vs =>
    match index_of name tokens 0 with
    | Some i => (Some i, Some (String.concat "=" (v :: vs)))
    | None => (None, Some tok)
    end
  | _ =>
    match index_of tok tokens 0 with
    | Some i => (Some i, None)
    | None => (None, Some tok)
    end
  end.

Definition dump_opts : list string := ["vma"; "disasm"; "addr"; "size"]%string.
Definition jmp_opts : list string := ["from"; "to"]%string.
Definition map_opts : list string := ["file"; "ro"; "noexec"]%string.

(** [str2addr(value)] and the like on a [value] that may be NULL are
    given the empty string then. *)
Definition value_or_empty (v : option string) : string := default ""%string v.

Fixpoint dump_subopts (e : env) (toks : list string) (s : statics)
  : outcome statics :=
  match toks with
  | [] => Ret s
  | tok :: rest =>
    let '(idx, value) := getsubopt dump_opts tok in
    match idx with
    | Some 0%nat => dump_subopts e rest (set_flag flag_dump_vma true s)
    | Some 1%nat => dump_subopts e rest (set_flag flag_disasm true s)
    | Some 2%nat =>
      dump_subopts e rest (set_num dump_addr (str2addr e (value_or_empty value)) s)
    | Some 3%nat =>
      dump_subopts e rest (set_num dump_size (str2size e (value_or_empty value)) s)
    | _ => cmd_exit 1
    end
  end.

Fixpoint jmp_subopts (e : env) (toks : list string) (s : statics)
  : outcome statics :=
  match toks with
  | [] => Ret s
  | tok :: rest =>
    let '(idx, value) := getsubopt jmp_opts tok in
    match idx with
    | Some 0%nat =>
      jmp_subopts e rest (set_num jmp_addr_from (str2addr e (value_or_empty value)) s)
    | Some 1%nat =>
      jmp_subopts e rest (set_num jmp_addr_to (str2addr e (value_or_empty value)) s)
    | _ => cmd_exit 1
    end
  end.

Fixpoint map_subopts (toks : list string) (s : statics) : outcome statics :=
  match toks with
  | [] => Ret s
  | tok :: rest =>
    let '(idx, value) := getsubopt map_opts tok in
    match idx with
    | Some 0%nat => map_subopts rest (set_str map_file value s)
    | Some 1%nat => map_subopts rest (set_flag map_ro true s)
    | Some 2%nat => map_subopts rest (set_flag map_noexec true s)
    | _ => cmd_exit 1
    end
  end.

(** The [switch (c)] of the option loop. *)
Definition parse_one (e : env) (o : opt) (s : statics) : outcome statics :=
  match o with
  | OptPid optarg => Ret (set_num target_pid (atoi e optarg) s)
  | OptVmas => Ret (set_flag flag_print_vmas true s)
  | OptDump optarg =>
    s <~ dump_subopts e (subopt_tokens optarg) s ;;
    if flags s flag_dump_vma && flags s flag_disasm then cmd_exit 1
    else if flags s flag_dump_vma then
      if nums s dump_addr =? 0 then cmd_exit 1
      else Ret (set_num vma_addr (nums s dump_addr) s)
    else if flags s flag_disasm then
      if (nums s dump_addr =? 0) || (nums s dump_size =? 0) then cmd_exit 1
      else Ret (set_num disasm_size (nums s dump_size)
                  (set_num disasm_addr (nums s dump_addr) s))
    else
      if (nums s dump_addr =? 0) || (nums s dump_size =? 0) then cmd_exit 1
      else Ret (set_flag flag_dump_addr true s)
  | OptJmp optarg =>
    s <~ jmp_subopts e (subopt_tokens optarg) s ;;
    let s := set_flag flag_rdonly false s in
    if (nums s jmp_addr_from =? 0) || (nums s jmp_addr_to =? 0)
    then cmd_exit 1 else Ret s
  | OptMap optarg =>
    s <~ map_subopts (subopt_tokens optarg) s ;;
    let s := set_flag flag_rdonly false s in
    match strs s map_file with
    | None => cmd_exit 1
    | Some _ => Ret s
    end
  | OptUnmap optarg =>
    Ret (set_num vma_addr (str2addr e optarg)
           (set_flag flag_rdonly false (set_flag flag_unmap_vma true s)))
  | OptSymbols => Ret (set_flag flag_list_symbols true s)
  | OptThreads => Ret (set_flag flag_print_threads true s)
  | OptFds => Ret (set_flag flag_print_fds true s)
  | OptAuxv => Ret (set_flag flag_print_auxv true s)
  | OptStatus => Ret (set_flag flag_print_status true s)
  | OptOutput optarg => Ret (set_str output_file (Some optarg) s)
  | OptCommon (Some code) => cmd_exit code
  | OptCommon None => Ret s
  | OptUnknown => cmd_exit_success
  end.

Fixpoint parse_options (e : env) (opts : list opt) (s : statics)
  : outcome statics :=
  match opts with
  | [] => Ret s
  | o :: rest => s <~ parse_one e o s ;; parse_options e rest s
  end.

Definition is_absolute (p : string) : bool :=
  match p with
  | String c _ => Ascii.eqb c "/"
  | EmptyString => false
  end.

(** The block [if (map_file) { ... }] of [parse_config]. *)
Definition check_map_file (e : env) (s : statics) : outcome statics :=
  match strs s map_file with
  | None => Ret s
  | Some mf =>
    real_map_file <~
      (if is_absolute mf then
         if negb (fexist e mf) then cmd_exit EEXIST else Ret mf
       else
         let tcwd := get_proc_pid_cwd e (nums s target_pid) in
         let cwd_file := (tcwd ++ "/" ++ mf)%string in
         if negb (fexist e cwd_file) then cmd_exit EEXIST else Ret cwd_file) ;;
    if negb (fregular e real_map_file) then cmd_exit ENOENT
    else if fsize e real_map_file =? 0 then cmd_exit EINVAL
    else Ret (set_str map_file (Some real_map_file) s)
  end.

(** What follows the option loop. *)
Definition validate (e : env) (s : statics) : outcome statics :=
  if nums s target_pid =? -1 then cmd_exit 1
  else if negb (proc_pid_exist e (nums s target_pid)) then cmd_exit 1
  else
    let idle :=
      negb (flags s flag_print_vmas) && negb (flags s flag_dump_vma)
      && negb (flags s flag_dump_addr)
      && match strs s map_file with None => true | Some _ => false end
      && ((nums s jmp_addr_from =? 0) || (nums s jmp_addr_to =? 0))
      && negb (flags s flag_unmap_vma) && negb (flags s flag_list_symbols)
      && negb (flags s flag_print_auxv) && negb (flags s flag_print_status)
      && negb (flags s flag_print_threads) && negb (flags s flag_disasm)
      && negb (flags s flag_print_fds) in
    let s := if idle then s else set_flag flag_print_task false s in
    if flags s flag_dump_vma
       && match strs s output_file with None => true | Some _ => false end
    then cmd_exit 1
    else if flags s flag_dump_addr
            && match strs s output_file with None => true | Some _ => false end
    then cmd_exit 1
    else
      s <~ check_map_file e s ;;
      match strs s output_file with
      | Some out => if negb (force e) && fexist e out then cmd_exit 1 else Ret s
      | None => Ret s
      end.

(** [parse_config]: the exit code of the process, or the statics it
    leaves when it returns 0. *)
Definition parse_config (e : env) (opts : list opt) : outcome statics :=
  s <~ parse_options e opts ultask_args_reset ;;
  validate e s.

(** *** What the claim speaks of *)

(** The invocation carries [--map] with [file=F]. *)
Definition carries_map_file (opts : list opt) (F : string) : Prop :=
  exists optarg, In (OptMap optarg) opts /\
                 In ("file=" ++ F)%string (subopt_tokens optarg).

(** A controller that knows the process 1234 and no files. *)
Definition bare_env : env :=
  mkEnv (fun s => if String.eqb s "1234" then 1234 else 0)
        (fun _ => 0) (fun _ => 0) (fun p => p =? 1234)
        (fun _ => "/"%string) (fun _ => false) (fun _ => false) (fun _ => 0)
        false.

End Ultask.

(** ** Looking VMAs up ([find_vma], [next_vma]) and releasing them *)

Module Lookup.
Import Word Vma.

(** [__find_vma_cmp]: the key is an address. *)
Definition __find_vma_cmp (vma : vma_struct) (vaddr : Z) : Z :=
  if start vma >? vaddr then -1
  else if (start vma <=? vaddr) && (end_ vma >? vaddr) then 0
  else 1.

(** Modelled from the spec: [rb_search_node] (utils/rbtree, not under
    src/) descends the "interval tree keyed by start" by the sign of
    the comparator, as [rb_insert_node] does.  On the in-order sequence
    the key lies before a node that compares below 0 and behind one
    that compares above 0. *)
Fixpoint rb_search_node (a : list vma_struct) (rb : list nat) (vaddr : Z)
  : option nat :=
  match rb with
  | [] => None
  | n :: rest =>
    let c := __find_vma_cmp (deref a n) vaddr in
    if c <? 0 then None
    else if c =? 0 then Some n
    else rb_search_node a rest vaddr
  end.

(** [find_vma(task, vaddr)]; [None] is NULL. *)
Definition find_vma (t : task) (vaddr : Z) : option nat :=
  rb_search_node (arena t) (vmas_rb t) vaddr.

(** Modelled from the spec: [rb_first] and [rb_next] (utils/rbtree, not
    under src/) walk the "VMA interval tree" in order, here its
    in-order sequence. *)
Definition rb_first (rb : list nat) : option nat := head rb.

Fixpoint rb_next (rb : list nat) (node : nat) : option nat :=
  match rb with
  | [] => None
  | n :: rest => if Nat.eqb n node then head rest else rb_next rest node
  end.

(** [next_vma(task, prev)]. *)
Definition next_vma (t : task) (prev : option nat) : option nat :=
  match prev with
  | Some p => rb_next (vmas_rb t) p
  | None => rb_first (vmas_rb t)
  end.

(** The VMAs that [for (vma = next_vma(task, NULL); vma; vma =
    next_vma(task, vma))] visits, in order; [fuel] bounds the number of
    turns. *)
Fixpoint for_each_vma (fuel : nat) (t : task) (vma : option nat) : list nat :=
  match fuel, vma with
  | S fuel, Some v => v :: for_each_vma fuel t (next_vma t (Some v))
  | _, _ => []
  end.

Definition task_for_each_vma (t : task) : list nat :=
  for_each_vma (length (vmas_rb t)) t (next_vma t None).

(** Two lines of a maps listing that share no address. *)
Definition lines_apart (l1 l2 : maps_line) : Prop :=
  l_end l1 <= l_start l2 \/ l_end l2 <= l_start l1.

(** No two lines of the listing share an address. *)
Fixpoint no_overlap (lines : list maps_line) : Prop :=
  match lines with
  | [] => True
  | ln :: rest => Forall (lines_apart ln) rest /\ no_overlap rest
  end.

(** The address lies in the range of the line. *)
Definition line_has (ln : maps_line) (vaddr : Z) : Prop :=
  l_start ln <= vaddr < l_end ln.

(** What the loop of [read_task_vmas] keeps true when the lines do not
    overlap: VMA [k] carries the range of line [k], and the tree holds
    every VMA once. *)
Definition lines_inv (t : task) (lines : list maps_line) : Prop :=
  length (arena t) = length lines /\
  (forall k ln, lines !! k = Some ln ->
     start (deref (arena t) k) = l_start ln /\
     end_ (deref (arena t) k) = l_end ln) /\
  vmas_rb t ≡ₚ seq 0 (length lines).

(** The position of the first element that [f] accepts, counted from
    [i]. *)
Fixpoint first_index {A} (f : A -> bool) (l : list A) (i : nat) : option nat :=
  match l with
  | [] => None
  | x :: rest => if f x then Some i else first_index f rest (S i)
  end.

(** [vma_free_elf]: [None] when the call goes through a pointer that is
    NULL or was given to [free] before. *)
Definition vma_free_elf (a : list vma_struct) (vi : nat)
  : option (list vma_struct) :=
  let vma := deref a vi in
  if negb (is_elf vma) then Some a
  else match elf vma with
       | ElfLive _ =>
         Some (<[vi := set_elf vma ElfFreed (is_elf vma) (is_share_lib vma)]> a)
       | _ => None
       end.

(** The loop [task_for_each_vma(v, task) vma_free_elf(v)] of
    [free_task]. *)
Fixpoint free_elf_all (a : list vma_struct) (order : list nat)
  : option (list vma_struct) :=
  match order with
  | [] => Some a
  | v :: rest =>
    match vma_free_elf a v with
    | Some a => free_elf_all a rest
    | None => None
    end
  end.

(** [is_elf] is set only on a VMA whose [elf] pointer is live. *)
Definition elf_ok (a : list vma_struct) : Prop :=
  forall i, is_elf (deref a i) = true -> exists e, elf (deref a i) = ElfLive e.

(** What reading the listing keeps true of a task on which no VMA has
    been taken for an ELF image yet. *)
Definition unpeeked (t : task) : Prop :=
  (forall i, is_elf (deref (arena t) i) = false) /\
  NoDup (vmas_rb t) /\
  Forall (fun i => (i < length (arena t))%nat) (vmas_rb t).

End Lookup.

(** ** More of the remote executor: [wait_for_stop]'s outcomes and the
    wrappers around [task_syscall] *)

Module Wrappers.
Import Word Remote.
Local Open Scope remote_scope.

(** How the last answer that [wait_for_stop] consumed ended its loop:
    [waitpid] reported a stop by [SIGSTOP] or [SIGTRAP], or a call
    failed, or [waitpid] reported a stop by [SIGSEGV]. *)
Definition ends_stopped (a : answer) : Prop :=
  a_errno a = None /\
  exists sig, a_status a = WStopped sig /\ (sig = SIGSTOP \/ sig = SIGTRAP).

Definition ends_failed (a : answer) : Prop :=
  is_Some (a_errno a) \/ a_status a = WStopped SIGSEGV.

(** The syscall numbers of the two ABIs and [sizeof(struct stat)]. *)
Definition __NR_msync (A : arch) : Z := match A with X86_64 => 26 | AArch64 => 227 end.
Definition __NR_close (A : arch) : Z := match A with X86_64 => 3 | AArch64 => 57 end.
Definition __NR_ftruncate (A : arch) : Z := match A with X86_64 => 77 | AArch64 => 46 end.
Definition __NR_fstat (A : arch) : Z := match A with X86_64 => 5 | AArch64 => 80 end.
Definition __NR_prctl (A : arch) : Z := match A with X86_64 => 157 | AArch64 => 167 end.
Definition MS_ASYNC : Z := 1.
Definition MS_SYNC : Z := 4.
Definition sizeof_stat (A : arch) : Z := match A with X86_64 => 144 | AArch64 => 128 end.
Definition EBADF : Z := 9.

Definition task_msync (A : arch) (libc_base : Z) (addr length flags : Z) : M Z :=
  g <- junk ;;
  rr <- task_syscall A libc_base (__NR_msync A) addr length flags 0 0 0
                     (junk_result g) ;;
  if fst rr <? 0 then ret (-1) else ret (to_int (snd rr)).

Definition task_msync_sync (A : arch) (libc_base : Z) (addr length : Z) : M Z :=
  task_msync A libc_base addr length MS_SYNC.

Definition task_msync_async (A : arch) (libc_base : Z) (addr length : Z) : M Z :=
  task_msync A libc_base addr length MS_ASYNC.

Definition task_close (A : arch) (libc_base : Z) (remote_fd : Z) : M Z :=
  g <- junk ;;
  rr <- task_syscall A libc_base (__NR_close A) remote_fd 0 0 0 0 0
                     (junk_result g) ;;
  if fst rr <? 0 then ret 0 else ret (to_int (snd rr)).

Definition task_ftruncate (A : arch) (libc_base : Z) (remote_fd length : Z)
  : M Z :=
  g <- junk ;;
  rr <- task_syscall A libc_base (__NR_ftruncate A) remote_fd length 0 0 0 0
                     (junk_result g) ;;
  if fst rr <? 0 then ret 0 else ret (to_int (snd rr)).

Definition task_prctl (A : arch) (libc_base : Z)
  (option arg2 arg3 arg4 arg5 : Z) : M Z :=
  g <- junk ;;
  rr <- task_syscall A libc_base (__NR_prctl A) option arg2 arg3 arg4 arg5 0
                     (junk_result g) ;;
  if fst rr <? 0 then ret 0 else ret (to_int (snd rr)).

(** [task_fstat]: the value returned and what [*statbuf] holds
    afterwards, [statbuf0] being what it held before. *)
Definition task_fstat (A : arch) (libc_base : Z) (remote_fd : Z)
  (statbuf0 : list Z) : M (Z * list Z) :=
  g <- junk ;;
  remote_statbuf <- task_malloc A libc_base (sizeof_stat A) ;;
  rr <- task_syscall A libc_base (__NR_fstat A) remote_fd remote_statbuf
                     0 0 0 0 (junk_result g) ;;
  let ret_fstat := fst rr in
  rd <- memcpy_from_task remote_statbuf (Z.to_nat (sizeof_stat A)) ;;
  let statbuf := default statbuf0 (snd rd) in
  _ <- task_free A libc_base remote_statbuf (sizeof_stat A) ;;
  ret (ret_fstat, statbuf).

(** The remote call that [task_open] makes for the path at
    [remote_fileaddr]. *)
Definition open_call (A : arch) (libc_base remote_fileaddr flags mode res0 : Z)
  : M (Z * Z) :=
  match A with
  | X86_64 =>
    task_syscall A libc_base __NR_open remote_fileaddr flags mode 0 0 0 res0
  | AArch64 =>
    task_syscall A libc_base __NR_openat AT_FDCWD remote_fileaddr flags mode
                 0 0 res0
  end.

(** A target in which the scratch allocation is granted at
    0x7f0000800000, the remote [fstat] fails with [EBADF], and the
    scratch is unmapped again. *)
Definition fstat_script : list answer :=
  syscall_script X86_64 0x7f0000800000
  ++ syscall_script X86_64 (u64 (- EBADF))
  ++ [ok_answer]
  ++ syscall_script X86_64 0.

(** [task_open] on a target that grants the scratch allocation, after
    which [PTRACE_GETREGS] fails with [ESRCH] for good. *)
Definition gone_script : list answer :=
  syscall_script X86_64 0x7f0000800000 ++ [ok_answer]
  ++ [err_answer 3] ++ [err_answer 3].

End Wrappers.

(** ** [task_attach] and [task_detach] *)

Module Attach.
Import Word.

Definition SIGTRAP : Z := 5.
Definition SIGSTOP : Z := 19.

(** The macros of [<sys/wait.h>] on the [int] that [waitpid] stores. *)
Definition WTERMSIG (status : Z) : Z := Z.land status 0x7f.
Definition WSTOPSIG (status : Z) : Z := Z.shiftr (Z.land status 0xff00) 8.
Definition WIFSTOPPED (status : Z) : bool := Z.land status 0xff =? 0x7f.
Definition WIFSIGNALED (status : Z) : bool :=
  let c := Z.land status 0x7f + 1 in
  let signed_char := if c <? 128 then c else c - 256 in
  Z.shiftr signed_char 1 >? 0.

(** What the controller asks of the system, and what it is told: the
    [errno] of a call that fails, and for [waitpid] the status word. *)
Inductive request :=
| PTRACE_ATTACH
| PTRACE_CONT (data : Z)
| PTRACE_DETACH
| WAITPID.

Record reply := mkReply {
  rp_errno : option positive;
  rp_status : Z
}.

Record sys := mkSys {
  replies : list reply;
  asked : list request
}.

(** A computation of the controller; [None] when the replies run
    out. *)
Definition P (X : Type) : Type := sys -> option (X * sys).

Definition pret {X} (x : X) : P X := fun s => Some (x, s).

Definition pbind {X Y} (m : P X) (k : X -> P Y) : P Y :=
  fun s => match m s with
           | Some (x, s') => k x s'
           | None => None
           end.

Declare Scope attach_scope.
Delimit Scope attach_scope with attach.
Notation "x <~~ m ;; k" := (pbind m (fun x => k))
  (at level 100, m at next level, right associativity) : attach_scope.
Local Open Scope attach_scope.

Definition ask (q : request) : P reply :=
  fun s => match replies s with
           | [] => None
           | r :: rest => Some (r, mkSys rest (asked s ++ [q]))
           end.

(** One turn of the [do ... while (1)] loop per unit of fuel. *)
Fixpoint attach_loop (fuel : nat) : P Z :=
  match fuel with
  | O => fun _ => None
  | S fuel =>
    r <~~ ask WAITPID ;;
    match rp_errno r with
    | Some e => pret (- Z.pos e)
    | None =>
      let status := rp_status r in
      if WIFSTOPPED status && (WSTOPSIG status =? SIGSTOP) then pret 0
      else
        let status :=
          if WIFSTOPPED status
          then (if WSTOPSIG status =? SIGTRAP then 0 else WSTOPSIG status)
          else if WIFSIGNALED status then WTERMSIG status
          else status in
        c <~~ ask (PTRACE_CONT (u64 status)) ;;
        match rp_errno c with
        | Some e => pret (- Z.pos e)
        | None => attach_loop fuel
        end
    end
  end.

(** [task_attach]: every turn of the loop takes a reply, so the number
    of replies is fuel enough. *)
Definition task_attach : P Z :=
  a <~~ ask PTRACE_ATTACH ;;
  match rp_errno a with
  | Some e => pret (- Z.pos e)
  | None => fun s => attach_loop (S (length (replies s))) s
  end.

Definition task_detach : P Z :=
  d <~~ ask PTRACE_DETACH ;;
  match rp_errno d with
  | Some e => pret (- Z.pos e)
  | None => pret 0
  end.

(** [waitpid] reported a stop by [SIGSTOP]. *)
Definition stopped_by_SIGSTOP (r : reply) : Prop :=
  rp_errno r = None /\
  WIFSTOPPED (rp_status r) = true /\ WSTOPSIG (rp_status r) = SIGSTOP.

(** A call went through. *)
Definition fine : reply := mkReply None 0.

(** The status word of a stop by [sig]. *)
Definition stop_word (sig : Z) : Z := Z.lor (Z.shiftl sig 8) 0x7f.

End Attach.

(** ** The callers: [uftrace] and the actions of [ultask] *)

Module Calls.

(** The calls into utils/task.c that the command-line tools make, with
    their arguments. *)
Inductive call :=
| task_attach (pid : Z)
| task_detach (pid : Z)
| task_open (pathname : string) (flags mode : Z)
| task_open2 (pathname : string) (flags : Z)
| task_ftruncate (remote_fd length : Z)
| task_mmap (addr length prot flags fd offset : Z)
| task_munmap (addr size : Z)
| task_close (remote_fd : Z)
| update_task_vmas
| update_task_vmas_ulp
| dump_task_vmas
| free_task.

(** A run of a tool: the values that the calls still to come will
    return, and the calls made so far. *)
Record run := mkRun {
  returns : list Z;
  made : list call
}.

(** A computation of the tool; [None] when the returns run out. *)
Definition C (X : Type) : Type := run -> option (X * run).

Definition cret {X} (x : X) : C X := fun r => Some (x, r).

Definition cbind {X Y} (m : C X) (k : X -> C Y) : C Y :=
  fun r => match m r with
           | Some (x, r') => k x r'
           | None => None
           end.

Declare Scope calls_scope.
Delimit Scope calls_scope with calls.
Notation "x <== m ;; k" := (cbind m (fun x => k))
  (at level 100, m at next level, right associativity) : calls_scope.

(** A call whose return value the tool looks at or stores. *)
Definition does (c : call) : C Z :=
  fun r => match returns r with
           | [] => None
           | v :: rest => Some (v, mkRun rest (made r ++ [c]))
           end.

(** A call to a [void] function. *)
Definition does_void (c : call) : C unit :=
  fun r => Some (tt, mkRun (returns r) (made r ++ [c])).

Definition O_RDWR : Z := 2.
Definition PROT_READ : Z := 1.
Definition PROT_WRITE : Z := 2.
Definition PROT_EXEC : Z := 4.
Definition MAP_PRIVATE : Z := 2.

End Calls.

Module Uftrace.
Import Word Calls.
Local Open Scope calls_scope.

(** The file-scope variables of uftrace.c; [log_level] is
    [config.log_level]. *)
Record statics := mkStatics {
  target_pid : Z;
  patch_object_file : option string;
  log_level : Z;
  obj_target_task_map_addr : Z;
  obj_target_tasp_map_size : Z
}.

(** Their initialisers. *)
Definition initial : statics := mkStatics (-1) None (-1) 0 0.

(** What libc and the file system answer; [FILE_ELF_RELO] is the
    constant of utils/util.h, which is not under src/. *)
Record env := mkEnv {
  atoi : string -> Z;
  proc_pid_exist : Z -> bool;
  fexist : string -> bool;
  ftype : string -> Z;
  FILE_ELF_RELO : Z;
  fsize : string -> Z
}.

(** What [getopt_long] returns, one item per turn of the loop;
    [OptUnknown] is the [default] case. *)
Inductive opt :=
| OptPid (optarg : string)
| OptPatchObj (optarg : string)
| OptVersion
| OptHelp
| OptLogLevel (optarg : string)
| OptUnknown.

(** [print_help] ends with [exit(0)]. *)
Definition print_help {X} : Ultask.outcome X := Ultask.Exit 0.

(** The [switch (c)] of the option loop. *)
Definition parse_one (e : env) (o : opt) (s : statics)
  : Ultask.outcome statics :=
  match o with
  | OptPid optarg =>
    Ultask.Ret (mkStatics (atoi e optarg) (patch_object_file s) (log_level s)
                          (obj_target_task_map_addr s)
                          (obj_target_tasp_map_size s))
  | OptPatchObj optarg =>
    Ultask.Ret (mkStatics (target_pid s) (Some optarg) (log_level s)
                          (obj_target_task_map_addr s)
                          (obj_target_tasp_map_size s))
  | OptVersion => Ultask.Exit 0
  | OptHelp => print_help
  | OptLogLevel optarg =>
    Ultask.Ret (mkStatics (target_pid s) (patch_object_file s) (atoi e optarg)
                          (obj_target_task_map_addr s)
                          (obj_target_tasp_map_size s))
  | OptUnknown => print_help
  end.

Fixpoint parse_options (e : env) (opts : list opt) (s : statics)
  : Ultask.outcome statics :=
  match opts with
  | [] => Ultask.Ret s
  | o :: rest =>
    Ultask.obind (parse_one e o s) (fun s => parse_options e rest s)
  end.

(** [parse_config]: the exit code of the process, or the statics it
    leaves when it returns 0. *)
Definition parse_config (e : env) (opts : list opt) (s : statics)
  : Ultask.outcome statics :=
  Ultask.obind (parse_options e opts s) (fun s =>
  if target_pid s =? -1 then Ultask.Exit 1
  else if negb (proc_pid_exist e (target_pid s)) then Ultask.Exit 1
  else match patch_object_file s with
       | None => Ultask.Exit 1
       | Some f =>
         if negb (fexist e f)
            || negb (Z.land (ftype e f) (FILE_ELF_RELO e) =? FILE_ELF_RELO e)
         then Ultask.Exit 1
         else Ultask.Ret s
       end).

(** An option that ends the run with the help text or the version. *)
Definition ends_run (o : opt) : bool :=
  match o with
  | OptVersion | OptHelp | OptUnknown => true
  | _ => false
  end.

(** The label [close_ret] of [mmap_object]. *)
Definition close_ret (pid map_fd ret : Z) (s : statics) : C (Z * statics) :=
  _ <== does (task_close map_fd) ;;
  _ <== does (task_detach pid) ;;
  cret (ret, s).

(** [mmap_object(task)] for the task of process [pid]: the value
    returned and the statics afterwards.  The size is kept in a local
    that carries the name of the file-scope variable. *)
Definition mmap_object (e : env) (pid : Z) (path : string) (s : statics)
  : C (Z * statics) :=
  let local_map_size := fsize e path in
  ret <== does (task_attach pid) ;;
  if negb (ret =? 0) then cret (-1, s)
  else
    map_fd <== does (task_open path O_RDWR 420) ;;
    if map_fd <=? 0 then cret (-1, s)
    else
      ret <== does (task_ftruncate map_fd local_map_size) ;;
      if negb (ret =? 0) then close_ret pid map_fd ret s
      else
        addr <== does (task_mmap 0 (u64 local_map_size)
                         (Z.lor (Z.lor PROT_READ PROT_WRITE) PROT_EXEC)
                         MAP_PRIVATE map_fd 0) ;;
        let s := mkStatics (target_pid s) (patch_object_file s) (log_level s)
                           addr (obj_target_tasp_map_size s) in
        if addr =? 0 then close_ret pid map_fd ret s
        else
          _ <== does update_task_vmas ;;
          _ <== does_void dump_task_vmas ;;
          close_ret pid map_fd ret s.

(** [munmap_object(task)]. *)
Definition munmap_object (pid : Z) (s : statics) : C Z :=
  if negb (obj_target_task_map_addr s =? 0) then
    _ <== does (task_attach pid) ;;
    _ <== does (task_munmap (obj_target_task_map_addr s)
                            (obj_target_tasp_map_size s)) ;;
    _ <== does (task_detach pid) ;;
    cret 0
  else cret 0.

(** [main] once [open_task] has returned the task. *)
Definition main_opened (e : env) (path : string) (s : statics) : C Z :=
  rs <== mmap_object e (target_pid s) path s ;;
  _ <== munmap_object (target_pid s) (snd rs) ;;
  _ <== does free_task ;;
  cret 0.

(** The call asks to unmap [size] bytes. *)
Definition unmaps (size : Z) (c : call) : Prop :=
  exists addr, c = task_munmap addr size.

(** A system on which process 1234 runs and /usr/share/ftrace.o is a
    relocatable object of 4096 bytes. *)
Definition demo_env : env :=
  mkEnv (fun s => if String.eqb s "1234" then 1234 else 0)
        (fun p => p =? 1234)
        (fun f => String.eqb f "/usr/share/ftrace.o")
        (fun _ => 3) 2 (fun _ => 4096).

End Uftrace.

(** ** The actions [mmap_a_file] and [munmap_an_vma] of ultask

    ultask.c writes [vm_start] and [vm_end] for the fields that
    utils/task.c calls [start] and [end]. *)

Module UltaskRun.
Import Word Vma Lookup Calls.
Local Open Scope calls_scope.

(** What [fexist] and [fsize] answer. *)
Record files := mkFiles {
  fexist : string -> bool;
  fsize : string -> Z
}.

(** The protection that [mmap_a_file] asks for. *)
Definition map_prot (map_ro map_noexec : bool) : Z :=
  let prot := Z.lor (Z.lor PROT_READ PROT_WRITE) PROT_EXEC in
  let prot := if map_ro then Z.land prot (Z.lnot PROT_WRITE) else prot in
  let prot := if map_noexec then Z.land prot (Z.lnot PROT_EXEC) else prot in
  prot.

(** The label [close_ret] of [mmap_a_file]. *)
Definition close_ret (pid map_fd ret : Z) : C Z :=
  _ <== does (task_close map_fd) ;;
  _ <== does (task_detach pid) ;;
  _ <== does update_task_vmas_ulp ;;
  cret ret.

(** [mmap_a_file] for the task of process [pid]; the statics hold the
    path that [parse_config] has left in [map_file]. *)
Definition mmap_a_file (f : files) (pid : Z) (s : Ultask.statics) : C Z :=
  let filename := default ""%string (Ultask.strs s Ultask.map_file) in
  let map_len := fsize f filename in
  _ <== does (task_attach pid) ;;
  map_fd <== does (task_open2 filename O_RDWR) ;;
  if map_fd <=? 0 then cret (-1)
  else
    ret <== does (task_ftruncate map_fd map_len) ;;
    if negb (ret =? 0) then close_ret pid map_fd ret
    else
      let prot := map_prot (Ultask.flags s Ultask.map_ro)
                           (Ultask.flags s Ultask.map_noexec) in
      map_v <== does (task_mmap 0 (u64 map_len) prot MAP_PRIVATE map_fd 0) ;;
      if map_v =? 0 then close_ret pid map_fd ret
      else close_ret pid map_fd ret.

(** [munmap_an_vma] on the task [t] of process [pid]. *)
Definition munmap_an_vma (f : files) (pid : Z) (t : task) (s : Ultask.statics)
  : C Z :=
  match find_vma t (Ultask.nums s Ultask.vma_addr) with
  | None => cret (-1)
  | Some vma =>
    let v := deref (arena t) vma in
    let size := if fexist f (name_ v) then u64 (fsize f (name_ v))
                else sub64 (end_ v) (start v) in
    let addr := start v in
    _ <== does (task_attach pid) ;;
    _ <== does (task_munmap addr size) ;;
    _ <== does (task_detach pid) ;;
    cret 0
  end.

(** No file exists. *)
Definition no_files : files := mkFiles (fun _ => false) (fun _ => 0).

(** Only /srv/data.bin exists, a file of 4096 bytes. *)
Definition data_files : files :=
  mkFiles (fun f => String.eqb f "/srv/data.bin") (fun _ => 4096).

End UltaskRun.

(** ** What [parse_config] of ultask leaves behind *)

Module UltaskChecks.
Import Ultask.

(** An option that makes ultask write to the target. *)
Definition writes_target (o : opt) : bool :=
  match o with
  | OptJmp _ | OptMap _ | OptUnmap _ => true
  | _ => false
  end.

(** The test "nothing to do" of [parse_config]: no action is asked
    for. *)
Definition nothing_to_do (s : statics) : bool :=
  negb (flags s flag_print_vmas) && negb (flags s flag_dump_vma)
  && negb (flags s flag_dump_addr)
  && match strs s map_file with None => true | Some _ => false end
  && ((nums s jmp_addr_from =? 0) || (nums s jmp_addr_to =? 0))
  && negb (flags s flag_unmap_vma) && negb (flags s flag_list_symbols)
  && negb (flags s flag_print_auxv) && negb (flags s flag_print_status)
  && negb (flags s flag_print_threads) && negb (flags s flag_disasm)
  && negb (flags s flag_print_fds).

(** A controller that knows the process 1234 and the regular file
    /srv/data.bin of 4096 bytes. *)
Definition file_env : env :=
  mkEnv (fun s => if String.eqb s "1234" then 1234 else 0)
        (fun _ => 0) (fun _ => 0) (fun p => p =? 1234)
        (fun _ => "/"%string)
        (fun f => String.eqb f "/srv/data.bin")
        (fun f => String.eqb f "/srv/data.bin")
        (fun _ => 4096)
        false.

End UltaskChecks.

(** ** GNU property notes ([NT_GNU_PROPERTY_TYPE_0]) and the clock *)

Module Property.
Import Word.

Inductive elf_class := ELFCLASS32 | ELFCLASS64.

Definition GNU_PROPERTY_STACK_SIZE : Z := 1.
Definition GNU_PROPERTY_NO_COPY_ON_PROTECTED : Z := 2.
Definition GNU_PROPERTY_LOPROC : Z := 0xc0000000.
Definition GNU_PROPERTY_HIPROC : Z := 0xdfffffff.
Definition GNU_PROPERTY_X86_FEATURE_1_AND : Z := 0xc0000002.
Definition GNU_PROPERTY_AARCH64_FEATURE_1_AND : Z := 0xc0000000.
Definition EM_386 : Z := 3.
Definition EM_X86_64 : Z := 62.
Definition EM_AARCH64 : Z := 183.

(** [NOTE_ALIGN4(n)] and [NOTE_ALIGN8(n)] for an [n] of type
    [GElf_Word]: the sum is taken in [unsigned int], the mask is
    [unsigned long]. *)
Definition NOTE_ALIGN4 (n : Z) : Z := Z.land (u32 (n + 3)) (u64 (-4)).
Definition NOTE_ALIGN8 (n : Z) : Z := Z.land (u32 (n + 7)) (u64 (-8)).

(** What libelf answers: the class and the machine of the file,
    whether [gelf_xlatetom] converts the [size] bytes at an offset of
    the descriptor, and the [ELF_T_WORD] that four bytes stand for in
    the byte order of the file. *)
Record elf_env := mkElfEnv {
  gelf_getclass : elf_class;
  e_machine : Z;
  xlate_ok : Z -> Z -> bool;
  to_word : list Z -> Z
}.

(** The bytes [desc[pos .. pos + n - 1]]. *)
Definition bytes_at (desc : list Z) (pos : Z) (n : nat) : list Z :=
  take n (drop (Z.to_nat pos) desc).

(** How the loop ended: its test failed, or a [return] left the
    function. *)
Inductive ending := LoopDone | Returned.

(** The conversion that one property asks of [gelf_xlatetom] behind
    its eight bytes of header: the offset and the size asked for, and
    whether the function goes on ([false] when the conversion fails
    and the function returns).  Every [printf] expands to nothing and
    evaluates no argument, so the branches that print read nothing. *)
Definition feature_read (E : elf_env) (pr_datasz pos : Z)
  : list (Z * Z) * bool :=
  if pr_datasz =? 4 then ([(pos, 4)], xlate_ok E pos 4) else ([], true).

Definition property_reads (E : elf_env) (pr_type pr_datasz pos : Z)
  : list (Z * Z) * bool :=
  if pr_type =? GNU_PROPERTY_STACK_SIZE then
    if match gelf_getclass E with
       | ELFCLASS32 => pr_datasz =? 4
       | ELFCLASS64 => pr_datasz =? 8
       end
    then ([(pos, pr_datasz)], xlate_ok E pos pr_datasz)
    else ([], true)
  else if pr_type =? GNU_PROPERTY_NO_COPY_ON_PROTECTED then ([], true)
  else if (GNU_PROPERTY_LOPROC <=? pr_type) && (pr_type <=? GNU_PROPERTY_HIPROC)
          && ((e_machine E =? EM_386) || (e_machine E =? EM_X86_64)) then
    if pr_type =? GNU_PROPERTY_X86_FEATURE_1_AND
    then feature_read E pr_datasz pos
    else ([], true)
  else if (GNU_PROPERTY_LOPROC <=? pr_type) && (pr_type <=? GNU_PROPERTY_HIPROC)
          && (e_machine E =? EM_AARCH64) then
    if pr_type =? GNU_PROPERTY_AARCH64_FEATURE_1_AND
    then feature_read E pr_datasz pos
    else ([], true)
  else ([], true).

(** The loop [while (descsz >= 8)] of the case [NT_GNU_PROPERTY_TYPE_0]
    in [elf_object_note], one turn per unit of fuel: [pos] is how far
    [desc] has moved, [descsz] what the variable of that name holds,
    [reads] the conversions asked for so far.  [None] when the fuel
    runs out. *)
Fixpoint property_loop (fuel : nat) (E : elf_env) (desc : list Z)
  (pos descsz : Z) (reads : list (Z * Z))
  : option (ending * list (Z * Z)) :=
  match fuel with
  | O => None
  | S fuel =>
    if descsz <? 8 then Some (LoopDone, reads)
    else
      let reads := reads ++ [(pos, 8)] in
      if negb (xlate_ok E pos 8) then Some (Returned, reads)
      else
        let pr_type := u32 (to_word E (bytes_at desc pos 4)) in
        let pr_datasz := u32 (to_word E (bytes_at desc (pos + 4) 4)) in
        let pos := pos + 8 in
        let descsz := u32 (descsz - 8) in
        if pr_datasz >? descsz then Some (Returned, reads)
        else
          let (asked, goes_on) := property_reads E pr_type pr_datasz pos in
          let reads := reads ++ asked in
          if negb goes_on then Some (Returned, reads)
          else
            let pr_datasz :=
              match gelf_getclass E with
              | ELFCLASS32 => u32 (NOTE_ALIGN4 pr_datasz)
              | ELFCLASS64 => u32 (NOTE_ALIGN8 pr_datasz)
              end in
            let pos := pos + pr_datasz in
            let descsz := if descsz >? pr_datasz
                          then u32 (descsz - pr_datasz) else 0 in
            property_loop fuel E desc pos descsz reads
  end.

(** The case [NT_GNU_PROPERTY_TYPE_0]: the loop runs when the name of
    the note is [GNU] and the descriptor is not empty. *)
Definition gnu_property_note (fuel : nat) (E : elf_env) (name_is_GNU : bool)
  (desc : list Z) (descsz : Z) : option (ending * list (Z * Z)) :=
  if name_is_GNU && (descsz >? 0)
  then property_loop fuel E desc 0 descsz []
  else Some (LoopDone, []).

(** The conversion stays inside a descriptor of [total] bytes. *)
Definition inside (total : Z) (rd : Z * Z) : Prop :=
  0 <= fst rd /\ 0 <= snd rd /\ fst rd + snd rd <= total.

(** A little-endian file for x86-64 in which every conversion
    succeeds, and a descriptor with the property
    [GNU_PROPERTY_X86_FEATURE_1_AND] of four bytes, padded to eight. *)
Definition le_word (b : list Z) : Z :=
  nth 0 b 0 + 256 * (nth 1 b 0 + 256 * (nth 2 b 0 + 256 * nth 3 b 0)).

Definition x86_env : elf_env := mkElfEnv ELFCLASS64 EM_X86_64 (fun _ _ => true) le_word.

Definition feature_desc : list Z :=
  [0x02; 0x00; 0x00; 0xc0; 0x04; 0x00; 0x00; 0x00;
   0x03; 0x00; 0x00; 0x00; 0x00; 0x00; 0x00; 0x00].

End Property.

(** ** Notes of a core file ([NT_SIGINFO], [NT_FILE]) and the ABI tag *)

Module CoreNote.
Import Word Property.

(** What libelf hands out for one note of a core file: whether
    [elf_getdata_rawchunk] returned a chunk, the address [d_buf] of
    its bytes (0 is NULL), whether [elf32_xlatetom]/[elf64_xlatetom]
    converts the [size] bytes at an address, and the values that four
    bytes ([ELF_T_WORD]) and [size] bytes ([ELF_T_ADDR]) stand for in
    the byte order of the file.  [stack_int] is what a local holds
    that nothing has been stored in.  The [CORE_] constants come from a
    header that is not under src/. *)
Record core := mkCore {
  core_class : elf_class;
  has_chunk : bool;
  d_buf : Z;
  chunk : list Z;
  xlate : Z -> Z -> bool;
  word_of : list Z -> Z;
  addr_of : list Z -> Z;
  stack_int : Z;
  CORE_SIGILL : Z;
  CORE_SIGFPE : Z;
  CORE_SIGSEGV : Z;
  CORE_SIGBUS : Z;
  CORE_SI_USER : Z
}.

Definition d_size (K : core) : Z := Z.of_nat (length (chunk K)).

(** [gelf_fsize(core, ELF_T_ADDR, 1, EV_CURRENT)]. *)
Definition addr_fsize (K : core) : Z :=
  match core_class K with ELFCLASS32 => 4 | ELFCLASS64 => 8 end.

(** The [n] bytes of the chunk at the address [ptr]. *)
Definition bytes_of (K : core) (ptr n : Z) : list Z :=
  take (Z.to_nat n) (drop (Z.to_nat (ptr - d_buf K)) (chunk K)).

(** The reads made so far: the address and the number of bytes of
    each. *)
Definition reads := list (Z * Z).

Definition buf_has_data (ptr end_ sz : Z) : bool :=
  (ptr <? end_) && (u64 (end_ - ptr) >=? sz).

(** [convert] with a [size] that is not 0: the pointer behind the
    bytes converted, or NULL when libelf refuses. *)
Definition convert (K : core) (data size : Z) : Z :=
  if xlate K data size then data + size else 0.

(** [buf_read_int]: the result, what [*retp] and [*ptrp] hold
    afterwards, and the reads; [retp0] is what [*retp] held before. *)
Definition buf_read_int (K : core) (ptr end_ retp0 : Z) (rd : reads)
  : bool * Z * Z * reads :=
  if negb (buf_has_data ptr end_ 4) then (false, retp0, ptr, rd)
  else
    (true,
     (if xlate K ptr 4 then to_int (word_of K (bytes_of K ptr 4)) else retp0),
     convert K ptr 4,
     rd ++ [(ptr, 4)]).

(** [buf_read_ulong]. *)
Definition buf_read_ulong (K : core) (ptr end_ retp0 : Z) (rd : reads)
  : bool * Z * Z * reads :=
  let sz := addr_fsize K in
  if negb (buf_has_data ptr end_ sz) then (false, retp0, ptr, rd)
  else
    let u := if xlate K ptr sz then addr_of K (bytes_of K ptr sz)
             else stack_int K in
    (true, (if sz =? 4 then u32 u else u64 u), convert K ptr sz,
     rd ++ [(ptr, sz)]).

(** How a handler ends: [elf_getdata_rawchunk] gave nothing and the
    handler returns; the label [fail]; the end of the function; or a
    read through the NULL [data]. *)
Inductive note_end := NoChunk | NotEnough | Handled | NullData.

(** [handle_siginfo_note]. *)
Definition handle_siginfo_note (K : core) : note_end * reads :=
  if negb (has_chunk K) then (NoChunk, [])
  else
    let ptr := d_buf K in
    let end_ := d_buf K + d_size K in
    let '(ok, si_signo, ptr, rd) := buf_read_int K ptr end_ (stack_int K) [] in
    if negb ok then (NotEnough, rd) else
    let '(ok, si_errno, ptr, rd) := buf_read_int K ptr end_ (stack_int K) rd in
    if negb ok then (NotEnough, rd) else
    let '(ok, si_code, ptr, rd) := buf_read_int K ptr end_ (stack_int K) rd in
    if negb ok then (NotEnough, rd) else
    let ptr := match core_class K with
               | ELFCLASS64 => ptr + 4
               | ELFCLASS32 => ptr
               end in
    if si_code >? 0 then
      if (si_signo =? CORE_SIGILL K) || (si_signo =? CORE_SIGFPE K)
         || (si_signo =? CORE_SIGSEGV K) || (si_signo =? CORE_SIGBUS K)
      then
        let '(ok, addr, ptr, rd) :=
          buf_read_ulong K ptr end_ (stack_int K) rd in
        if negb ok then (NotEnough, rd) else (Handled, rd)
      else (Handled, rd)
    else if si_code =? CORE_SI_USER K then
      let '(ok, pid, ptr, rd) := buf_read_int K ptr end_ (stack_int K) rd in
      if negb ok then (NotEnough, rd) else
      let '(ok, uid, ptr, rd) := buf_read_int K ptr end_ (stack_int K) rd in
      if negb ok then (NotEnough, rd) else (Handled, rd)
    else (Handled, rd).

(** [memchr(fptr, '\0', len)]: how far behind [fptr] the first zero
    byte lies. *)
Fixpoint index_of_zero (l : list Z) (i : Z) : option Z :=
  match l with
  | [] => None
  | b :: rest => if b =? 0 then Some i else index_of_zero rest (i + 1)
  end.

Definition memchr (K : core) (fptr len : Z) : option Z :=
  index_of_zero (bytes_of K fptr len) 0.

(** The loop [for (i = 0; i < count; ++i)] of [handle_file_note], [n]
    turns of it being left. *)
Fixpoint file_loop (n : nat) (K : core) (ptr fstart fptr end_ : Z)
  (rd : reads) : note_end * reads :=
  match n with
  | O => (Handled, rd)
  | S n =>
    let '(ok, mstart, ptr, rd) :=
      buf_read_ulong K ptr fstart (stack_int K) rd in
    if negb ok then (NotEnough, rd) else
    let '(ok, mend, ptr, rd) :=
      buf_read_ulong K ptr fstart (stack_int K) rd in
    if negb ok then (NotEnough, rd) else
    let '(ok, moffset, ptr, rd) :=
      buf_read_ulong K ptr fstart (stack_int K) rd in
    if negb ok then (NotEnough, rd) else
    let len := u64 (end_ - fptr) in
    match memchr K fptr len with
    | None => (NotEnough, rd ++ [(fptr, len)])
    | Some k =>
      file_loop n K ptr fstart (fptr + k + 1) end_ (rd ++ [(fptr, k + 1)])
    end
  end.

(** [handle_file_note]; it goes on after [elf_getdata_rawchunk] has
    returned NULL. *)
Definition handle_file_note (K : core) : note_end * reads :=
  if negb (has_chunk K) then (NullData, [])
  else
    let ptr := d_buf K in
    let end_ := d_buf K + d_size K in
    let '(ok, count, ptr, rd) :=
      buf_read_ulong K ptr end_ (stack_int K) [] in
    if negb ok then (NotEnough, rd) else
    let '(ok, page_size, ptr, rd) :=
      buf_read_ulong K ptr end_ (stack_int K) rd in
    if negb ok then (NotEnough, rd) else
    let addrsize := addr_fsize K in
    let maxcount := u64 (end_ - ptr) / (3 * addrsize) in
    if count >? maxcount then (NotEnough, rd)
    else
      let fstart := ptr + u64 (3 * count * addrsize) in
      file_loop (Z.to_nat count) K ptr fstart fstart end_ rd.

(** The read stays inside the chunk. *)
Definition in_chunk (K : core) (r : Z * Z) : Prop :=
  d_buf K <= fst r /\ 0 <= snd r /\ fst r + snd r <= d_buf K + d_size K.

(** The case [NT_GNU_ABI_TAG] of [elf_object_note]: the guard fails
    and the case falls through to [default]; [malloc] fails; or the
    descriptor is converted, [written] bytes going into a buffer of
    [room] bytes ([sbuf], of [FIXED_TAG_BYTES] words of four bytes, or
    the allocation). *)
Inductive abi_tag_end :=
| FallsThrough
| NoMemory
| Converted (room written : Z).

Definition FIXED_TAG_BYTES : Z := 16.

Definition gnu_abi_tag (descsz : Z) (malloc_ok : bool) : abi_tag_end :=
  if (descsz >=? 8) && (descsz mod 4 =? 0) then
    if descsz / 4 >? FIXED_TAG_BYTES then
      if malloc_ok then Converted descsz descsz else NoMemory
    else Converted (4 * FIXED_TAG_BYTES) descsz
  else FallsThrough.

(** A little-endian 64-bit core file whose [NT_FILE] note lists one
    mapping, of the file [a]: count 1, page size 4096, the three
    addresses of the mapping, and the name. *)
Definition le_bytes (b : list Z) : Z :=
  fold_right (fun x acc => x + 256 * acc) 0 b.

Definition one_file_chunk : list Z :=
  [1; 0; 0; 0; 0; 0; 0; 0] ++ [0; 0x10; 0; 0; 0; 0; 0; 0]
  ++ [0; 0; 0x40; 0; 0; 0; 0; 0] ++ [0; 0x10; 0x40; 0; 0; 0; 0; 0]
  ++ [0; 0; 0; 0; 0; 0; 0; 0] ++ [97; 0].

Definition one_file_core : core :=
  mkCore ELFCLASS64 true 0x1000 one_file_chunk (fun _ _ => true)
         le_bytes le_bytes 0 4 8 11 7 0.

(** The [NT_SIGINFO] note of a SIGSEGV (signal 11, code 1) at the
    address 0x10. *)
Definition segv_chunk : list Z :=
  [11; 0; 0; 0] ++ [0; 0; 0; 0] ++ [1; 0; 0; 0] ++ [0; 0; 0; 0]
  ++ [0x10; 0; 0; 0; 0; 0; 0; 0].

Definition segv_core : core :=
  mkCore ELFCLASS64 true 0x1000 segv_chunk (fun _ _ => true)
         le_bytes le_bytes 0 4 8 11 7 0.

End CoreNote.

(** * Properties *)

Module WordFacts.
Import Word.

Lemma u64_range x : 0 <= u64 x < 2 ^ 64.
Proof. unfold u64. apply Z.mod_pos_bound. lia. Qed.

Lemma u64_id x : 0 <= x < 2 ^ 64 -> u64 x = x.
Proof. intros H. unfold u64. now apply Z.mod_small. Qed.

Lemma sub64_nowrap a b : 0 <= b <= a -> a < 2 ^ 64 -> sub64 a b = a - b.
Proof. intros H1 H2. unfold sub64. apply u64_id. lia. Qed.


End WordFacts.

Module VmaFacts.
Import Word Vma.

Lemma cmp_cases vma new :
  (__vma_rb_cmp vma new = -1 /\ end_ new <= start vma) \/
  (__vma_rb_cmp vma new = 0 /\ start vma < end_ new /\ start new < end_ vma) \/
  (__vma_rb_cmp vma new = 1 /\ end_ vma <= start new).
Proof.
  unfold __vma_rb_cmp.
  destruct (Z.leb_spec (end_ new) (start vma)); [left; auto|].
  destruct (Z.ltb_spec (start vma) (end_ new)); [|lia].
  destruct (Z.gtb_spec (end_ vma) (start new)); simpl.
  - right; left. repeat split; lia.
  - right; right. destruct (Z.leb_spec (end_ vma) (start new)); [auto|lia].
Qed.

(** The first node of the tree after an insertion is the new node or
    the old first node. *)
Lemma rb_insert_head rb new :
  exists h t, rb_insert_node rb new = h :: t /\
              (h = new \/ exists t', rb = h :: t').
Proof.
  destruct rb as [|v rest]; simpl.
  - exists new, []. auto.
  - destruct (cmp_cases v new) as [[-> _]|[[-> _]|[-> _]]]; simpl.
    + exists new, (v :: rest). auto.
    + exists v, rest. eauto.
    + exists v, (rb_insert_node rest new). eauto.
Qed.

Lemma rb_insert_range rb new :
  Forall vma_range_ok rb -> vma_range_ok new ->
  Forall vma_range_ok (rb_insert_node rb new).
Proof.
  induction rb as [|v rest IH]; intros Hrb Hnew; cbn [rb_insert_node].
  - constructor; [assumption|constructor].
  - inversion Hrb; subst.
    destruct (cmp_cases v new) as [[-> _]|[[-> _]|[-> _]]]; cbn.
    + constructor; assumption.
    + assumption.
    + constructor; auto.
Qed.

Lemma ascending_tail v rest : ascending (v :: rest) -> ascending rest.
Proof. destruct rest; [intros; exact I|]. intros (_ & _ & H). exact H. Qed.

Lemma rb_insert_ascending rb new :
  Forall vma_range_ok rb -> vma_range_ok new ->
  ascending rb -> ascending (rb_insert_node rb new).
Proof.
  unfold vma_range_ok.
  induction rb as [|v rest IH]; intros Hrb Hnew Hasc; [exact I|].
  inversion Hrb as [|? ? Hv Hrest]; subst.
  cbn [rb_insert_node].
  destruct (cmp_cases v new) as [[-> Hc]|[[-> Hc]|[-> Hc]]]; cbn -[ascending].
  - split; [lia|]. split; assumption.
  - assumption.
  - specialize (IH Hrest Hnew (ascending_tail _ _ Hasc)).
    destruct (rb_insert_head rest new) as (h & t & Heq & Hh).
    rewrite Heq in *.
    destruct Hh as [->|[t' ->]].
    + split; [lia|]. split; assumption.
    + destruct Hasc as (H1 & H2 & _). split; [exact H1|]. split; assumption.
Qed.

(** The tree of pointers holds the VMAs the tree of values holds. *)
Lemma rb_insert_ptr_deref a rb new :
  map (deref a) (rb_insert_ptr a rb new)
  = rb_insert_node (map (deref a) rb) (deref a new).
Proof.
  induction rb as [|n rest IH]; cbn [rb_insert_ptr rb_insert_node map];
    [reflexivity|].
  destruct (cmp_cases (deref a n) (deref a new)) as [[-> _]|[[-> _]|[-> _]]];
    cbn; [reflexivity|reflexivity|now rewrite IH].
Qed.

Lemma span_area_found pre a b post size :
  no_gap (pre ++ [a]) size -> size <= gap a b ->
  span_scan (pre ++ a :: b :: post) size = end_ a.
Proof.
  unfold gap. induction pre as [|p pre IH]; intros Hno Hgap.
  - simpl. destruct (Z.geb_spec (sub64 (start b) (end_ a)) size); [reflexivity|lia].
  - change ((p :: pre) ++ a :: b :: post) with (p :: (pre ++ a :: b :: post)).
    change ((p :: pre) ++ [a]) with (p :: (pre ++ [a])) in Hno.
    cbn [span_scan].
    destruct pre as [|q pre].
    + simpl in *. destruct Hno as [Hlt _]. unfold gap in Hlt.
      destruct (Z.geb_spec (sub64 (start a) (end_ p)) size); [lia|].
      destruct (Z.geb_spec (sub64 (start b) (end_ a)) size); [reflexivity|lia].
    + change ((q :: pre) ++ a :: b :: post) with (q :: (pre ++ a :: b :: post)) in *.
      change ((q :: pre) ++ [a]) with (q :: (pre ++ [a])) in *.
      destruct Hno as [Hlt Hno]. unfold gap in Hlt.
      destruct (Z.geb_spec (sub64 (start q) (end_ p)) size); [lia|].
      apply IH; assumption.
Qed.

Lemma span_area_none rb size :
  no_gap rb size -> span_scan rb size = 0.
Proof.
  induction rb as [|a rest IH]; intros Hno; [reflexivity|].
  cbn [span_scan]. destruct rest as [|b rest]; [reflexivity|].
  destruct Hno as [Hlt Hno]. unfold gap in Hlt.
  destruct (Z.geb_spec (sub64 (start b) (end_ a)) size); [lia|].
  now apply IH.
Qed.

(** *** Arena bookkeeping *)

Lemma deref_app_l a l i : (i < length a)%nat -> deref (a ++ l) i = deref a i.
Proof. intros H. unfold deref. now rewrite lookup_app_l. Qed.

Lemma deref_app_new a v : deref (a ++ [v]) (length a) = v.
Proof. unfold deref. now rewrite list_lookup_middle. Qed.

Lemma deref_insert_eq a i x : (i < length a)%nat -> deref (<[i:=x]> a) i = x.
Proof. intros H. unfold deref. now rewrite list_lookup_insert_eq. Qed.

Lemma deref_insert_ne a i j x : i <> j -> deref (<[i:=x]> a) j = deref a j.
Proof. intros H. unfold deref. now rewrite list_lookup_insert_ne. Qed.

Lemma deref_ge a i : (length a <= i)%nat -> deref a i = vma_zero.
Proof. intros H. unfold deref. now rewrite lookup_ge_None_2. Qed.

Lemma run_leader_le a i : (run_leader a i <= i)%nat.
Proof.
  induction i as [|j IH]; simpl; [lia|].
  destruct (String.eqb _ _); lia.
Qed.

Lemma run_leader_ext a a' i :
  (forall j, (j <= i)%nat -> name_ (deref a' j) = name_ (deref a j)) ->
  run_leader a' i = run_leader a i.
Proof.
  induction i as [|j IH]; intros H; simpl; [reflexivity|].
  rewrite (H j), (H (S j)) by lia.
  rewrite IH; [reflexivity|]. intros k Hk. apply H. lia.
Qed.

Lemma run_leader_is_run_leader a i : is_run_leader a i (run_leader a i).
Proof.
  induction i as [|j IH].
  - simpl. split; [lia|]. split; [|now left].
    intros k Hk. replace k with O by lia. reflexivity.
  - simpl. destruct (String.eqb_spec (name_ (deref a j)) (name_ (deref a (S j))))
      as [Heq|Hne].
    + destruct IH as (Hle & Hall & Hprev). split; [lia|]. split; [|exact Hprev].
      intros k Hk. destruct (Nat.eq_dec k (S j)) as [->|Hk']; [reflexivity|].
      rewrite <- Heq. apply Hall. lia.
    + split; [lia|]. split.
      * intros k Hk. replace k with (S j) by lia. reflexivity.
      * right. replace (S j - 1)%nat with j by lia. exact Hne.
Qed.

(** With the lines of every file next to each other, no earlier VMA
    carries the pathname of the block. *)
Lemma run_leader_first a i j :
  files_adjacent a -> (j < run_leader a i)%nat ->
  name_ (deref a j) <> name_ (deref a i).
Proof.
  intros Hadj Hj Heq.
  destruct (run_leader_is_run_leader a i) as (Hle & Hall & Hprev).
  destruct Hprev as [H0|Hne]; [lia|]. apply Hne.
  rewrite (Hall (run_leader a i)) by lia.
  apply (Hadj j); [lia|exact Heq].
Qed.

(** *** Leaders after [read_task_vmas] *)

Lemma read_one_line_arena t prev ln :
  arena (fst (read_one_line t prev ln)) =
  link_leader (arena t ++ [new_vma (exe t) (length (arena t)) ln])
              (length (arena t)) prev.
Proof. reflexivity. Qed.

Lemma link_leader_step a prev v :
  let n := length a in
  prev = match n with O => None | S m => Some m end ->
  (forall i, (i < n)%nat -> leader (deref a i) = Some (run_leader a i)) ->
  leader v = Some n -> siblings v = [] ->
  let a' := link_leader (a ++ [v]) n prev in
  length a' = S n /\
  (forall i, (i < n)%nat -> name_ (deref a' i) = name_ (deref a i)) /\
  name_ (deref a' n) = name_ v /\
  (forall i, (i < n)%nat -> leader (deref a' i) = leader (deref a i)) /\
  leader (deref a' n) = Some (run_leader a' n) /\
  (forall ld, siblings (deref a' ld) =
     if Nat.eqb ld (run_leader a' n) && negb (Nat.eqb ld n)
     then siblings (deref a ld) ++ [n] else siblings (deref a ld)).
Proof.
  intros n Hprev Hlead Hv Hs a'.
  assert (Hnew : deref (a ++ [v]) n = v) by apply deref_app_new.
  assert (Hold : forall i, (i < n)%nat -> deref (a ++ [v]) i = deref a i).
  { intros i Hi. now apply deref_app_l. }
  assert (Hlen : length (a ++ [v]) = S n).
  { rewrite length_app. simpl. lia. }
  assert (Hzero : siblings (deref a n) = []).
  { rewrite deref_ge; [reflexivity|lia]. }
  unfold link_leader in a'.
  destruct n as [|m] eqn:En; subst prev.
  - (* first line *)
    subst a'. rewrite Hlen. split; [reflexivity|]. split; [intros; lia|].
    rewrite Hnew. split; [reflexivity|]. split; [intros; lia|].
    split; [exact Hv|]. intros ld. simpl.
    destruct (Nat.eqb_spec ld 0); simpl.
    + subst. rewrite Hnew, Hs, Hzero. reflexivity.
    + rewrite !deref_ge; [reflexivity| lia | rewrite Hlen; lia].
  - set (ld := run_leader a m).
    assert (Hld : (ld <= m)%nat) by apply run_leader_le.
    assert (Ha' : a' =
      if String.eqb (name_ (deref a m)) (name_ v)
      then <[ld := set_siblings (deref a ld) (siblings (deref a ld) ++ [S m])]>
             (<[S m := set_leader v (Some ld)]> (a ++ [v]))
      else a ++ [v]).
    { subst a'. rewrite Hnew, (Hold m), (Hlead m) by lia. fold ld.
      destruct (String.eqb _ _); [|reflexivity].
      rewrite deref_insert_ne by lia. rewrite (Hold ld) by lia. reflexivity. }
    clearbody a'. subst a'.
    assert (Hrl : forall b, (forall j, (j <= m)%nat -> name_ (deref b j) = name_ (deref a j)) ->
                  name_ (deref b (S m)) = name_ v ->
                  run_leader b (S m) =
                  if String.eqb (name_ (deref a m)) (name_ v) then ld else S m).
    { intros b Hb Hbn. simpl. rewrite (Hb m), Hbn by lia.
      destruct (String.eqb _ _); [|reflexivity]. now apply run_leader_ext. }
    destruct (String.eqb (name_ (deref a m)) (name_ v)) eqn:Enm.
    + set (a1 := <[S m := set_leader v (Some ld)]> (a ++ [v])).
      assert (Hlen1 : length a1 = S (S m)).
      { unfold a1. now rewrite length_insert. }
      assert (H1new : deref a1 (S m) = set_leader v (Some ld)).
      { unfold a1. apply deref_insert_eq. lia. }
      assert (H1old : forall i, (i < S m)%nat -> deref a1 i = deref a i).
      { intros i Hi. unfold a1. rewrite deref_insert_ne by lia. now apply Hold. }
      set (a2 := <[ld := _]> a1).
      assert (H2 : forall i, deref a2 i =
                 if Nat.eqb i ld
                 then set_siblings (deref a ld) (siblings (deref a ld) ++ [S m])
                 else deref a1 i).
      { intros i. unfold a2. destruct (Nat.eqb_spec i ld) as [->|Hne].
        - apply deref_insert_eq. lia.
        - apply deref_insert_ne. lia. }
      assert (Hnames : forall j, (j <= m)%nat -> name_ (deref a2 j) = name_ (deref a j)).
      { intros j Hj. rewrite H2. destruct (Nat.eqb_spec j ld) as [->|Hne];
          [reflexivity|]. rewrite H1old by lia. reflexivity. }
      assert (Hname_new : name_ (deref a2 (S m)) = name_ v).
      { rewrite H2. destruct (Nat.eqb_spec (S m) ld); [lia|]. now rewrite H1new. }
      rewrite (Hrl a2 Hnames Hname_new).
      split; [unfold a2; now rewrite length_insert|].
      split; [intros i Hi; apply Hnames; lia|].
      split; [exact Hname_new|].
      split.
      { intros i Hi. rewrite H2. destruct (Nat.eqb_spec i ld) as [->|Hne];
          [reflexivity|]. now rewrite H1old. }
      split.
      { rewrite H2. destruct (Nat.eqb_spec (S m) ld); [lia|]. now rewrite H1new. }
      intros l. rewrite H2.
      destruct (Nat.eqb_spec l ld) as [->|Hne]; simpl.
      * destruct (Nat.eqb_spec ld (S m)); [lia|]. reflexivity.
      * destruct (Nat.eqb_spec l (S m)) as [->|Hne'].
        -- rewrite H1new. simpl. now rewrite Hs, Hzero.
        -- destruct (Nat.lt_ge_cases l (S m)).
           ++ now rewrite H1old.
           ++ rewrite !deref_ge; [reflexivity|lia|lia].
    + assert (Hnames : forall j, (j <= m)%nat ->
                name_ (deref (a ++ [v]) j) = name_ (deref a j)).
      { intros j Hj. now rewrite Hold by lia. }
      rewrite (Hrl (a ++ [v]) Hnames) by now rewrite Hnew.
      split; [exact Hlen|].
      split; [intros i Hi; apply Hnames; lia|].
      split; [now rewrite Hnew|].
      split; [intros i Hi; now rewrite Hold|].
      split; [now rewrite Hnew|].
      intros l. destruct (Nat.eqb_spec l (S m)) as [->|Hne]; simpl.
      * rewrite Hnew, Hs, Hzero. reflexivity.
      * destruct (Nat.lt_ge_cases l (S m)).
        -- now rewrite Hold.
        -- rewrite !deref_ge; [reflexivity|lia|lia].
Qed.

Lemma leaders_inv_fresh t : arena t = [] -> leaders_inv t None.
Proof.
  intros Ha. unfold leaders_inv. rewrite Ha. simpl.
  split; [reflexivity|]. split; [intros; lia|].
  intros ld i. split; [intros []|lia].
Qed.

Lemma read_one_line_inv t prev ln :
  leaders_inv t prev ->
  let a := arena t in
  let a' := arena (fst (read_one_line t prev ln)) in
  leaders_inv (fst (read_one_line t prev ln)) (snd (read_one_line t prev ln)) /\
  length a' = S (length a) /\
  (forall i, (i < length a)%nat -> name_ (deref a' i) = name_ (deref a i)) /\
  name_ (deref a' (length a)) = l_name ln.
Proof.
  intros (Hprev & Hlead & Hsib) a a'. fold a in Hprev, Hlead, Hsib.
  destruct (link_leader_step a prev (new_vma (exe t) (length a) ln)
              Hprev Hlead eq_refl eq_refl)
    as (Hlen & Hnm & Hnew & Hld & Hldn & Hsb).
  change (link_leader _ _ _) with a' in Hlen, Hnm, Hnew, Hld, Hldn, Hsb.
  change (name_ (new_vma _ _ _)) with (l_name ln) in Hnew.
  assert (Hrl : forall i, (i < length a)%nat -> run_leader a' i = run_leader a i).
  { intros i Hi. apply run_leader_ext. intros j Hj. apply Hnm. lia. }
  split; [|repeat split; assumption].
  unfold leaders_inv. change (arena (fst (read_one_line t prev ln))) with a'.
  rewrite Hlen. split; [reflexivity|]. split.
  - intros i Hi. destruct (Nat.eq_dec i (length a)) as [->|Hne]; [exact Hldn|].
    rewrite Hld, Hrl by lia. apply Hlead. lia.
  - intros ld i. rewrite Hsb.
    destruct (Nat.eqb_spec ld (run_leader a' (length a))) as [Heq|Hneq];
      [destruct (Nat.eqb_spec ld (length a)) as [Heq'|Hneq']|]; simpl.
    + rewrite (Hsib ld i). split.
      * intros (Hi & Hne & Hr). rewrite Hrl by lia. repeat split; [lia|..]; assumption.
      * intros (Hi & Hne & Hr). assert (i < length a)%nat by lia.
        rewrite Hrl in Hr by lia. auto.
    + rewrite in_app_iff, (Hsib ld i). cbn [In]. split.
      * intros [(Hi & Hne & Hr)|[<-|[]]].
        -- rewrite Hrl by lia. repeat split; [lia|..]; assumption.
        -- repeat split; [lia|congruence|congruence].
      * intros (Hi & Hne & Hr).
        destruct (Nat.eq_dec i (length a)) as [->|Hne2];
          [right; now left|left].
        rewrite Hrl in Hr by lia. repeat split; [lia|..]; assumption.
    + rewrite (Hsib ld i). split.
      * intros (Hi & Hne & Hr). rewrite Hrl by lia. repeat split; [lia|..]; assumption.
      * intros (Hi & Hne & Hr).
        destruct (Nat.eq_dec i (length a)) as [->|Hne2]; [congruence|].
        rewrite Hrl in Hr by lia. repeat split; [lia|..]; assumption.
Qed.

Lemma read_lines_inv lines : forall t prev,
  leaders_inv t prev ->
  let r := read_lines t prev (map Some lines) in
  let a := arena t in
  let a' := arena (snd r) in
  fst r = 0 /\
  (exists prev', leaders_inv (snd r) prev') /\
  length a' = (length a + length lines)%nat /\
  (forall i, (i < length a)%nat -> name_ (deref a' i) = name_ (deref a i)) /\
  (forall k ln, lines !! k = Some ln ->
                name_ (deref a' (length a + k)) = l_name ln).
Proof.
  induction lines as [|ln lines IH]; intros t prev Hinv.
  - simpl. split; [reflexivity|]. split; [eauto|]. split; [lia|].
    split; [auto|]. intros k ln Hk. discriminate.
  - cbn [map read_lines].
    destruct (read_one_line_inv t prev ln Hinv) as (Hinv' & Hlen & Hnm & Hnew).
    destruct (read_one_line t prev ln) as [t1 prev1] eqn:E1. cbn [fst snd] in *.
    destruct (IH t1 prev1 Hinv') as (Hr & Hex & Hlen' & Hnm' & Hnew').
    split; [exact Hr|]. split; [exact Hex|].
    split; [rewrite Hlen', Hlen; simpl; lia|]. split.
    + intros i Hi. rewrite Hnm' by lia. now apply Hnm.
    + intros k l Hk. destruct k as [|k]; simpl in Hk.
      * injection Hk as <-. rewrite Nat.add_0_r. rewrite Hnm' by lia. exact Hnew.
      * replace (length (arena t) + S k)%nat with (length (arena t1) + k)%nat by lia.
        now apply Hnew'.
Qed.

Lemma head_filter_seq (P : nat -> Prop) `{forall j, Decision (P j)} n k s :
  (s <= k < s + n)%nat -> P k -> (forall j, (s <= j < k)%nat -> ~ P j) ->
  head (filter P (seq s n)) = Some k.
Proof.
  revert s. induction n as [|n IH]; intros s Hk HP Hnot; [lia|].
  cbn [seq]. rewrite filter_cons.
  destruct (decide (P s)) as [Hs|Hs].
  - destruct (Nat.eq_dec s k) as [->|Hne]; [reflexivity|].
    exfalso. apply (Hnot s); [lia|exact Hs].
  - apply IH; [|exact HP|intros j Hj; apply Hnot; lia].
    destruct (Nat.eq_dec s k) as [->|Hne]; [contradiction|lia].
Qed.

(** C7, as stated: a file mapped on both sides of another file.  The
    third VMA stays its own leader although the first VMA carries the
    same pathname. *)
Lemma leaders_by_pathname_fails :
  ~ leaders_by_pathname
      (snd (read_task_vmas (fresh_task 1234 "/usr/bin/app") false
              (Some [Some line_a1; Some line_b; Some line_a2]))).
Proof.
  intros H. destruct (H 2%nat) as [Hl _]; [vm_compute; lia|].
  vm_compute in Hl. discriminate.
Qed.

(** C7, amended.  After [read_task_vmas] has read a listing, every VMA's
    leader is the first VMA of the block of neighbouring lines that carry
    its pathname, and a VMA that is not its own leader is linked in the
    sibling list of its leader; when the lines of every file stand next
    to each other the leader is the first VMA with that pathname. *)
Theorem read_task_vmas_leaders (t0 : task) (update : bool)
  (lines : list maps_line)
  (Hfresh : update = false -> arena t0 = []) :
  let r := read_task_vmas t0 update (Some (map Some lines)) in
  let a := arena (snd r) in
  fst r = 0 /\ length a = length lines /\
  forall i ln, lines !! i = Some ln ->
    name_ (deref a i) = l_name ln /\
    exists ld,
      leader (deref a i) = Some ld /\ is_run_leader a i ld /\
      (ld <> i -> In i (siblings (deref a ld))) /\
      (files_adjacent a -> first_same_name a i = ld).
Proof.
  intros r a.
  set (t1 := if update then free_task_vmas t0 else t0).
  assert (Ht1 : arena t1 = []).
  { unfold t1. destruct update; [reflexivity|now apply Hfresh]. }
  destruct (read_lines_inv lines t1 None (leaders_inv_fresh t1 Ht1))
    as (Hr & (prev' & Hprev & Hlead & Hsib) & Hlen & _ & Hnm).
  change (read_lines t1 None (map Some lines)) with r in Hr, Hlead, Hsib, Hlen, Hnm.
  fold a in Hlead, Hsib, Hlen, Hnm. rewrite Ht1 in Hlen, Hnm. simpl in Hlen, Hnm.
  split; [exact Hr|]. split; [exact Hlen|].
  intros i ln Hi. split; [now apply Hnm|].
  assert (Hlt : (i < length a)%nat).
  { rewrite Hlen. eapply lookup_lt_Some. exact Hi. }
  exists (run_leader a i).
  split; [now apply Hlead|]. split; [apply run_leader_is_run_leader|]. split.
  - intros Hne. apply Hsib. auto.
  - intros Hadj. unfold first_same_name.
    destruct (run_leader_is_run_leader a i) as (Hle & Hall & _).
    rewrite (head_filter_seq _ (length a) (run_leader a i) 0%nat); [reflexivity|lia| |].
    + apply String.eqb_eq. apply Hall. lia.
    + intros j Hj Hjeq. apply String.eqb_eq in Hjeq.
      now apply (run_leader_first a i j Hadj).
Qed.

Lemma read_task_vmas_leaders_witness :
  let t0 := fresh_task 1234 "/usr/bin/app" in
  let lines := [line_a1; line_a2; line_b] in
  (false = false -> arena t0 = []) /\
  fst (read_task_vmas t0 false (Some (map Some lines))) = 0.
Proof.
  intros t0 lines.
  assert (H : false = false -> arena t0 = []) by reflexivity.
  split; [exact H|].
  exact (proj1 (read_task_vmas_leaders t0 false lines H)).
Defined.

(** *** [open_task]: libc and stack are required *)

Lemma read_one_line_fields t prev ln :
  let t' := fst (read_one_line t prev ln) in
  exe t' = exe t /\
  (libc_vma t' = libc_vma t \/
   libc_vma t = None /\ is_exec_libc_line (exe t) ln = true) /\
  (stack t' = stack t \/
   stack t = None /\ is_stack_line (exe t) ln = true).
Proof.
  unfold read_one_line, is_exec_libc_line, is_stack_line. cbn.
  split; [reflexivity|]. split.
  - destruct (libc_vma t); [now left|].
    destruct (_ && _); [right; auto|now left].
  - destruct (stack t); [now left|].
    destruct (vma_type_eqb _ _); [right; auto|now left].
Qed.

Lemma read_lines_fields lines : forall t prev,
  let t' := snd (read_lines t prev lines) in
  exe t' = exe t /\
  (is_Some (libc_vma t') ->
   is_Some (libc_vma t) \/
   existsb (is_exec_libc_line (exe t)) (omap id lines) = true) /\
  (is_Some (stack t') ->
   is_Some (stack t) \/
   existsb (is_stack_line (exe t)) (omap id lines) = true).
Proof.
  induction lines as [|[ln|] lines IH]; intros t prev; cbn [read_lines].
  - cbn. auto.
  - destruct (read_one_line_fields t prev ln) as (He & Hl & Hs).
    destruct (read_one_line t prev ln) as [t1 prev1]. cbn [fst snd] in *.
    destruct (IH t1 prev1) as (He' & Hl' & Hs').
    assert (Hex : forall f, existsb f (omap id (Some ln :: lines))
                            = f ln || existsb f (omap id lines)) by reflexivity.
    rewrite !Hex. rewrite He in *. split; [congruence|]. split.
    + intros H. destruct (Hl' H) as [H1|H1].
      * destruct Hl as [<-|[_ ->]]; [now left|now right].
      * right. rewrite H1. apply orb_true_r.
    + intros H. destruct (Hs' H) as [H1|H1].
      * destruct Hs as [<-|[_ ->]]; [now left|now right].
      * right. rewrite H1. apply orb_true_r.
  - cbn. auto.
Qed.

(** C6. A task that [open_task] returns has a libc VMA and a stack VMA;
    [open_task] returns NULL as soon as the maps listing has no
    executable libc line or no [[stack]] line. *)
Theorem open_task_libc_and_stack (bits : fto_bits) (env : open_env)
  (p flag : Z) (t : task)
  (Hopen : open_task bits env p flag = Some t) :
  is_Some (libc_vma t) /\ is_Some (stack t) /\
  existsb (is_exec_libc_line (exe_link env)) (parsed_lines (maps env)) = true /\
  existsb (is_stack_line (exe_link env)) (parsed_lines (maps env)) = true.
Proof.
  unfold open_task in Hopen.
  destruct (mem_fd env <=? 0); [discriminate|].
  set (t0 := mkTask p (exe_link env) flag (mem_fd env) [] [] [] None None
                    None None) in Hopen.
  assert (Hf : let t' := snd (read_task_vmas t0 false (maps env)) in
               (is_Some (libc_vma t') ->
                existsb (is_exec_libc_line (exe_link env))
                        (parsed_lines (maps env)) = true) /\
               (is_Some (stack t') ->
                existsb (is_stack_line (exe_link env))
                        (parsed_lines (maps env)) = true)).
  { unfold read_task_vmas. cbn [free_task_vmas]. destruct (maps env) as [lines|].
    - destruct (read_lines_fields lines t0 None) as (_ & Hl & Hs). cbn [parsed_lines].
      split; intros H.
      + destruct (Hl H) as [[? H1]|H1]; [discriminate|exact H1].
      + destruct (Hs H) as [[? H1]|H1]; [discriminate|exact H1].
    - cbn. split; intros [? H]; discriminate. }
  destruct (read_task_vmas t0 false (maps env)) as [r t1]. cbn [snd] in Hf.
  destruct Hf as [Hl Hs].
  destruct (libc_vma t1) as [libc|] eqn:El; [|discriminate].
  destruct (stack t1) as [stk|] eqn:Es; [|discriminate].
  repeat match type of Hopen with
         | (if ?c then _ else _) = _ => destruct c; [discriminate|]
         end.
  injection Hopen as <-. cbn [libc_vma stack].
  split; [eauto|]. split; [eauto|]. split; [apply Hl|apply Hs]; eauto.
Qed.

Lemma open_task_libc_and_stack_witness :
  exists t, open_task demo_bits demo_env 1234 4 = Some t /\
            is_Some (libc_vma t) /\ is_Some (stack t).
Proof.
  destruct (open_task demo_bits demo_env 1234 4) as [t|] eqn:E;
    [|vm_compute in E; discriminate].
  exists t. split; [reflexivity|].
  destruct (open_task_libc_and_stack demo_bits demo_env 1234 4 t E)
    as (Hl & Hs & _).
  split; assumption.
Defined.

(** *** [vma_peek_phdr] *)

Lemma same_but_voffset_refl v : same_but_voffset v v.
Proof. unfold same_but_voffset. now destruct v. Qed.

Lemma same_but_voffset_trans u v w :
  same_but_voffset u v -> same_but_voffset v w -> same_but_voffset u w.
Proof. unfold same_but_voffset. intros -> ->. reflexivity. Qed.

Lemma same_but_voffset_set v x : same_but_voffset v (set_voffset v x).
Proof. reflexivity. Qed.

Lemma memb_In i sibs : memb i sibs = true <-> In i sibs.
Proof.
  unfold memb. rewrite existsb_exists. split.
  - intros (x & Hx & He). apply Nat.eqb_eq in He. now subst.
  - intros H. exists i. split; [exact H|apply Nat.eqb_refl].
Qed.

Lemma set_voffsets_spec sibs off vaddr : forall a,
  let a' := set_voffsets a sibs off vaddr in
  length a' = length a /\
  forall i,
    same_but_voffset (deref a i) (deref a' i) /\
    voffset (deref a' i) =
      if memb i sibs && (i <? length a)%nat && (offset (deref a i) =? off)
      then vaddr else voffset (deref a i).
Proof.
  induction sibs as [|s sibs IH]; intros a; cbn [set_voffsets].
  - split; [reflexivity|]. intros i. split; [apply same_but_voffset_refl|].
    reflexivity.
  - set (a1 := if offset (deref a s) =? off
               then <[s := set_voffset (deref a s) vaddr]> a else a).
    assert (H1 : length a1 = length a /\
                 forall i, same_but_voffset (deref a i) (deref a1 i) /\
                   voffset (deref a1 i) =
                   if (i =? s)%nat && (i <? length a)%nat
                      && (offset (deref a i) =? off)
                   then vaddr else voffset (deref a i)).
    { unfold a1. destruct (Z.eqb_spec (offset (deref a s)) off) as [Heq|Hne].
      - split; [apply length_insert|]. intros i.
        destruct (Nat.eqb_spec i s) as [->|Hne]; cbn [andb].
        + destruct (Nat.ltb_spec s (length a)) as [Hlt|Hge]; cbn [andb].
          * rewrite deref_insert_eq by exact Hlt. split; [reflexivity|].
            destruct (Z.eqb_spec (offset (deref a s)) off); [reflexivity|contradiction].
          * rewrite list_insert_ge by exact Hge. split; [apply same_but_voffset_refl|].
            reflexivity.
        + rewrite deref_insert_ne by congruence. split; [apply same_but_voffset_refl|].
          reflexivity.
      - split; [reflexivity|]. intros i. split; [apply same_but_voffset_refl|].
        destruct (Nat.eqb_spec i s) as [->|Hne']; cbn [andb]; [|reflexivity].
        destruct (Z.eqb_spec (offset (deref a s)) off); [contradiction|].
        now rewrite andb_false_r. }
    destruct H1 as [Hlen1 H1]. destruct (IH a1) as [Hlen2 H2].
    split; [congruence|]. intros i.
    destruct (H1 i) as [Hs1 Hv1]. destruct (H2 i) as [Hs2 Hv2].
    split; [eapply same_but_voffset_trans; eassumption|].
    rewrite Hv2, Hv1, Hlen1.
    assert (Hoff : offset (deref a1 i) = offset (deref a i)).
    { rewrite Hs1. reflexivity. }
    rewrite Hoff. unfold memb. cbn [existsb]. fold (memb i sibs).
    destruct (i =? s)%nat, (memb i sibs), (i <? length a)%nat,
      (offset (deref a i) =? off); reflexivity.
Qed.

Lemma load_loop_spec sibs phs : forall a lowest,
  let r := load_loop a sibs phs lowest in
  length (fst r) = length a /\
  (forall i,
    same_but_voffset (deref a i) (deref (fst r) i) /\
    (In i sibs -> (i < length a)%nat ->
     voffset (deref (fst r) i) =
       voffset_after phs (offset (deref a i)) (voffset (deref a i)))) /\
  snd r <= lowest /\
  (forall h, In h phs -> is_load h = true -> snd r <= p_vaddr h) /\
  (snd r = lowest \/ In (snd r) (map p_vaddr (List.filter is_load phs))).
Proof.
  induction phs as [|h phs IH]; intros a lowest; cbn [load_loop].
  - cbn. split; [reflexivity|]. split.
    + intros i. split; [apply same_but_voffset_refl|reflexivity].
    + split; [lia|]. split; [intros ? []|now left].
  - cbn [List.filter voffset_after]. unfold load_at. fold (is_load h).
    destruct (is_load h) eqn:Eload; cbn [andb map].
    + set (low := if lowest <=? p_vaddr h then lowest else p_vaddr h).
      set (off := ALIGN_DOWN (p_vaddr h) (p_align h)).
      destruct (set_voffsets_spec sibs off (p_vaddr h) a) as [Hlen1 H1].
      destruct (IH (set_voffsets a sibs off (p_vaddr h)) low)
        as (Hlen2 & H2 & Hle & Hall & Hin).
      assert (Hlow : low <= lowest /\ low <= p_vaddr h /\
                     (low = lowest \/ low = p_vaddr h)).
      { unfold low. destruct (Z.leb_spec lowest (p_vaddr h)); lia. }
      split; [congruence|]. split; [|split; [lia|split]].
      * intros i. destruct (H1 i) as [Hs1 Hv1]. destruct (H2 i) as [Hs2 Hv2].
        split; [eapply same_but_voffset_trans; eassumption|].
        intros Hi Hlt. rewrite Hv2 by (try rewrite Hlen1; assumption).
        rewrite Hv1.
        assert (Hoff : offset (deref (set_voffsets a sibs off (p_vaddr h)) i)
                       = offset (deref a i)).
        { rewrite Hs1. reflexivity. }
        rewrite Hoff. f_equal.
        apply memb_In in Hi. apply Nat.ltb_lt in Hlt. rewrite Hi, Hlt.
        reflexivity.
      * intros h' [<-|Hh'] Hl; [lia|]. now apply Hall.
      * destruct Hin as [Hin|Hin]; [|right; now right].
        destruct Hlow as (_ & _ & [Hl|Hl]); [left; congruence|].
        right. left. congruence.
    + destruct (IH a lowest) as (Hlen2 & H2 & Hle & Hall & Hin).
      split; [assumption|]. split; [assumption|]. split; [assumption|].
      split; [|assumption].
      intros h' [<-|Hh'] Hl; [congruence|]. now apply Hall.
Qed.









(** *** [task_vma_symbol_value] *)








(** *** The tree of a task and [find_vma_span_area] *)

Lemma ascending_same_range l1 : forall l2,
  Forall2 same_range l1 l2 -> ascending l1 -> ascending l2.
Proof.
  induction l1 as [|v l1 IH]; intros l2 H2 Hasc; inversion H2 as [|? w ? l2' Hvw Hrest]; subst.
  - exact I.
  - inversion Hrest as [|v' w' ? ? Hvw' Hrest']; subst; [exact I|].
    destruct Hasc as (H1 & H3 & Hasc). destruct Hvw as [Hs He].
    destruct Hvw' as [Hs' He'].
    split; [lia|]. split; [lia|]. apply IH; assumption.
Qed.

Lemma map_same_range (f g : nat -> vma_struct) rb :
  Forall (fun i => same_range (f i) (g i)) rb ->
  Forall2 same_range (map f rb) (map g rb).
Proof.
  induction rb as [|i rb IH]; intros H; cbn; [constructor|].
  inversion H; subst. constructor; auto.
Qed.

Lemma deref_insert_same_range a j (f : vma_struct -> vma_struct) i :
  (forall v, same_range v (f v)) ->
  same_range (deref a i) (deref (<[j := f (deref a j)]> a) i).
Proof.
  intros Hf. destruct (Nat.eq_dec j i) as [->|Hne].
  - destruct (Nat.lt_ge_cases i (length a)) as [Hlt|Hge].
    + rewrite deref_insert_eq by exact Hlt. apply Hf.
    + rewrite list_insert_ge by exact Hge. split; reflexivity.
  - rewrite deref_insert_ne by exact Hne. split; reflexivity.
Qed.

Lemma same_range_trans u v w :
  same_range u v -> same_range v w -> same_range u w.
Proof. unfold same_range. intros [-> ->] [-> ->]. auto. Qed.

Lemma link_leader_range a vma prev :
  length (link_leader a vma prev) = length a /\
  forall i, same_range (deref a i) (deref (link_leader a vma prev) i).
Proof.
  unfold link_leader.
  destruct prev as [p|]; [|split; [reflexivity|split; reflexivity]].
  destruct (String.eqb _ _); [|split; [reflexivity|split; reflexivity]].
  destruct (leader (deref a p)) as [ld|]; [|split; [reflexivity|split; reflexivity]].
  split; [now rewrite !length_insert|]. intros i.
  eapply same_range_trans.
  - apply (deref_insert_same_range a vma (fun v => set_leader v (Some ld)) i).
    intros v. split; reflexivity.
  - set (a1 := <[vma := _]> a).
    apply (deref_insert_same_range a1 ld
             (fun v => set_siblings v (list_add vma (siblings (deref a1 ld)))) i).
    intros v. split; reflexivity.
Qed.

Lemma rb_insert_ptr_bound a rb new (P : nat -> Prop) :
  Forall P rb -> P new -> Forall P (rb_insert_ptr a rb new).
Proof.
  induction rb as [|n rest IH]; intros Hrb Hnew; cbn [rb_insert_ptr].
  - constructor; [assumption|constructor].
  - inversion Hrb; subst.
    destruct (cmp_cases (deref a n) (deref a new)) as [[-> _]|[[-> _]|[-> _]]]; cbn.
    + constructor; assumption.
    + assumption.
    + constructor; auto.
Qed.

Lemma read_one_line_tree t prev ln :
  tree_inv t -> line_range_ok ln ->
  tree_inv (fst (read_one_line t prev ln)).
Proof.
  intros (Hbound & Hasc & Hrange) Hln.
  set (n := length (arena t)).
  set (a1 := arena t ++ [new_vma (exe t) n ln]).
  set (a2 := link_leader a1 n prev).
  destruct (link_leader_range a1 n prev) as [Hlen2 Hsame2].
  fold a2 in Hlen2, Hsame2.
  assert (Hlen1 : length a1 = S n).
  { unfold a1. rewrite length_app. cbn. lia. }
  assert (Hold : forall i, (i < n)%nat -> same_range (deref (arena t) i) (deref a2 i)).
  { intros i Hi. eapply same_range_trans; [|apply Hsame2].
    unfold a1. rewrite deref_app_l by exact Hi. split; reflexivity. }
  assert (Hnew : same_range (new_vma (exe t) n ln) (deref a2 n)).
  { eapply same_range_trans; [|apply Hsame2].
    unfold a1, n. rewrite deref_app_new. split; reflexivity. }
  assert (Hrange2 : forall i, (i < length a2)%nat -> vma_range_ok (deref a2 i)).
  { intros i Hi. rewrite Hlen2, Hlen1 in Hi. unfold vma_range_ok.
    destruct (Nat.eq_dec i n) as [->|Hne].
    - destruct Hnew as [<- <-]. exact Hln.
    - destruct (Hold i ltac:(lia)) as [<- <-]. apply Hrange. fold n. lia. }
  change (tree_inv (mkTask (pid t) (exe t) (fto_flag t) (proc_mem_fd t) a2
            (list_add n (vmas t)) (rb_insert_ptr a2 (vmas_rb t) n)
            (fst (read_one_line t prev ln)).(libc_vma)
            (fst (read_one_line t prev ln)).(stack)
            (libc_elf t) (exe_elf t))).
  unfold tree_inv, tree_nodes. cbn [arena vmas_rb].
  split; [|split; [|exact Hrange2]].
  - apply rb_insert_ptr_bound.
    + eapply Forall_impl; [exact Hbound|]. cbn. intros i Hi. rewrite Hlen2, Hlen1.
      fold n in Hi. lia.
    + rewrite Hlen2, Hlen1. lia.
  - rewrite rb_insert_ptr_deref. apply rb_insert_ascending.
    + apply Forall_map. eapply Forall_impl; [exact Hbound|]. cbn.
      intros i Hi. apply Hrange2. rewrite Hlen2, Hlen1. fold n in Hi. lia.
    + apply Hrange2. rewrite Hlen2, Hlen1. lia.
    + eapply ascending_same_range; [|exact Hasc]. unfold tree_nodes.
      apply map_same_range. eapply Forall_impl; [exact Hbound|]. cbn.
      intros i Hi. apply Hold. exact Hi.
Qed.

Lemma read_lines_tree lines : forall t prev,
  tree_inv t -> Forall line_range_ok lines ->
  tree_inv (snd (read_lines t prev (map Some lines))).
Proof.
  induction lines as [|ln lines IH]; intros t prev Hinv Hl; [exact Hinv|].
  inversion Hl as [|? ? Hln Hrest]; subst. cbn [map read_lines].
  pose proof (read_one_line_tree t prev ln Hinv Hln) as Hstep.
  destruct (read_one_line t prev ln) as [t1 prev1]. now apply IH.
Qed.

(** C4. [find_vma_span_area] walks the VMA tree of the task, whose
    traversal ascends by start address, and returns the end of the first
    VMA that is followed by a gap of at least [size] bytes, or 0 when
    there is no such gap; on [0x400000,0x401000) and
    [0x500000,0x501000) it returns 0x401000 for size 0x80000 and 0 for
    size 0x200000. *)
Theorem find_vma_span_area_spec (t0 : task) (update : bool)
  (lines : list maps_line) (size : Z)
  (Hfresh : update = false -> arena t0 = [] /\ vmas_rb t0 = [])
  (Hrange : Forall line_range_ok lines) :
  let t := snd (read_task_vmas t0 update (Some (map Some lines))) in
  ascending (tree_nodes t) /\
  (forall pre a b post,
      tree_nodes t = pre ++ a :: b :: post ->
      no_gap (pre ++ [a]) size -> size <= gap a b ->
      find_vma_span_area t size = end_ a) /\
  (no_gap (tree_nodes t) size -> find_vma_span_area t size = 0) /\
  (let two := snd (read_task_vmas (fresh_task 1234 "/usr/bin/app") false
                     (Some (map Some span_lines))) in
   find_vma_span_area two 0x80000 = 0x401000 /\
   find_vma_span_area two 0x200000 = 0).
Proof.
  intros t.
  assert (Hinv : tree_inv t).
  { unfold t, read_task_vmas. apply read_lines_tree; [|exact Hrange].
    assert (H0 : arena (if update then free_task_vmas t0 else t0) = [] /\
                 vmas_rb (if update then free_task_vmas t0 else t0) = []).
    { destruct update; [split; reflexivity|now apply Hfresh]. }
    destruct H0 as [Ha Hrb]. unfold tree_inv, tree_nodes. rewrite Ha, Hrb.
    split; [constructor|]. split; [exact I|]. cbn. intros i Hi. lia. }
  destruct Hinv as (_ & Hasc & _).
  split; [exact Hasc|]. unfold find_vma_span_area. split; [|split].
  - intros pre a b post -> Hno Hgap. now apply span_area_found.
  - apply span_area_none.
  - split; reflexivity.
Qed.

Lemma find_vma_span_area_spec_witness :
  let t := snd (read_task_vmas (fresh_task 1234 "/usr/bin/app") false
                  (Some (map Some (rev span_lines)))) in
  Forall line_range_ok (rev span_lines) /\
  find_vma_span_area t 0x80000 = 0x401000.
Proof.
  intros t.
  assert (Hr : Forall line_range_ok (rev span_lines)).
  { repeat constructor; cbn; lia. }
  split; [exact Hr|].
  destruct (find_vma_span_area_spec (fresh_task 1234 "/usr/bin/app") false
              (rev span_lines) 0x80000 (fun _ => conj eq_refl eq_refl) Hr)
    as (_ & Hfound & _).
  apply (Hfound [] (deref (arena t) 1) (deref (arena t) 0) []).
  - reflexivity.
  - exact I.
  - vm_compute. discriminate.
Defined.

End VmaFacts.

Module RemoteFacts.
Import Word Remote.
Local Open Scope remote_scope.

Lemma bind_inv {A B} (m : M A) (k : A -> M B) w r :
  bind m k w = Some r ->
  exists x w1, m w = Some (x, w1) /\ k x w1 = Some r.
Proof.
  unfold bind. destruct (m w) as [[x w1]|]; [|discriminate]. eauto.
Qed.

Lemma ptrace_getregs_inv w o w' :
  ptrace_getregs w = Some (o, w') ->
  (o = inr (t_regs (w_target w)) /\ step_of w w' (w_target w) [EvGetRegs true]) \/
  (exists e, o = inl e /\ 0 < e /\ step_of w w' (w_target w) [EvGetRegs false]).
Proof.
  unfold ptrace_getregs, bind, next_answer, get_target, log, ret.
  destruct (w_script w) as [|a rest]; [discriminate|]. cbn.
  destruct (a_errno a) as [e|]; cbn; intros [= <- <-]; unfold step_of; cbn.
  - right. exists (errno_of e). unfold errno_of. repeat split; lia.
  - left. repeat split.
Qed.

Lemma ptrace_setregs_inv r w s w' :
  ptrace_setregs r w = Some (s, w') ->
  (s = inr tt /\
   step_of w w' (mkTarget r (t_mem (w_target w))) [EvSetRegs r true]) \/
  (exists e, s = inl e /\ 0 < e /\ step_of w w' (w_target w) [EvSetRegs r false]).
Proof.
  unfold ptrace_setregs, bind, next_answer, get_target, set_target, log, ret.
  destruct (w_script w) as [|a rest]; [discriminate|]. cbn.
  destruct (a_errno a) as [e|]; cbn; intros [= <- <-]; unfold step_of; cbn.
  - right. exists (errno_of e). unfold errno_of. repeat split; lia.
  - left. repeat split.
Qed.

Lemma memcpy_from_task_inv src n w rd w' :
  memcpy_from_task src n w = Some (rd, w') ->
  (snd rd = Some (read_mem (t_mem (w_target w)) src n) /\
   step_of w w' (w_target w) [EvRead src n true]) \/
  (snd rd = None /\ step_of w w' (w_target w) [EvRead src n false]).
Proof.
  unfold memcpy_from_task, bind, next_answer, get_target, log, ret.
  destruct (w_script w) as [|a rest]; [discriminate|]. cbn.
  destruct (a_errno a) as [e|]; cbn; intros [= <- <-]; unfold step_of; cbn.
  - right. repeat split.
  - left. repeat split.
Qed.

Lemma memcpy_to_task_inv dst bytes w r w' :
  memcpy_to_task dst bytes w = Some (r, w') ->
  step_of w w' (mkTarget (t_regs (w_target w))
                         (write_mem (t_mem (w_target w)) dst bytes))
          [EvWrite dst bytes true] \/
  step_of w w' (w_target w) [EvWrite dst bytes false].
Proof.
  unfold memcpy_to_task, bind, next_answer, get_target, set_target, log, ret.
  destruct (w_script w) as [|a rest]; [discriminate|]. cbn.
  destruct (a_errno a) as [e|]; cbn; intros [= <- <-]; unfold step_of; cbn.
  - right. repeat split.
  - left. repeat split.
Qed.

Lemma wait_loop_inv fuel : forall status w r w',
  wait_loop fuel status w = Some (r, w') ->
  (r = 0 \/ r = -1) /\
  exists evs, Forall (fun e => mem_ok e = true) evs /\
              w_trace w' = w_trace w ++ evs /\ w_junk w' = w_junk w.
Proof.
  induction fuel as [|fuel IH]; intros status w r w' H; [discriminate|].
  cbn [wait_loop] in H.
  unfold bind at 1 in H. unfold ptrace_cont, bind, next_answer, log, ret in H.
  destruct (w_script w) as [|a rest] eqn:Es; [discriminate|]. cbn in H.
  destruct (a_errno a) as [e|]; cbn in H.
  - injection H as <- <-. split; [now right|]. cbn.
    exists [EvCont status false]. repeat split. repeat constructor.
  - unfold waitpid, bind, next_answer, get_target, set_target, log, ret in H.
    cbn in H. destruct rest as [|b rest]; [discriminate|]. cbn in H.
    assert (Hrec : forall st w1,
               w_trace w1 = (w_trace w ++ [EvCont status true]) ++ [EvWait true] ->
               w_junk w1 = w_junk w ->
               wait_loop fuel st w1 = Some (r, w') ->
               (r = 0 \/ r = -1) /\
               exists evs, Forall (fun e => mem_ok e = true) evs /\
                           w_trace w' = w_trace w ++ evs /\ w_junk w' = w_junk w).
    { intros st w1 Ht Hj Hw. destruct (IH st w1 r w' Hw) as (Hr & evs & Hf & Htr & Hjk).
      split; [exact Hr|]. exists (EvCont status true :: EvWait true :: evs).
      split; [repeat constructor; exact Hf|]. split; [|congruence].
      rewrite Htr, Ht, <- !app_assoc. reflexivity. }
    destruct (a_errno b) as [e|]; cbn in H.
    + injection H as <- <-. split; [now right|]. cbn.
      exists [EvCont status true; EvWait false]. split; [repeat constructor|].
      split; [now rewrite <- app_assoc|reflexivity].
    + destruct (a_status b) as [sig|sig|]; cbn in H.
      * destruct ((sig =? SIGSTOP) || (sig =? SIGTRAP)).
        -- injection H as <- <-. split; [now left|]. cbn.
           exists [EvCont status true; EvWait true]. split; [repeat constructor|].
           split; [now rewrite <- app_assoc|reflexivity].
        -- destruct (sig =? SIGSEGV).
           ++ injection H as <- <-. split; [now right|]. cbn.
              exists [EvCont status true; EvWait true]. split; [repeat constructor|].
              split; [now rewrite <- app_assoc|reflexivity].
           ++ eapply Hrec; [| |exact H]; reflexivity.
      * eapply Hrec; [| |exact H]; reflexivity.
      * eapply Hrec; [| |exact H]; reflexivity.
Qed.

Lemma wait_for_stop_inv w r w' :
  wait_for_stop w = Some (r, w') ->
  (r = 0 \/ r = -1) /\
  exists evs, Forall (fun e => mem_ok e = true) evs /\
              w_trace w' = w_trace w ++ evs /\ w_junk w' = w_junk w.
Proof. apply wait_loop_inv. Qed.

Lemma wait_loop_fuel n : forall fuel1 fuel2 status w,
  (length (w_script w) <= n)%nat -> (n < fuel1)%nat -> (n < fuel2)%nat ->
  wait_loop fuel1 status w = wait_loop fuel2 status w.
Proof.
  induction n as [n IH] using lt_wf_ind.
  intros fuel1 fuel2 status w Hn H1 H2.
  destruct fuel1 as [|f1]; [lia|]. destruct fuel2 as [|f2]; [lia|].
  cbn [wait_loop].
  unfold bind at 1 3. unfold ptrace_cont, bind, next_answer, log, ret.
  destruct (w_script w) as [|a rest] eqn:Es; [reflexivity|]. cbn.
  destruct (a_errno a); cbn; [reflexivity|].
  unfold waitpid, bind, next_answer, get_target, set_target, log, ret. cbn.
  destruct rest as [|b rest]; [reflexivity|]. cbn in *.
  assert (Hrec : forall st w1, w_script w1 = rest ->
                 wait_loop f1 st w1 = wait_loop f2 st w1).
  { intros st w1 Hs. apply (IH (length rest)); rewrite ?Hs; lia. }
  destruct (a_errno b); cbn; [reflexivity|].
  destruct (a_status b) as [sig|sig|]; cbn.
  - destruct (_ || _); [reflexivity|]. destruct (sig =? SIGSEGV); [reflexivity|].
    now apply Hrec.
  - now apply Hrec.
  - now apply Hrec.
Qed.

(** More fuel than the script is long changes nothing. *)
Lemma wait_for_stop_fuel fuel w :
  (length (w_script w) < fuel)%nat ->
  wait_loop fuel 0 w = wait_for_stop w.
Proof.
  intros H. unfold wait_for_stop.
  apply (wait_loop_fuel (length (w_script w))); lia.
Qed.

Lemma memcpy_from_task_inv' src n w rd w' :
  memcpy_from_task src n w = Some (rd, w') ->
  exists ok, step_of w w' (w_target w) [EvRead src n ok] /\
             (ok = true -> snd rd = Some (read_mem (t_mem (w_target w)) src n)).
Proof.
  intros H. apply memcpy_from_task_inv in H as [[Hrd S]|[Hrd S]].
  - exists true. auto.
  - exists false. split; [exact S|discriminate].
Qed.

Lemma memcpy_to_task_inv' dst bytes w r w' :
  memcpy_to_task dst bytes w = Some (r, w') ->
  exists ok,
    step_of w w' (w_target w') [EvWrite dst bytes ok] /\
    t_regs (w_target w') = t_regs (w_target w) /\
    (ok = true ->
     t_mem (w_target w') = write_mem (t_mem (w_target w)) dst bytes).
Proof.
  intros H. apply memcpy_to_task_inv in H as [S|S].
  - exists true. destruct S as (Ht & Htr & Hj). unfold step_of. rewrite Ht. cbn.
    repeat split; assumption.
  - exists false. destruct S as (Ht & Htr & Hj). unfold step_of. rewrite Ht.
    repeat split; try assumption. discriminate.
Qed.

Lemma poke_back_inv base code r res w rr w' :
  poke_back base code r res w = Some (rr, w') ->
  rr = (r, res) /\
  exists ok,
    step_of w w' (w_target w') [EvWrite base code ok] /\
    t_regs (w_target w') = t_regs (w_target w) /\
    (ok = true ->
     t_mem (w_target w') = write_mem (t_mem (w_target w)) base code).
Proof.
  unfold poke_back. intros H. apply bind_inv in H as (x & w1 & Hm & H).
  injection H as <- <-. split; [reflexivity|].
  eapply memcpy_to_task_inv'. exact Hm.
Qed.

Lemma read_mem_length m addr n : length (read_mem m addr n) = n.
Proof. unfold read_mem. now rewrite length_map, length_seq. Qed.

Lemma read_write_mem m addr bytes :
  read_mem (write_mem m addr bytes) addr (length bytes) = bytes.
Proof.
  apply (nth_ext _ _ 0 0); [apply read_mem_length|].
  intros i Hi. rewrite read_mem_length in Hi. unfold read_mem.
  rewrite (nth_indep _ 0 ((fun i => write_mem m addr bytes (addr + Z.of_nat i)) O))
    by (now rewrite length_map, length_seq).
  rewrite (map_nth (fun i => write_mem m addr bytes (addr + Z.of_nat i))).
  rewrite seq_nth by exact Hi. cbn [Nat.add]. unfold write_mem.
  destruct (Z.leb_spec addr (addr + Z.of_nat i)); [|lia].
  destruct (Z.ltb_spec (addr + Z.of_nat i) (addr + Z.of_nat (length bytes))); [|lia].
  cbn. f_equal. lia.
Qed.

Lemma new_events_app w w' evs :
  w_trace w' = w_trace w ++ evs -> new_events w w' = evs.
Proof. intros H. unfold new_events. rewrite H. apply drop_app_length. Qed.

Ltac bind_step H x w1 Hm :=
  apply bind_inv in H; destruct H as (x & w1 & Hm & H).

Ltac chain_steps :=
  repeat match goal with
         | S : step_of _ _ _ _ |- _ =>
           let Ht := fresh "Ht" in let Htr := fresh "Htr" in
           let Hj := fresh "Hj" in destruct S as (Ht & Htr & Hj)
         end.

(** C1, as stated: [waitpid] is interrupted while the target runs the
    syscall.  [task_syscall] returns -1 through [poke_back], every
    access to the target's memory went through, and the target keeps
    the register set the call had installed. *)
Lemma task_syscall_frame_fails :
  match task_syscall X86_64 0x7f0000028000 39 0 0 0 0 0 0 0
                     (demo_world eintr_script) with
  | Some ((r, _), w') =>
    r = -1 /\
    forallb mem_ok (w_trace w') = true /\
    ~ frame_holds X86_64 0x7f0000028000 (demo_world eintr_script) w'
  | None => False
  end.
Proof.
  vm_compute. split; [reflexivity|]. split; [reflexivity|].
  intros [_ H]. discriminate.
Qed.

(** Every way through [task_syscall], seen from its caller. *)
Lemma task_syscall_outcome (A : arch)
  (libc_base nr a1 a2 a3 a4 a5 a6 res0 : Z) (w w' : world) (r res : Z)
  (Hcall : task_syscall A libc_base nr a1 a2 a3 a4 a5 a6 res0 w
           = Some ((r, res), w')) :
  (forallb mem_ok (new_events w w') = true ->
   scratch A (w_target w') libc_base = scratch A (w_target w) libc_base) /\
  (r = 0 -> t_regs (w_target w') = t_regs (w_target w)) /\
  (new_events w w' = [EvGetRegs false] -> w_target w' = w_target w) /\
  (r <> 0 -> res = res0) /\
  r <= 0.
Proof.
  unfold task_syscall in Hcall.
  bind_step Hcall g w0 Hg. injection Hg as <- <-.
  bind_step Hcall o w1 H1.
  apply ptrace_getregs_inv in H1 as [[-> S1]|(e & -> & He & S1)].
  2: { injection Hcall as <- <- <-. destruct S1 as (Ht & Htr & Hj).
       rewrite Ht. repeat split; try reflexivity; intros; lia. }
  bind_step Hcall rd w2 H2.
  apply memcpy_from_task_inv' in H2 as (rok & S2 & Hrd).
  bind_step Hcall x3 w3 H3.
  apply memcpy_to_task_inv' in H3 as (wok & S3 & Hr3 & Hm3).
  set (code := default (take (length (SYSCALL_INSTR A)) (junk_code (w_junk w)))
                       (snd rd)) in Hcall.
  assert (Hcode : rok = true -> code = scratch A (w_target w) libc_base).
  { intros Hok. unfold code. rewrite (Hrd Hok). cbn.
    destruct S1 as (-> & _ & _). reflexivity. }
  assert (Hlen : rok = true -> length code = length (SYSCALL_INSTR A)).
  { intros Hok. rewrite (Hcode Hok). apply read_mem_length. }
  assert (Hleaf : forall w4 evs r0 res1,
     w_trace w4 = w_trace w ++ EvGetRegs true
                    :: EvRead libc_base (length (SYSCALL_INSTR A)) rok :: evs ->
     (r0 = 0 -> t_regs (w_target w4) = t_regs (w_target w)) ->
     (r0 <> 0 -> res1 = res0) ->
     r0 <= 0 ->
     poke_back libc_base code r0 res1 w4 = Some ((r, res), w') ->
     (forallb mem_ok (new_events w w') = true ->
      scratch A (w_target w') libc_base = scratch A (w_target w) libc_base) /\
     (r = 0 -> t_regs (w_target w') = t_regs (w_target w)) /\
     (new_events w w' = [EvGetRegs false] -> w_target w' = w_target w) /\
     (r <> 0 -> res = res0) /\
     r <= 0).
  { intros w4 evs r0 res1 Htr4 Hregs Hres Hsign Hp.
    apply poke_back_inv in Hp as ([= <- <-] & pok & S5 & Hr5 & Hm5).
    destruct S5 as (_ & Htr5 & _).
    assert (Hnew : new_events w w' =
                   EvGetRegs true
                   :: EvRead libc_base (length (SYSCALL_INSTR A)) rok
                   :: evs ++ [EvWrite libc_base code pok]).
    { apply new_events_app. rewrite Htr5, Htr4, <- app_assoc. reflexivity. }
    rewrite Hnew. split; [|split; [|split; [|split]]].
    - cbn [forallb mem_ok]. rewrite forallb_app. cbn.
      intros Hall. apply andb_true_iff in Hall as [Hrok Hall].
      apply andb_true_iff in Hall as [_ Hall].
      rewrite andb_true_r in Hall. subst rok pok.
      unfold scratch. rewrite (Hm5 eq_refl), <- (Hlen eq_refl).
      rewrite read_write_mem. rewrite (Hlen eq_refl). exact (Hcode eq_refl).
    - intros H0. rewrite Hr5. now apply Hregs.
    - intros [= ].
    - exact Hres.
    - exact Hsign. }
  bind_step Hcall s w4 H4.
  apply ptrace_setregs_inv in H4 as [[-> S4]|(e & -> & He & S4)].
  2: { chain_steps. eapply Hleaf; [| | | |exact Hcall].
       - rewrite Htr, Htr0, Htr1, Htr2, <- !app_assoc. reflexivity.
       - intros; lia.
       - reflexivity.
       - lia. }
  bind_step Hcall rw w5 H5.
  apply wait_for_stop_inv in H5 as (Hrw & evw & Hfw & Htrw & Hjw).
  assert (Htr5 : w_trace w5 = w_trace w ++ EvGetRegs true
                   :: EvRead libc_base (length (SYSCALL_INSTR A)) rok
                   :: EvWrite libc_base (SYSCALL_INSTR A) wok
                   :: EvSetRegs (copy_regs A
                        (reg_set (t_regs (w_target w)) (SYSCALL_IP A) libc_base)
                        (SYSCALL_REGS_PREPARE A (junk_regs (w_junk w)) nr a1 a2
                           a3 a4 a5 a6)) true :: evw).
  { chain_steps. rewrite Htrw, Htr, Htr0, Htr1, Htr2, <- !app_assoc. reflexivity. }
  destruct Hrw as [->| ->]; cbn [Z.ltb Z.compare] in Hcall.
  2: { eapply Hleaf; [exact Htr5| | | |exact Hcall]; [intros; lia|reflexivity|lia]. }
  bind_step Hcall o2 w6 H6.
  apply ptrace_getregs_inv in H6 as [[-> S6]|(e & -> & He & S6)].
  2: { destruct S6 as (_ & Htr6 & _).
       eapply Hleaf; [| | | |exact Hcall].
       - rewrite Htr6, Htr5, <- app_assoc. reflexivity.
       - intros; lia.
       - reflexivity.
       - lia. }
  bind_step Hcall s2 w7 H7.
  apply ptrace_setregs_inv in H7 as [[-> S7]|(e & -> & He & S7)].
  2: { destruct S6 as (_ & Htr6 & _). destruct S7 as (_ & Htr7 & _).
       eapply Hleaf; [| | | |exact Hcall].
       - rewrite Htr7, Htr6, Htr5, <- !app_assoc. reflexivity.
       - intros; lia.
       - reflexivity.
       - lia. }
  destruct S6 as (_ & Htr6 & _). destruct S7 as (Ht7 & Htr7 & _).
  eapply Hleaf; [| | | |exact Hcall].
  - rewrite Htr7, Htr6, Htr5, <- !app_assoc. reflexivity.
  - intros _. rewrite Ht7. reflexivity.
  - intros H. contradiction.
  - lia.
Qed.

(** C1, amended.  For a call to [task_syscall] that returns: if every
    read and write of the target's memory went through, the scratch
    bytes at libc-base are the ones from before the call; if the call
    returns 0, the register set is the one from before the call; if the
    first [PTRACE_GETREGS] failed, the target is untouched; and [*res]
    is written only when the call returns 0. *)
Theorem task_syscall_frame (A : arch)
  (libc_base nr a1 a2 a3 a4 a5 a6 res0 : Z) (w w' : world) (r res : Z)
  (Hcall : task_syscall A libc_base nr a1 a2 a3 a4 a5 a6 res0 w
           = Some ((r, res), w')) :
  (forallb mem_ok (new_events w w') = true ->
   scratch A (w_target w') libc_base = scratch A (w_target w) libc_base) /\
  (r = 0 -> t_regs (w_target w') = t_regs (w_target w)) /\
  (new_events w w' = [EvGetRegs false] -> w_target w' = w_target w) /\
  (r <> 0 -> res = res0).
Proof.
  destruct (task_syscall_outcome _ _ _ _ _ _ _ _ _ _ _ _ _ _ Hcall)
    as (H1 & H2 & H3 & H4 & _).
  repeat split; assumption.
Qed.

Lemma task_syscall_frame_witness :
  exists w',
    task_syscall X86_64 0x7f0000028000 39 0 0 0 0 0 0 0
                 (demo_world getpid_script) = Some ((0, 1234), w') /\
    t_regs (w_target w') = demo_regs.
Proof.
  assert (Hv : option_map fst
                 (task_syscall X86_64 0x7f0000028000 39 0 0 0 0 0 0 0
                               (demo_world getpid_script)) = Some (0, 1234)).
  { vm_compute. reflexivity. }
  destruct (task_syscall X86_64 0x7f0000028000 39 0 0 0 0 0 0 0
                         (demo_world getpid_script))
    as [[[r res] w']|] eqn:E; [|discriminate].
  injection Hv as -> ->. exists w'. split; [reflexivity|].
  exact (proj1 (proj2 (task_syscall_frame _ _ _ _ _ _ _ _ _ _ _ _ _ _ E)) eq_refl).
Defined.

(** *** [task_mmap] and [task_malloc] *)

Lemma neg_errno_u64 e : 1 <= e <= 4095 -> u64 (- e) = 2 ^ 64 - e.
Proof.
  intros H. unfold u64.
  replace (- e) with ((2 ^ 64 - e) + (-1) * 2 ^ 64) by lia.
  rewrite Z_mod_plus_full. apply Z.mod_small. lia.
Qed.

(** C10. [task_mmap] returns 0 when [task_syscall] reports a failure of
    the ptrace sequence and the raw return register otherwise; a remote
    [mmap] that ran and failed with [errno] [e] therefore comes back as
    the address [2^64 - e], and [task_malloc], which only compares with
    [MAP_FAILED], hands that value on unless [e] is 1. *)
Theorem task_malloc_passes_errno (A : arch) (libc_base len : Z)
  (w w' : world) (r res : Z)
  (Hcall : task_syscall A libc_base (__NR_mmap A) 0 len
             (Z.lor PROT_READ PROT_WRITE) (Z.lor MAP_PRIVATE MAP_ANONYMOUS)
             (-1) 0 (junk_result (w_junk w)) w = Some ((r, res), w')) :
  r <= 0 /\
  task_mmap A libc_base 0 len (Z.lor PROT_READ PROT_WRITE)
            (Z.lor MAP_PRIVATE MAP_ANONYMOUS) (-1) 0 w
    = Some ((if r <? 0 then 0 else res), w') /\
  task_malloc A libc_base len w
    = Some ((if r <? 0 then 0 else if res =? MAP_FAILED then 0 else res), w') /\
  forall e, 1 <= e <= 4095 -> r = 0 -> res = u64 (- e) ->
    task_mmap A libc_base 0 len (Z.lor PROT_READ PROT_WRITE)
              (Z.lor MAP_PRIVATE MAP_ANONYMOUS) (-1) 0 w
      = Some (2 ^ 64 - e, w') /\
    task_malloc A libc_base len w
      = Some ((if e =? 1 then 0 else 2 ^ 64 - e), w').
Proof.
  assert (Hmmap : task_mmap A libc_base 0 len (Z.lor PROT_READ PROT_WRITE)
            (Z.lor MAP_PRIVATE MAP_ANONYMOUS) (-1) 0 w
          = Some ((if r <? 0 then 0 else res), w')).
  { unfold task_mmap, bind, junk. rewrite Hcall. cbn [fst snd].
    destruct (r <? 0); reflexivity. }
  assert (Hmalloc : task_malloc A libc_base len w
          = Some ((if r <? 0 then 0 else if res =? MAP_FAILED then 0 else res), w')).
  { unfold task_malloc. unfold bind at 1. rewrite Hmmap.
    destruct (r <? 0); [reflexivity|]. destruct (res =? MAP_FAILED); reflexivity. }
  split; [apply (task_syscall_outcome _ _ _ _ _ _ _ _ _ _ _ _ _ _ Hcall)|].
  split; [exact Hmmap|]. split; [exact Hmalloc|].
  intros e He -> ->. rewrite Hmmap, Hmalloc. cbn [Z.ltb Z.compare].
  rewrite neg_errno_u64 by exact He. split; [reflexivity|].
  unfold MAP_FAILED, ULONG_MAX.
  destruct (Z.eqb_spec e 1) as [->|Hne].
  - reflexivity.
  - destruct (Z.eqb_spec (2 ^ 64 - e) (2 ^ 64 - 1)); [lia|reflexivity].
Qed.

Lemma task_malloc_passes_errno_witness :
  option_map fst (task_malloc X86_64 0x7f0000028000 4096
                              (demo_world enomem_script))
  = Some (2 ^ 64 - ENOMEM).
Proof.
  assert (Hv : option_map fst
                 (task_syscall X86_64 0x7f0000028000 (__NR_mmap X86_64) 0 4096
                    (Z.lor PROT_READ PROT_WRITE)
                    (Z.lor MAP_PRIVATE MAP_ANONYMOUS) (-1) 0
                    (junk_result (w_junk (demo_world enomem_script)))
                    (demo_world enomem_script)) = Some (0, u64 (- ENOMEM))).
  { vm_compute. reflexivity. }
  destruct (task_syscall X86_64 0x7f0000028000 (__NR_mmap X86_64) 0 4096
              (Z.lor PROT_READ PROT_WRITE) (Z.lor MAP_PRIVATE MAP_ANONYMOUS)
              (-1) 0 (junk_result (w_junk (demo_world enomem_script)))
              (demo_world enomem_script))
    as [[[r res] w']|] eqn:E; [|discriminate].
  injection Hv as -> ->.
  destruct (task_malloc_passes_errno _ _ _ _ _ _ _ E) as (_ & _ & _ & H).
  destruct (H ENOMEM ltac:(unfold ENOMEM; lia) eq_refl eq_refl) as [_ ->].
  reflexivity.
Defined.

(** *** [task_open] *)

Lemma lor_O_CREAT flags : (Z.lor flags O_CREAT =? 0) = false.
Proof.
  apply Z.eqb_neq. intros H. apply Z.lor_eq_0_iff in H as [_ H]. discriminate.
Qed.

(** C3: the guard [!(flags|O_CREAT)] never holds, so [task_open] does
    not consult [readlink] or [realpath] for any flags: it behaves the
    same under every view of the file system, and for [O_RDWR] on a
    symbolic link it writes the link's own name into the target and
    opens that. *)
Theorem task_open_never_canonicalises :
  (forall fs fs' A libc_base pathname flags mode w,
      task_open fs A libc_base pathname flags mode w
      = task_open fs' A libc_base pathname flags mode w) /\
  Z.land O_RDWR O_CREAT = 0 /\
  fs_readlink link_fs "/tmp/patch-link"
    = Some "/var/run/ultask/1234/map_files/patch-Hy3kQz"%string /\
  option_map (fun x => (fst x, w_trace (snd x)))
             (task_open link_fs X86_64 0x7f0000028000 "/tmp/patch-link"
                        O_RDWR 420 (demo_world open_script))
  = option_map (fun x => (fst x, w_trace (snd x)))
               (task_open (mkFs (fun _ => None) (fun _ => None)) X86_64
                          0x7f0000028000 "/tmp/patch-link"
                          O_RDWR 420 (demo_world open_script)) /\
  match task_open link_fs X86_64 0x7f0000028000 "/tmp/patch-link"
                  O_RDWR 420 (demo_world open_script) with
  | Some (fd, w') =>
    fd = 3 /\
    In (EvWrite 0x7f0000800000 (c_bytes "/tmp/patch-link") true) (w_trace w') /\
    ~ In (EvWrite 0x7f0000800000
            (c_bytes "/var/run/ultask/1234/map_files/patch-Hy3kQz") true)
         (w_trace w')
  | None => False
  end.
Proof.
  assert (Hany : forall fs fs' A libc_base pathname flags mode w,
      task_open fs A libc_base pathname flags mode w
      = task_open fs' A libc_base pathname flags mode w).
  { intros. unfold task_open. now rewrite !lor_O_CREAT. }
  split; [exact Hany|]. split; [reflexivity|]. split; [reflexivity|].
  split; [now rewrite (Hany link_fs (mkFs (fun _ => None) (fun _ => None)))|].
  vm_compute. split; [reflexivity|]. split.
  - do 9 right. left. reflexivity.
  - intros H. repeat (destruct H as [H|H]; [discriminate|]). exact H.
Qed.

End RemoteFacts.

Module NoteFacts.
Import Word Note.

Lemma hex_of_app a b : hex_of (a ++ b) = hex_of a ++ hex_of b.
Proof. induction a as [|x a IH]; cbn; [reflexivity|]. now rewrite IH. Qed.

Lemma hex_of_length l : length (hex_of l) = (2 * length l)%nat.
Proof. induction l as [|x l IH]; cbn; [reflexivity|]. rewrite IH. lia. Qed.

Lemma put_byte_app desc pre a b rest i :
  length pre = (i * 2)%nat ->
  put_byte desc (pre ++ a :: b :: rest) i =
  pre ++ fst (sprintf_02x (nth i desc 0)) :: snd (sprintf_02x (nth i desc 0)) :: rest.
Proof.
  intros Hlen. unfold put_byte.
  replace (i * 2 + 1)%nat with (length pre + 1)%nat by lia.
  rewrite <- Hlen.
  replace (length pre) with (length pre + 0)%nat at 2 by lia.
  rewrite insert_app_r. cbn. rewrite insert_app_r. reflexivity.
Qed.

Lemma build_id_loop_spec n desc : forall pre rest i,
  length pre = (i * 2)%nat -> (2 * n <= length rest)%nat ->
  (i + n <= length desc)%nat ->
  build_id_loop n desc (pre ++ rest) i =
  (pre ++ hex_of (take n (drop i desc)) ++ drop (2 * n) rest, (i + n)%nat).
Proof.
  induction n as [|n IH]; intros pre rest i Hpre Hrest Hdesc.
  - cbn. rewrite Nat.add_0_r, drop_0. reflexivity.
  - destruct rest as [|a [|b rest]]; cbn in Hrest; try lia.
    cbn [build_id_loop]. rewrite put_byte_app by exact Hpre.
    assert (Hd : drop i desc = nth i desc 0 :: drop (S i) desc).
    { clear -Hdesc. revert i Hdesc. induction desc as [|d desc IHd]; intros i H.
      - cbn in H. lia.
      - destruct i as [|i]; [reflexivity|]. cbn. apply IHd. cbn in H. lia. }
    rewrite Hd. cbn [take hex_of].
    change (pre ++ ?h :: ?l :: rest) with (pre ++ [h; l] ++ rest).
    rewrite (app_assoc pre).
    rewrite IH; [| rewrite length_app; cbn; lia | lia | lia].
    rewrite <- app_assoc.
    replace (2 * S n)%nat with (S (S (2 * n))) by lia.
    cbn [app drop]. f_equal. lia.
Qed.

Lemma save_build_id_spec heap descsz desc :
  0 < descsz -> descsz * 2 + 1 < 2 ^ 32 ->
  length desc = Z.to_nat descsz ->
  save_build_id heap descsz desc = hex_of desc ++ [zero].
Proof.
  intros Hpos Hsz Hlen. unfold save_build_id.
  unfold u32. rewrite !Z.mod_small by lia.
  set (m := Z.to_nat (descsz - 1)).
  assert (Hm : Z.to_nat descsz = S m) by (unfold m; lia).
  assert (Hbuf : length (malloc heap (descsz * 2 + 1)) = (2 * m + 3)%nat).
  { unfold malloc. rewrite length_map, length_seq. lia. }
  set (buf := malloc heap (descsz * 2 + 1)) in *.
  change buf with ([] ++ buf).
  rewrite (build_id_loop_spec m desc [] buf 0) by (cbn; lia).
  cbn [app Nat.add drop]. rewrite drop_0.
  assert (Hrest : length (drop (2 * m) buf) = 3%nat).
  { rewrite length_drop. lia. }
  destruct (drop (2 * m) buf) as [|a [|b [|c [|]]]]; try discriminate.
  assert (Hpre : length (hex_of (take m desc)) = (m * 2)%nat).
  { rewrite hex_of_length, length_take. lia. }
  rewrite put_byte_app by exact Hpre.
  replace (m * 2 + 2)%nat with (length (hex_of (take m desc)) + 2)%nat by lia.
  rewrite insert_app_r. cbn [insert list_insert].
  assert (Hdesc : desc = take m desc ++ [nth m desc 0]).
  { rewrite <- (take_drop m desc) at 1. f_equal.
    assert (Hd : length (drop m desc) = 1%nat) by (rewrite length_drop; lia).
    rewrite <- (take_drop m desc) at 2.
    rewrite app_nth2 by (rewrite length_take; lia).
    rewrite length_take. replace (m - m `min` length desc)%nat with O by lia.
    destruct (drop m desc) as [|d [|]]; try discriminate. reflexivity. }
  assert (Hhex : hex_of desc = hex_of (take m desc)
                   ++ [fst (sprintf_02x (nth m desc 0));
                       snd (sprintf_02x (nth m desc 0))]).
  { rewrite Hdesc at 1. rewrite hex_of_app. reflexivity. }
  rewrite Hhex, <- app_assoc. reflexivity.
Qed.

Lemma hex_digit_lower d : is_lower_hex (hex_digit d) = true.
Proof.
  unfold hex_digit. generalize (Z.to_nat d). intros k.
  do 16 (destruct k as [|k]; [reflexivity|]). destruct k; reflexivity.
Qed.

Lemma hex_of_lower l : forallb is_lower_hex (hex_of l) = true.
Proof.
  induction l as [|b l IH]; cbn [hex_of forallb]; [reflexivity|].
  unfold sprintf_02x. cbn [fst snd]. now rewrite !hex_digit_lower, IH.
Qed.

Lemma hex_value_digit d : 0 <= d < 16 -> hex_value (hex_digit d) = d.
Proof.
  intros H. unfold hex_digit.
  assert (Hd : d = Z.of_nat (Z.to_nat d)) by lia.
  assert (Hk : (Z.to_nat d < 16)%nat) by lia.
  rewrite Hd at 2. generalize dependent (Z.to_nat d). intros k _ Hk.
  do 16 (destruct k as [|k]; [reflexivity|]). lia.
Qed.

Lemma unhex_hex_of l : unhex (hex_of l) = map (fun b => b mod 256) l.
Proof.
  induction l as [|b l IH]; cbn [hex_of unhex map]; [reflexivity|].
  rewrite IH. f_equal. unfold sprintf_02x. cbn [fst snd].
  assert (H : 0 <= b mod 256 < 256) by (apply Z.mod_pos_bound; lia).
  rewrite !hex_value_digit.
  - rewrite (Z.div_mod (b mod 256) 16) at 3 by lia. lia.
  - apply Z.mod_pos_bound. lia.
  - split; [apply Z.div_pos; lia|apply Z.div_lt_upper_bound; lia].
Qed.

Lemma c_string_hex l : c_string (hex_of l ++ [zero]) = hex_of l.
Proof.
  assert (H : forall s, forallb is_lower_hex s = true ->
                        c_string (s ++ [zero]) = s).
  { induction s as [|c s IH]; cbn; [reflexivity|].
    intros Hc. apply andb_true_iff in Hc as [Hc Hs].
    destruct (Ascii.eqb_spec c zero) as [->|_]; [discriminate|].
    now rewrite IH. }
  apply H, hex_of_lower.
Qed.

Lemma put_byte_length desc buf i : length (put_byte desc buf i) = length buf.
Proof. unfold put_byte. now rewrite !length_insert. Qed.

Lemma build_id_loop_length n desc : forall buf i,
  length (fst (build_id_loop n desc buf i)) = length buf.
Proof.
  induction n as [|n IH]; intros buf i; [reflexivity|].
  cbn [build_id_loop]. now rewrite IH, put_byte_length.
Qed.

(** The buffer has the size that was asked of [malloc], whatever the
    loop stored. *)
Lemma save_build_id_length heap descsz desc :
  length (save_build_id heap descsz desc) = Z.to_nat (u32 (descsz * 2 + 1)).
Proof.
  unfold save_build_id.
  pose proof (build_id_loop_length (Z.to_nat (u32 (descsz - 1))) desc
                (malloc heap (u32 (descsz * 2 + 1))) 0%nat) as H.
  destruct (build_id_loop _ desc _ 0%nat) as [b i]. cbn [fst] in H.
  rewrite length_insert, put_byte_length, H.
  unfold malloc. now rewrite length_map, length_seq.
Qed.

Lemma c_string_length buf : (length (c_string buf) <= length buf)%nat.
Proof.
  induction buf as [|c buf IH]; cbn [c_string length]; [lia|].
  destruct (Ascii.eqb c zero); cbn [length]; lia.
Qed.

(** C9. A note of owner "GNU" and type [NT_GNU_BUILD_ID] with a
    non-empty descriptor leaves in [elf->build_id] a buffer of the
    size asked of [malloc], the 32-bit value of [descsz * 2 + 1].  For
    a [descsz] below [2^31] that holds a NUL-terminated string of
    [2 * descsz] lowercase hexadecimal digits that spell the descriptor
    bytes in order.  From [2^31] on the size has wrapped: the buffer
    has [descsz * 2 + 1 - 2^32] bytes, fewer than the loop stores, and
    the string in it is shorter than [2 * descsz]. *)
Theorem elf_object_note_build_id (heap : nat -> ascii) (elf : elf_file)
  (namesz : Z) (name : string) (type descsz : Z) (desc : list Z)
  (Hname : name = "GNU"%string)
  (Htype : type = NT_GNU_BUILD_ID)
  (Hpos : 0 < descsz)
  (Hmax : descsz < 2 ^ 32) :
  exists buf,
    build_id (elf_object_note heap elf namesz name type descsz desc) = Some buf /\
    Z.of_nat (length buf) = u32 (descsz * 2 + 1) /\
    (descsz * 2 + 1 < 2 ^ 32 -> length desc = Z.to_nat descsz ->
     buf = hex_of desc ++ [zero] /\
     c_string buf = hex_of desc /\
     Z.of_nat (length (c_string buf)) = 2 * descsz /\
     forallb is_lower_hex (c_string buf) = true /\
     unhex (c_string buf) = map (fun b => b mod 256) desc) /\
    (2 ^ 31 <= descsz ->
     Z.of_nat (length buf) = descsz * 2 + 1 - 2 ^ 32 /\
     Z.of_nat (length buf) < 2 * descsz + 1 /\
     Z.of_nat (length (c_string buf)) < 2 * descsz).
Proof.
  subst name type. unfold elf_object_note. cbn [String.eqb String.prefix].
  cbn -[save_build_id Z.gtb].
  destruct (Z.gtb_spec descsz 0) as [_|Hc]; [|lia].
  destruct (Z.eqb_spec descsz 0) as [Hc|_]; [lia|]. cbn [andb build_id].
  exists (save_build_id heap descsz desc).
  assert (Hlen : Z.of_nat (length (save_build_id heap descsz desc))
                 = u32 (descsz * 2 + 1)).
  { rewrite save_build_id_length. unfold u32.
    pose proof (Z.mod_pos_bound (descsz * 2 + 1) (2 ^ 32) ltac:(lia)). lia. }
  split; [reflexivity|]. split; [exact Hlen|]. split.
  - intros Hsize Hdesc. rewrite save_build_id_spec by assumption.
    split; [reflexivity|].
    rewrite c_string_hex. split; [reflexivity|].
    split; [rewrite hex_of_length; lia|].
    split; [apply hex_of_lower|apply unhex_hex_of].
  - intros Hbig.
    assert (Hwrap : u32 (descsz * 2 + 1) = descsz * 2 + 1 - 2 ^ 32).
    { unfold u32.
      replace (descsz * 2 + 1) with ((descsz * 2 + 1 - 2 ^ 32) + 1 * 2 ^ 32)
        at 1 by lia.
      rewrite Z_mod_plus_full. apply Z.mod_small. lia. }
    rewrite Hlen, Hwrap. split; [reflexivity|]. split; [lia|].
    pose proof (c_string_length (save_build_id heap descsz desc)) as Hc.
    lia.
Qed.

Lemma elf_object_note_build_id_witness :
  option_map (fun b => string_of_list_ascii (c_string b))
    (build_id (elf_object_note (fun _ => "?"%char) (mkElfFile "/bin/ls" None)
                               4 "GNU" NT_GNU_BUILD_ID 20 ls_build_id))
  = Some "49c2fad65d0c2df70025644c9bc7485b28bab899"%string /\
  exists buf,
    build_id (elf_object_note (fun _ => "?"%char) (mkElfFile "/bin/ls" None)
                              4 "GNU" NT_GNU_BUILD_ID (2 ^ 31) ls_build_id)
    = Some buf /\
    Z.of_nat (length buf) = 1.
Proof.
  split.
  - destruct (elf_object_note_build_id (fun _ => "?"%char)
                (mkElfFile "/bin/ls" None) 4 "GNU" NT_GNU_BUILD_ID 20
                ls_build_id eq_refl eq_refl ltac:(lia) ltac:(lia))
      as (buf & -> & _ & Hhex & _).
    destruct (Hhex ltac:(lia) eq_refl) as (-> & _). reflexivity.
  - destruct (elf_object_note_build_id (fun _ => "?"%char)
                (mkElfFile "/bin/ls" None) 4 "GNU" NT_GNU_BUILD_ID (2 ^ 31)
                ls_build_id eq_refl eq_refl ltac:(lia) ltac:(lia))
      as (buf & Hb & _ & _ & Hover).
    exists buf. split; [exact Hb|].
    destruct (Hover ltac:(lia)) as (-> & _). reflexivity.
Defined.

End NoteFacts.

Module UltaskFacts.
Import Ultask.
Local Open Scope exit_scope.

(** C8, as stated: [--map file=/nonexistent] without [--pid].  The
    check of the process ID comes first and ends the run with 1. *)
Lemma map_file_exit_not_EEXIST :
  carries_map_file [OptMap "file=/nonexistent"] "/nonexistent" /\
  is_absolute "/nonexistent" = true /\
  fexist bare_env "/nonexistent" = false /\
  parse_config bare_env [OptMap "file=/nonexistent"] = Exit 1 /\
  1 <> EEXIST.
Proof.
  split.
  - exists "file=/nonexistent"%string. split; [now left|]. vm_compute. now left.
  - repeat split; try reflexivity. discriminate.
Qed.

Lemma validate_reaches_map_file (e : env) (s : statics)
  (Hpid : nums s target_pid <> -1)
  (Hlive : proc_pid_exist e (nums s target_pid) = true)
  (Hout : (flags s flag_dump_vma || flags s flag_dump_addr) = true ->
          strs s output_file <> None) :
  exists s', strs s' = strs s /\ nums s' = nums s /\
    validate e s =
    (s <~ check_map_file e s' ;;
     match strs s output_file with
     | Some out => if negb (force e) && fexist e out then cmd_exit 1 else Ret s
     | None => Ret s
     end).
Proof.
  unfold validate.
  destruct (Z.eqb_spec (nums s target_pid) (-1)) as [Hc|_]; [contradiction|].
  rewrite Hlive. cbn [negb]. cbv zeta.
  set (idle := (_ && negb (flags s flag_print_fds))%bool).
  set (s' := if idle then s else set_flag flag_print_task false s).
  assert (Hs : strs s' = strs s) by (unfold s'; destruct idle; reflexivity).
  assert (Hn : nums s' = nums s) by (unfold s'; destruct idle; reflexivity).
  assert (Hv : flags s' flag_dump_vma = flags s flag_dump_vma)
    by (unfold s'; destruct idle; reflexivity).
  assert (Ha : flags s' flag_dump_addr = flags s flag_dump_addr)
    by (unfold s'; destruct idle; reflexivity).
  exists s'. split; [exact Hs|]. split; [exact Hn|].
  rewrite Hv, Ha, Hs.
  destruct (strs s output_file) as [out|] eqn:Eo.
  - rewrite !andb_false_r. reflexivity.
  - rewrite !andb_true_r.
    destruct (flags s flag_dump_vma); [exfalso; now apply Hout|].
    destruct (flags s flag_dump_addr); [exfalso; now apply Hout|].
    reflexivity.
Qed.

(** C8, amended.  For an invocation whose option loop ends with
    [map_file] set to an absolute path [F] and which passes the checks
    that come before the one of the file (a process ID that exists, an
    output file for a dump): the process exits with [EEXIST] if [F] does
    not exist, with [ENOENT] if [F] exists and is no regular file, and
    with [EINVAL] if [F] is an empty regular file. *)
Theorem parse_config_map_file (e : env) (opts : list opt) (s : statics)
  (F : string)
  (Hloop : parse_options e opts ultask_args_reset = Ret s)
  (Hmap : strs s map_file = Some F)
  (Habs : is_absolute F = true)
  (Hpid : nums s target_pid <> -1)
  (Hlive : proc_pid_exist e (nums s target_pid) = true)
  (Hout : (flags s flag_dump_vma || flags s flag_dump_addr) = true ->
          strs s output_file <> None) :
  (fexist e F = false -> parse_config e opts = Exit EEXIST) /\
  (fexist e F = true -> fregular e F = false ->
   parse_config e opts = Exit ENOENT) /\
  (fexist e F = true -> fregular e F = true -> fsize e F = 0 ->
   parse_config e opts = Exit EINVAL).
Proof.
  destruct (validate_reaches_map_file e s Hpid Hlive Hout)
    as (s' & Hs & Hn & Hval).
  unfold parse_config. rewrite Hloop. cbn [obind]. rewrite Hval.
  unfold check_map_file. rewrite Hs, Hmap, Habs.
  split; [|split].
  - intros ->. reflexivity.
  - intros H1 H2. rewrite H1. cbn [negb obind]. rewrite H2. reflexivity.
  - intros H1 H2 H3. rewrite H1. cbn [negb obind]. rewrite H2, H3. reflexivity.
Qed.

Lemma parse_config_map_file_witness :
  parse_config bare_env [OptPid "1234"; OptMap "file=/nonexistent,ro"]
  = Exit EEXIST.
Proof.
  destruct (parse_options bare_env
              [OptPid "1234"; OptMap "file=/nonexistent,ro"]
              ultask_args_reset) as [s|code] eqn:E.
  - assert (Hm : match parse_options bare_env
                         [OptPid "1234"; OptMap "file=/nonexistent,ro"]
                         ultask_args_reset with
                 | Ret s => (strs s map_file, nums s target_pid,
                             flags s flag_dump_vma, flags s flag_dump_addr)
                 | Exit _ => (None, 0, true, true)
                 end = (Some "/nonexistent"%string, 1234, false, false)).
    { vm_compute. reflexivity. }
    rewrite E in Hm. injection Hm as Hmap Hpid Hv Ha.
    refine (proj1 (parse_config_map_file bare_env _ s "/nonexistent"
                     E Hmap eq_refl _ _ _) eq_refl).
    + rewrite Hpid. discriminate.
    + rewrite Hpid. reflexivity.
    + rewrite Hv, Ha. discriminate.
  - exfalso.
    assert (Hm : match parse_options bare_env
                         [OptPid "1234"; OptMap "file=/nonexistent,ro"]
                         ultask_args_reset with
                 | Ret _ => true
                 | Exit _ => false
                 end = true) by (vm_compute; reflexivity).
    rewrite E in Hm. discriminate.
Defined.

End UltaskFacts.

Module ClassifyFacts.
Import Word Vma VmaFacts.

(** *** [__perms2prot] and [get_vma_type] *)

(** X1. [__perms2prot] sets [PROT_READ], [PROT_WRITE] and [PROT_EXEC]
    exactly for an [r] in the first, a [w] in the second and an [x] in
    the third place of the permission string; whatever follows (the
    [p]/[s] flag) has no part in the result, which no other bit
    enters. *)
Theorem perms2prot_bits (perms : string) :
  let prot := __perms2prot perms in
  (Z.land prot PROT_READ <> 0 <-> char_at perms 0 = "r"%char) /\
  (Z.land prot PROT_WRITE <> 0 <-> char_at perms 1 = "w"%char) /\
  (Z.land prot PROT_EXEC <> 0 <-> char_at perms 2 = "x"%char) /\
  Z.land prot (Z.lnot 7) = 0.
Proof.
  unfold __perms2prot.
  destruct (Ascii.eqb_spec (char_at perms 0) "r") as [Hr|Hr];
    destruct (Ascii.eqb_spec (char_at perms 1) "w") as [Hw|Hw];
    destruct (Ascii.eqb_spec (char_at perms 2) "x") as [Hx|Hx];
    cbn; repeat split; intros; try discriminate; try congruence;
    try assumption; try contradiction.
Qed.

(** X2. How [get_vma_type] orders its tests: a mapping of the
    executable itself is [VMA_SELF] whatever its name looks like; any
    other pathname whose last component begins with [libc] or [libssp]
    is [VMA_LIBC]; [[stack]] is [VMA_STACK] and the empty name
    [VMA_ANON] unless the executable carries that very name. *)
Theorem get_vma_type_cases (exe name : string) :
  (get_vma_type exe name = VMA_SELF <-> name = exe) /\
  (get_vma_type exe name = VMA_LIBC <->
   name <> exe /\
   (starts_with "libc" (basename name) = true \/
    starts_with "libssp" (basename name) = true)) /\
  (get_vma_type exe name = VMA_STACK <-> name <> exe /\ name = "[stack]"%string) /\
  (get_vma_type exe name = VMA_ANON <-> name <> exe /\ name = ""%string).
Proof.
  unfold get_vma_type.
  destruct (String.eqb_spec name exe) as [He|He].
  { repeat split; try tauto; try discriminate; intros [? _]; contradiction. }
  destruct (starts_with "libc" (basename name)) eqn:E1;
    destruct (starts_with "libssp" (basename name)) eqn:E2; cbn [orb];
    try (repeat split; try discriminate; try tauto;
         intros [_ ->]; vm_compute in E1, E2; discriminate).
  destruct (starts_with "libelf" (basename name)) eqn:E3;
    [repeat split; try discriminate; try tauto; try (intros [_ [?|?]]; discriminate);
     intros [_ ->]; vm_compute in E3; discriminate|].
  destruct (String.eqb_spec name "[heap]") as [E4|E4];
    [repeat split; try discriminate; try tauto; try (intros [_ [?|?]]; discriminate);
     intros [_ ->]; discriminate|].
  destruct (starts_with "ld-linux" (basename name)) eqn:E5;
    [repeat split; try discriminate; try tauto; try (intros [_ [?|?]]; discriminate);
     intros [_ ->]; vm_compute in E5; discriminate|].
  destruct (String.eqb_spec name "[stack]") as [E6|E6].
  { repeat split; try discriminate; try tauto; try (intros [_ [?|?]]; discriminate).
    intros [_ ->]. discriminate. }
  destruct (String.eqb_spec name "[vvar]") as [E7|E7];
    [repeat split; try discriminate; try tauto; try (intros [_ [?|?]]; discriminate);
     intros [_ ->]; discriminate|].
  destruct (String.eqb_spec name "[vdso]") as [E8|E8];
    [repeat split; try discriminate; try tauto; try (intros [_ [?|?]]; discriminate);
     intros [_ ->]; discriminate|].
  destruct (String.eqb_spec name "[vsyscall]") as [E9|E9];
    [repeat split; try discriminate; try tauto; try (intros [_ [?|?]]; discriminate);
     intros [_ ->]; discriminate|].
  destruct (starts_with "lib" (basename name)) eqn:E10;
    [repeat split; try discriminate; try tauto; try (intros [_ [?|?]]; discriminate);
     intros [_ ->]; vm_compute in E10; discriminate|].
  destruct (Nat.eqb_spec (String.length name) 0) as [E11|E11].
  - assert (Hn : name = ""%string) by (destruct name; [reflexivity|discriminate]).
    repeat split; try discriminate; try tauto; try (intros [_ [?|?]]; discriminate).
  - repeat split; try discriminate; try tauto; try (intros [_ [?|?]]; discriminate).
    intros [_ ->]. contradiction.
Qed.

(** *** [elf_vma_is_interp_exception] and a failed read in [vma_peek_phdr] *)

Lemma prefix_app_l a b : forall s,
  String.prefix (a ++ b) s = true -> String.prefix a s = true.
Proof.
  induction a as [|c a IH]; intros s; [destruct s; reflexivity|].
  destruct s as [|d s]; [discriminate|].
  cbn -[ascii_dec]. destruct (ascii_dec c d); [apply IH|discriminate].
Qed.

Lemma prefix_head c a d s : String.prefix (String c a) (String d s) = true -> c = d.
Proof. cbn -[ascii_dec]. destruct (ascii_dec c d); [auto|discriminate]. Qed.

(** X3. [elf_vma_is_interp_exception] compares the whole [name_] of the
    mapping, not its last component: it holds only for a name that
    itself begins with [lib].  For a name that begins with [/], as the
    pathnames of /proc/PID/maps do, it never holds, and a [PT_INTERP]
    header alone decides whether an interpreter was found. *)
Theorem interp_exception_names (v : vma_struct) :
  (elf_vma_is_interp_exception v = true -> starts_with "lib" (name_ v) = true) /\
  (forall rest phs, name_ v = String "/" rest ->
     elf_vma_is_interp_exception v = false /\
     interp_found v phs = existsb (fun ph => p_type ph =? PT_INTERP) phs).
Proof.
  assert (H1 : elf_vma_is_interp_exception v = true ->
               starts_with "lib" (name_ v) = true).
  { unfold elf_vma_is_interp_exception, starts_with.
    destruct (String.prefix "libc" (name_ v)) eqn:E1;
      [intros _; apply (prefix_app_l "lib" "c"); exact E1|].
    destruct (String.prefix "libssp" (name_ v)) eqn:E2;
      [intros _; apply (prefix_app_l "lib" "ssp"); exact E2|].
    destruct (String.prefix "libpthread" (name_ v)) eqn:E3;
      [intros _; apply (prefix_app_l "lib" "pthread"); exact E3|].
    destruct (String.prefix "libdl" (name_ v)) eqn:E4;
      [intros _; apply (prefix_app_l "lib" "dl"); exact E4|].
    cbn. discriminate. }
  split; [exact H1|]. intros rest phs Hn.
  assert (H2 : elf_vma_is_interp_exception v = false).
  { destruct (elf_vma_is_interp_exception v); [|reflexivity].
    specialize (H1 eq_refl). unfold starts_with in H1. rewrite Hn in H1.
    apply prefix_head in H1. discriminate. }
  split; [exact H2|]. unfold interp_found. rewrite H2. cbn [negb].
  induction phs as [|ph phs IH]; [reflexivity|]. cbn [existsb].
  now rewrite IH, andb_true_r.
Qed.

(** X4. When reading the ELF header from the target fails,
    [memcpy_from_task] returning a negative [int], the comparison with
    [sizeof(ehdr)] is made in [unsigned long] and does not see the
    failure: [vma_peek_phdr] goes on with the zeroed header, finds no
    ELF magic and returns 0, the mapping unchanged, where the code
    means to return -1. *)
Theorem vma_peek_phdr_read_error (env : peek_env) (a : list vma_struct)
  (vi : nat) (r : Z)
  (Hread : fst (read_ehdr env (start (deref a vi))) = r)
  (Hneg : - 2 ^ 31 <= r < 0) :
  vma_peek_phdr env a vi = (0, a).
Proof.
  unfold vma_peek_phdr.
  destruct (read_ehdr env (start (deref a vi))) as [r' got]. cbn [fst] in Hread.
  subst r'.
  assert (Hbig : (u64 r <? sizeof_Ehdr) = false).
  { apply Z.ltb_ge. unfold u64, sizeof_Ehdr.
    replace r with ((2 ^ 64 + r) + (-1) * 2 ^ 64) by lia.
    rewrite Z_mod_plus_full, Z.mod_small by lia. lia. }
  assert (Hz : (r <=? 0) = true) by (apply Z.leb_le; lia).
  rewrite Hbig, Hz. cbn [negb].
  change (check_ehdr_magic_is_ok ehdr_zero) with false. cbn [negb].
  destruct (type (deref a vi)); try reflexivity;
    destruct (_ || _); reflexivity.
Qed.

Lemma vma_peek_phdr_read_error_witness :
  vma_peek_phdr
    (mkPeek (fun _ => (-5, libc_ehdr)) (fun _ => true) (fun _ sz => (sz, libc_phdrs)))
    [new_vma "/usr/bin/app" 0 libc_ro] 0
  = (0, [new_vma "/usr/bin/app" 0 libc_ro]).
Proof.
  apply (vma_peek_phdr_read_error _ _ 0%nat (-5)); [reflexivity|lia].
Defined.

End ClassifyFacts.

Module LookupFacts.
Import Word Vma VmaFacts Lookup.

(** *** The tree holds every line of a listing without overlaps *)

Ltac solve_no_overlap :=
  repeat match goal with
         | |- _ /\ _ => split
         | |- True => exact I
         | |- Forall _ [] => constructor
         | |- Forall _ (_ :: _) => constructor
         | |- lines_apart _ _ => unfold lines_apart; cbn; lia
         | |- line_range_ok _ => unfold line_range_ok; cbn; lia
         end.

Lemma no_overlap_app_inv ls ln rest :
  no_overlap (ls ++ ln :: rest) -> Forall (fun l' => lines_apart l' ln) ls.
Proof.
  induction ls as [|l ls IH]; cbn [app no_overlap]; intros H; [constructor|].
  destruct H as [Hl Hrest]. constructor; [|now apply IH].
  rewrite Forall_forall in Hl. apply Hl. apply list_elem_of_In.
  apply in_or_app. right. now left.
Qed.

Lemma rb_insert_ptr_in a rb new x :
  In x (rb_insert_ptr a rb new) -> x = new \/ In x rb.
Proof.
  induction rb as [|n rest IH]; cbn [rb_insert_ptr].
  - intros [<-|[]]. now left.
  - destruct (_ <? 0); [intros [<-|H]; [now left|now right]|].
    destruct (_ =? 0); [intros H; now right|].
    intros [<-|H]; [right; now left|].
    destruct (IH H) as [->|H']; [now left|right; now right].
Qed.

Lemma rb_insert_ptr_NoDup a rb new :
  NoDup rb -> ~ In new rb -> NoDup (rb_insert_ptr a rb new).
Proof.
  induction rb as [|n rest IH]; intros Hnd Hnew; cbn [rb_insert_ptr].
  - apply NoDup_singleton.
  - destruct (_ <? 0).
    { constructor; [|exact Hnd]. intros H. apply Hnew. now apply list_elem_of_In. }
    destruct (_ =? 0); [exact Hnd|].
    apply NoDup_cons in Hnd as [Hn Hrest].
    constructor.
    + intros H. apply list_elem_of_In in H.
      apply rb_insert_ptr_in in H as [->|H].
      * apply Hnew. now left.
      * apply Hn. now apply list_elem_of_In.
    + apply IH; [exact Hrest|]. intros H. apply Hnew. now right.
Qed.

Lemma rb_insert_ptr_perm a rb new :
  (forall n, In n rb -> __vma_rb_cmp (deref a n) (deref a new) <> 0) ->
  rb_insert_ptr a rb new ≡ₚ new :: rb.
Proof.
  induction rb as [|n rest IH]; intros Hne; cbn [rb_insert_ptr]; [reflexivity|].
  destruct (_ <? 0); [reflexivity|].
  destruct (Z.eqb_spec (__vma_rb_cmp (deref a n) (deref a new)) 0) as [H0|_].
  { exfalso. apply (Hne n); [now left|exact H0]. }
  rewrite IH by (intros m Hm; apply Hne; now right).
  apply Permutation_swap.
Qed.

Lemma apart_cmp v new :
  end_ v <= start new \/ end_ new <= start v -> __vma_rb_cmp v new <> 0.
Proof.
  intros H. destruct (cmp_cases v new) as [[-> _]|[[_ Hc]|[-> _]]]; lia.
Qed.

Lemma read_one_line_rb t prev ln :
  vmas_rb (fst (read_one_line t prev ln)) =
  rb_insert_ptr (arena (fst (read_one_line t prev ln))) (vmas_rb t)
                (length (arena t)).
Proof. reflexivity. Qed.

Lemma read_one_line_ranges t prev ln :
  let a' := arena (fst (read_one_line t prev ln)) in
  length a' = S (length (arena t)) /\
  (forall i, (i < length (arena t))%nat ->
     same_range (deref (arena t) i) (deref a' i)) /\
  start (deref a' (length (arena t))) = l_start ln /\
  end_ (deref a' (length (arena t))) = l_end ln.
Proof.
  cbn zeta. rewrite read_one_line_arena.
  set (n := length (arena t)).
  set (a1 := arena t ++ [new_vma (exe t) n ln]).
  destruct (link_leader_range a1 n prev) as [Hlen Hsame].
  assert (Hlen1 : length a1 = S n) by (unfold a1; rewrite length_app; cbn; lia).
  split; [congruence|]. split.
  - intros i Hi. eapply same_range_trans; [|apply Hsame].
    unfold a1. rewrite deref_app_l by exact Hi. split; reflexivity.
  - destruct (Hsame n) as [Hs He]. rewrite <- Hs, <- He.
    unfold a1, n. rewrite deref_app_new. split; reflexivity.
Qed.

Lemma read_one_line_lines t prev ln ls :
  lines_inv t ls -> Forall (fun l' => lines_apart l' ln) ls ->
  lines_inv (fst (read_one_line t prev ln)) (ls ++ [ln]).
Proof.
  intros (Hlen & Hrng & Hperm) Hap.
  destruct (read_one_line_ranges t prev ln) as (Hlen' & Hold & Hs & He).
  set (t' := fst (read_one_line t prev ln)) in *.
  assert (Hrng' : forall k l, (ls ++ [ln]) !! k = Some l ->
            start (deref (arena t') k) = l_start l /\
            end_ (deref (arena t') k) = l_end l).
  { intros k l Hk. destruct (Nat.lt_ge_cases k (length ls)) as [Hlt|Hge].
    - rewrite lookup_app_l in Hk by exact Hlt.
      destruct (Hold k ltac:(lia)) as [<- <-]. now apply Hrng.
    - rewrite lookup_app_r in Hk by exact Hge.
      destruct (k - length ls)%nat as [|m] eqn:Ek; [|discriminate].
      injection Hk as <-. replace k with (length (arena t)) by lia.
      split; assumption. }
  unfold lines_inv. rewrite length_app. cbn [length].
  split; [lia|]. split; [exact Hrng'|].
  unfold t'. rewrite read_one_line_rb. fold t'.
  rewrite rb_insert_ptr_perm.
  - rewrite Hperm, Hlen. replace (length ls + 1)%nat with (S (length ls)) by lia.
    rewrite seq_S. cbn [Nat.add]. apply Permutation_cons_append.
  - intros m Hm. apply apart_cmp.
    assert (Hmlt : (m < length ls)%nat).
    { apply list_elem_of_In in Hm. rewrite Hperm in Hm.
      apply elem_of_seq in Hm. lia. }
    destruct (lookup_lt_is_Some_2 ls m Hmlt) as [lm Hlm].
    destruct (Hrng' m lm) as [-> ->]; [now rewrite lookup_app_l|].
    destruct (Hrng' (length (arena t)) ln) as [-> ->].
    { rewrite Hlen, lookup_app_r by lia. now rewrite Nat.sub_diag. }
    rewrite Forall_forall in Hap. apply (Hap lm).
    eapply list_elem_of_lookup_2. exact Hlm.
Qed.

Lemma read_lines_lines rest : forall t prev ls,
  lines_inv t ls -> no_overlap (ls ++ rest) ->
  lines_inv (snd (read_lines t prev (map Some rest))) (ls ++ rest).
Proof.
  induction rest as [|ln rest IH]; intros t prev ls Hinv Hno.
  - rewrite app_nil_r. exact Hinv.
  - cbn [map read_lines].
    pose proof (read_one_line_lines t prev ln ls Hinv
                  (no_overlap_app_inv _ _ _ Hno)) as Hstep.
    destruct (read_one_line t prev ln) as [t1 prev1]. cbn [fst] in Hstep.
    replace (ls ++ ln :: rest) with ((ls ++ [ln]) ++ rest) in *
      by (now rewrite <- app_assoc).
    now apply IH.
Qed.

Lemma read_task_vmas_invs t0 update lines :
  (update = false -> arena t0 = [] /\ vmas_rb t0 = []) ->
  Forall line_range_ok lines -> no_overlap lines ->
  let t := snd (read_task_vmas t0 update (Some (map Some lines))) in
  tree_inv t /\ lines_inv t lines.
Proof.
  intros Hfresh Hrange Hno. cbn zeta. unfold read_task_vmas.
  set (t1 := if update then free_task_vmas t0 else t0).
  assert (H0 : arena t1 = [] /\ vmas_rb t1 = []).
  { unfold t1. destruct update; [split; reflexivity|now apply Hfresh]. }
  destruct H0 as [Ha Hrb]. split.
  - apply read_lines_tree; [|exact Hrange].
    unfold tree_inv, tree_nodes. rewrite Ha, Hrb.
    split; [constructor|]. split; [exact I|]. cbn. intros i Hi. lia.
  - apply (read_lines_lines lines t1 None []); [|exact Hno].
    unfold lines_inv. rewrite Ha, Hrb. split; [reflexivity|].
    split; [intros k ln Hk; discriminate|reflexivity].
Qed.

(** *** [find_vma] *)

Lemma find_cmp_cases v vaddr :
  (__find_vma_cmp v vaddr = -1 /\ vaddr < start v) \/
  (__find_vma_cmp v vaddr = 0 /\ start v <= vaddr < end_ v) \/
  (__find_vma_cmp v vaddr = 1 /\ start v <= vaddr /\ end_ v <= vaddr).
Proof.
  unfold __find_vma_cmp.
  destruct (Z.gtb_spec (start v) vaddr); [left; lia|].
  destruct (Z.leb_spec (start v) vaddr); [|lia].
  destruct (Z.gtb_spec (end_ v) vaddr); cbn [andb]; [right; left; lia|].
  right; right; lia.
Qed.

Lemma ascending_all a v rest :
  ascending (map (deref a) (v :: rest)) ->
  Forall (fun i => vma_range_ok (deref a i)) rest ->
  forall w, In w rest -> end_ (deref a v) <= start (deref a w).
Proof.
  revert v. induction rest as [|x rest IH]; intros v Hasc Hok w Hw; [destruct Hw|].
  cbn [map] in Hasc. destruct Hasc as (_ & Hvx & Hasc).
  inversion Hok as [|? ? Hx Hrest]; subst.
  destruct Hw as [<-|Hw]; [exact Hvx|].
  specialize (IH x Hasc Hrest w Hw). unfold vma_range_ok in Hx. lia.
Qed.

Lemma rb_search_found a vaddr k : forall rb,
  ascending (map (deref a) rb) ->
  Forall (fun i => vma_range_ok (deref a i)) rb ->
  In k rb -> start (deref a k) <= vaddr < end_ (deref a k) ->
  rb_search_node a rb vaddr = Some k.
Proof.
  induction rb as [|n rest IH]; intros Hasc Hok Hin Hk; [destruct Hin|].
  cbn [rb_search_node]. inversion Hok as [|? ? Hn Hrest]; subst.
  destruct Hin as [->|Hin].
  - destruct (find_cmp_cases (deref a k) vaddr) as [[_ Hc]|[[-> _]|[_ Hc]]];
      [lia|reflexivity|lia].
  - pose proof (ascending_all a n rest Hasc Hrest k Hin) as Hle.
    unfold vma_range_ok in Hn.
    destruct (find_cmp_cases (deref a n) vaddr) as [[_ Hc]|[[_ Hc]|[-> _]]];
      [lia|lia|].
    cbn. apply IH; try assumption.
    change (ascending (map (deref a) (n :: rest))) in Hasc.
    cbn [map] in Hasc. eapply ascending_tail. exact Hasc.
Qed.

Lemma rb_search_none a vaddr : forall rb,
  (forall i, In i rb -> ~ (start (deref a i) <= vaddr < end_ (deref a i))) ->
  rb_search_node a rb vaddr = None.
Proof.
  induction rb as [|n rest IH]; intros Hno; [reflexivity|].
  cbn [rb_search_node].
  destruct (find_cmp_cases (deref a n) vaddr) as [[-> _]|[[_ Hc]|[-> _]]].
  - reflexivity.
  - exfalso. apply (Hno n); [now left|exact Hc].
  - cbn. apply IH. intros i Hi. apply Hno. now right.
Qed.

Lemma find_vma_lines (t : task) (lines : list maps_line) (vaddr : Z) :
  tree_inv t -> lines_inv t lines ->
  (forall k ln, lines !! k = Some ln -> line_has ln vaddr ->
     find_vma t vaddr = Some k /\
     start (deref (arena t) k) = l_start ln /\
     end_ (deref (arena t) k) = l_end ln) /\
  ((forall ln, In ln lines -> ~ line_has ln vaddr) -> find_vma t vaddr = None).
Proof.
  intros (Hbound & Hasc & Hok) (Hlen & Hrng & Hperm).
  assert (Hok' : Forall (fun i => vma_range_ok (deref (arena t) i)) (vmas_rb t)).
  { eapply Forall_impl; [exact Hbound|]. cbn. intros i Hi. now apply Hok. }
  split.
  - intros k ln Hk Hhas. destruct (Hrng k ln Hk) as [Hs He].
    split; [|split; assumption]. unfold find_vma.
    apply rb_search_found; try assumption.
    + apply list_elem_of_In. rewrite Hperm. apply elem_of_seq.
      apply lookup_lt_Some in Hk. lia.
    + unfold line_has in Hhas. lia.
  - intros Hno. unfold find_vma. apply rb_search_none. intros i Hi Hc.
    assert (Hilt : (i < length lines)%nat).
    { apply list_elem_of_In in Hi. rewrite Hperm in Hi. apply elem_of_seq in Hi. lia. }
    destruct (lookup_lt_is_Some_2 lines i Hilt) as [li Hli].
    destruct (Hrng i li Hli) as [Hs He].
    apply (Hno li).
    + apply list_elem_of_In. eapply list_elem_of_lookup_2. exact Hli.
    + unfold line_has. lia.
Qed.


(** X5. After [read_task_vmas] has read a listing whose lines do not
    overlap, [find_vma] returns for an address inside line [k] the VMA
    made from that line, and NULL for an address that no line holds. *)
Theorem find_vma_spec (t0 : task) (update : bool) (lines : list maps_line)
  (vaddr : Z)
  (Hfresh : update = false -> arena t0 = [] /\ vmas_rb t0 = [])
  (Hrange : Forall line_range_ok lines)
  (Hapart : no_overlap lines) :
  let t := snd (read_task_vmas t0 update (Some (map Some lines))) in
  (forall k ln, lines !! k = Some ln -> line_has ln vaddr ->
     find_vma t vaddr = Some k /\
     start (deref (arena t) k) = l_start ln /\
     end_ (deref (arena t) k) = l_end ln) /\
  ((forall ln, In ln lines -> ~ line_has ln vaddr) -> find_vma t vaddr = None).
Proof.
  intros t.
  destruct (read_task_vmas_invs t0 update lines Hfresh Hrange Hapart)
    as [Htree Hlines].
  fold t in Htree, Hlines.
  exact (find_vma_lines t lines vaddr Htree Hlines).
Qed.

Lemma find_vma_spec_witness :
  let lines := [libc_ro; libc_rx; stack_line] in
  let t := snd (read_task_vmas (fresh_task 1234 "/usr/bin/app") false
                  (Some (map Some lines))) in
  find_vma t 0x7f000006f3d0 = Some 1%nat /\
  find_vma t 0x1000 = None.
Proof.
  intros lines t.
  assert (Hr : Forall line_range_ok lines) by (unfold lines; solve_no_overlap).
  assert (Hn : no_overlap lines) by (unfold lines; cbn; solve_no_overlap).
  destruct (find_vma_spec (fresh_task 1234 "/usr/bin/app") false lines
              0x7f000006f3d0 (fun _ => conj eq_refl eq_refl) Hr Hn)
    as [Hin _].
  destruct (find_vma_spec (fresh_task 1234 "/usr/bin/app") false lines
              0x1000 (fun _ => conj eq_refl eq_refl) Hr Hn)
    as [_ Hout].
  split.
  - apply (Hin 1%nat libc_rx); [reflexivity|]. unfold line_has. cbn. lia.
  - apply Hout. intros ln Hl. unfold line_has.
    destruct Hl as [<-|[<-|[<-|[]]]]; cbn; lia.
Defined.

(** *** [next_vma] *)

Lemma rb_next_middle pre x post :
  ~ In x pre -> rb_next (pre ++ x :: post) x = head post.
Proof.
  induction pre as [|p pre IH]; intros Hx; cbn [app rb_next].
  - now rewrite Nat.eqb_refl.
  - destruct (Nat.eqb_spec p x) as [->|_]; [exfalso; apply Hx; now left|].
    apply IH. intros H. apply Hx. now right.
Qed.

Lemma for_each_vma_from t : forall post pre x fuel,
  vmas_rb t = pre ++ x :: post -> NoDup (vmas_rb t) ->
  (length post < fuel)%nat ->
  for_each_vma fuel t (Some x) = x :: post.
Proof.
  induction post as [|y post IH]; intros pre x fuel Hrb Hnd Hfuel.
  - destruct fuel as [|fuel]; [lia|]. cbn [for_each_vma next_vma].
    rewrite Hrb, rb_next_middle.
    + destruct fuel; reflexivity.
    + rewrite Hrb in Hnd. apply NoDup_app in Hnd as (_ & Hd & _).
      intros H. apply (Hd x); [now apply list_elem_of_In|left].
  - destruct fuel as [|fuel]; [cbn in Hfuel; lia|]. cbn [for_each_vma next_vma].
    assert (Hx : ~ In x pre).
    { rewrite Hrb in Hnd. apply NoDup_app in Hnd as (_ & Hd & _).
      intros H. apply (Hd x); [now apply list_elem_of_In|left]. }
    rewrite Hrb at 1. rewrite rb_next_middle by exact Hx. cbn [head].
    f_equal. apply (IH (pre ++ [x])).
    + now rewrite <- app_assoc.
    + exact Hnd.
    + cbn in Hfuel. lia.
Qed.

Lemma for_each_vma_all t fuel :
  NoDup (vmas_rb t) -> (length (vmas_rb t) <= fuel)%nat ->
  for_each_vma fuel t (next_vma t None) = vmas_rb t.
Proof.
  intros Hnd Hfuel. unfold next_vma, rb_first.
  destruct (vmas_rb t) as [|x post] eqn:Hrb; cbn [head].
  - destruct fuel; reflexivity.
  - apply (for_each_vma_from t post [] x fuel); [exact Hrb| |cbn in Hfuel; lia].
    now rewrite Hrb.
Qed.

(** X6. After [read_task_vmas] has read a listing whose lines do not
    overlap, the walk [next_vma(task, NULL)], [next_vma(task, vma)], ...
    visits the VMA of every line once, lowest address first, and ends
    with NULL after as many steps as there are lines, in whatever order
    the listing gave them. *)
Theorem next_vma_walk (t0 : task) (update : bool) (lines : list maps_line)
  (fuel : nat)
  (Hfresh : update = false -> arena t0 = [] /\ vmas_rb t0 = [])
  (Hrange : Forall line_range_ok lines)
  (Hapart : no_overlap lines)
  (Hfuel : (length lines <= fuel)%nat) :
  let t := snd (read_task_vmas t0 update (Some (map Some lines))) in
  let walk := for_each_vma fuel t (next_vma t None) in
  walk ≡ₚ seq 0 (length lines) /\
  ascending (map (deref (arena t)) walk) /\
  (forall k ln, lines !! k = Some ln ->
     start (deref (arena t) k) = l_start ln /\
     end_ (deref (arena t) k) = l_end ln).
Proof.
  intros t walk.
  destruct (read_task_vmas_invs t0 update lines Hfresh Hrange Hapart)
    as [(Hbound & Hasc & Hok) (Hlen & Hrng & Hperm)].
  fold t in Hbound, Hasc, Hok, Hlen, Hrng, Hperm.
  assert (Hwalk : walk = vmas_rb t).
  { apply for_each_vma_all.
    - rewrite Hperm. apply NoDup_seq.
    - rewrite Hperm, length_seq. exact Hfuel. }
  rewrite Hwalk. split; [exact Hperm|]. split; [exact Hasc|exact Hrng].
Qed.

Lemma next_vma_walk_witness :
  let lines := [stack_line; libc_rx; libc_ro] in
  let t := snd (read_task_vmas (fresh_task 1234 "/usr/bin/app") false
                  (Some (map Some lines))) in
  for_each_vma 3 t (next_vma t None) = [2; 1; 0]%nat /\
  for_each_vma 3 t (next_vma t None) ≡ₚ seq 0 3.
Proof.
  intros lines t. split; [reflexivity|].
  assert (Hr : Forall line_range_ok lines) by (unfold lines; solve_no_overlap).
  assert (Hn : no_overlap lines) by (unfold lines; cbn; solve_no_overlap).
  exact (proj1 (next_vma_walk (fresh_task 1234 "/usr/bin/app") false lines 3
                  (fun _ => conj eq_refl eq_refl) Hr Hn (le_n 3))).
Defined.

End LookupFacts.

Module ReadFacts.
Import Word Vma VmaFacts Lookup LookupFacts.

(** *** What [read_task_vmas] picks and what it leaves on failure *)

Lemma read_one_line_picks t prev ln :
  let t' := fst (read_one_line t prev ln) in
  exe t' = exe t /\
  length (arena t') = S (length (arena t)) /\
  libc_vma t' =
    match libc_vma t with
    | Some l => Some l
    | None => if is_exec_libc_line (exe t) ln
              then Some (length (arena t)) else None
    end /\
  stack t' =
    match stack t with
    | Some s => Some s
    | None => if is_stack_line (exe t) ln
              then Some (length (arena t)) else None
    end.
Proof.
  cbn zeta. split; [reflexivity|].
  split; [apply (read_one_line_ranges t prev ln)|].
  split; reflexivity.
Qed.

Lemma first_index_shift {A} (f : A -> bool) l : forall i,
  first_index f l (S i) = S <$> first_index f l i.
Proof.
  induction l as [|x l IH]; intros i; cbn [first_index]; [reflexivity|].
  destruct (f x); [reflexivity|apply IH].
Qed.

Lemma read_lines_picks lines : forall t prev,
  let t' := snd (read_lines t prev (map Some lines)) in
  libc_vma t' =
    match libc_vma t with
    | Some l => Some l
    | None => first_index (is_exec_libc_line (exe t)) lines (length (arena t))
    end /\
  stack t' =
    match stack t with
    | Some s => Some s
    | None => first_index (is_stack_line (exe t)) lines (length (arena t))
    end.
Proof.
  induction lines as [|ln lines IH]; intros t prev; cbn [map read_lines].
  - cbn. split; [now destruct (libc_vma t)|now destruct (stack t)].
  - destruct (read_one_line_picks t prev ln) as (He & Hlen & Hl & Hs).
    destruct (read_one_line t prev ln) as [t1 prev1]. cbn [fst] in *.
    destruct (IH t1 prev1) as [Hl' Hs']. cbn zeta in Hl', Hs'.
    rewrite Hl', Hs', Hl, Hs, He, Hlen. cbn [first_index]. split.
    + destruct (libc_vma t); [reflexivity|].
      destruct (is_exec_libc_line (exe t) ln); reflexivity.
    + destruct (stack t); [reflexivity|].
      destruct (is_stack_line (exe t) ln); reflexivity.
Qed.

(** X7. [read_task_vmas] makes [task->libc_vma] the VMA of the first
    line of the listing that is typed [VMA_LIBC] and executable, and
    [task->stack] that of the first [[stack]] line; lines further down
    never replace them. *)
Theorem read_task_vmas_first_match (t0 : task) (update : bool)
  (lines : list maps_line)
  (Hfresh : update = false ->
            arena t0 = [] /\ libc_vma t0 = None /\ stack t0 = None) :
  let t := snd (read_task_vmas t0 update (Some (map Some lines))) in
  libc_vma t = first_index (is_exec_libc_line (exe t0)) lines 0 /\
  stack t = first_index (is_stack_line (exe t0)) lines 0.
Proof.
  cbn zeta. unfold read_task_vmas.
  set (t1 := if update then free_task_vmas t0 else t0).
  assert (H0 : arena t1 = [] /\ libc_vma t1 = None /\ stack t1 = None /\
               exe t1 = exe t0).
  { unfold t1. destruct update; [repeat split; reflexivity|].
    destruct (Hfresh eq_refl) as (? & ? & ?). repeat split; assumption. }
  destruct H0 as (Ha & Hl & Hs & He).
  destruct (read_lines_picks lines t1 None) as [Hl' Hs']. cbn zeta in Hl', Hs'.
  rewrite Hl', Hs', Hl, Hs, Ha, He. split; reflexivity.
Qed.

Lemma read_task_vmas_first_match_witness :
  let t := snd (read_task_vmas (fresh_task 1234 "/usr/bin/app") false
                  (Some (map Some [libc_ro; libc_rx; stack_line]))) in
  libc_vma t = Some 1%nat /\ stack t = Some 2%nat.
Proof.
  exact (read_task_vmas_first_match (fresh_task 1234 "/usr/bin/app") false
           [libc_ro; libc_rx; stack_line]
           (fun _ => conj eq_refl (conj eq_refl eq_refl))).
Defined.

Lemma read_lines_bad pre post : forall t prev,
  read_lines t prev (map Some pre ++ None :: post) =
  (-1, snd (read_lines t prev (map Some pre))) /\
  fst (read_lines t prev (map Some pre)) = 0.
Proof.
  induction pre as [|ln pre IH]; intros t prev; cbn [map app read_lines].
  - split; reflexivity.
  - destruct (read_one_line t prev ln) as [t1 prev1]. apply IH.
Qed.

(** X8. A line that [sscanf] rejects ends [read_task_vmas] with -1
    and leaves in the task every VMA read before that line; the lines
    behind it are not read.  When every line is accepted the result is
    0, and when the listing cannot be opened during an update the task
    is left without any VMA, libc or stack. *)
Theorem read_task_vmas_failure (t0 : task) (update : bool)
  (pre : list maps_line) (post : list (option maps_line)) :
  read_task_vmas t0 update (Some (map Some pre ++ None :: post)) =
  (-1, snd (read_task_vmas t0 update (Some (map Some pre)))) /\
  fst (read_task_vmas t0 update (Some (map Some pre))) = 0 /\
  length (arena (snd (read_task_vmas t0 true (Some (map Some pre)))))
  = length pre /\
  (let t := snd (read_task_vmas t0 true None) in
   fst (read_task_vmas t0 true None) = -1 /\
   arena t = [] /\ vmas t = [] /\ vmas_rb t = [] /\
   libc_vma t = None /\ stack t = None).
Proof.
  unfold read_task_vmas.
  destruct (read_lines_bad pre post (if update then free_task_vmas t0 else t0) None)
    as [H1 H2].
  split; [exact H1|]. split; [exact H2|]. split; [|repeat split].
  assert (H : forall ls t prev,
             length (arena (snd (read_lines t prev (map Some ls))))
             = (length (arena t) + length ls)%nat).
  { induction ls as [|ln ls IH]; intros t prev; cbn [map read_lines].
    - cbn. lia.
    - destruct (read_one_line_picks t prev ln) as (_ & Hlen & _).
      destruct (read_one_line t prev ln) as [t1 prev1]. cbn [fst] in Hlen.
      rewrite IH, Hlen. cbn. lia. }
  rewrite H. reflexivity.
Qed.

End ReadFacts.

Module ElfFreeFacts.
Import Word Vma VmaFacts Lookup LookupFacts.

(** *** [vma_peek_phdr], [vma_free_elf] and the [elf] pointer *)

Lemma deref_insert_field {B} (f : vma_struct -> B) a j (g : vma_struct -> vma_struct) i :
  (forall v, f (g v) = f v) ->
  f (deref (<[j := g (deref a j)]> a) i) = f (deref a i).
Proof.
  intros Hg. destruct (Nat.eq_dec j i) as [->|Hne].
  - destruct (Nat.lt_ge_cases i (length a)) as [Hlt|Hge].
    + rewrite deref_insert_eq by exact Hlt. apply Hg.
    + now rewrite list_insert_ge by exact Hge.
  - now rewrite deref_insert_ne by exact Hne.
Qed.

Lemma link_leader_field {B} (f : vma_struct -> B) a vma prev i :
  (forall v l, f (set_leader v l) = f v) ->
  (forall v s, f (set_siblings v s) = f v) ->
  f (deref (link_leader a vma prev) i) = f (deref a i).
Proof.
  intros Hl Hs. unfold link_leader.
  destruct prev as [p|]; [|reflexivity].
  destruct (String.eqb _ _); [|reflexivity].
  destruct (leader (deref a p)) as [ld|]; [|reflexivity].
  set (a1 := <[vma := _]> a).
  rewrite (deref_insert_field f a1 ld
             (fun v => set_siblings v (list_add vma (siblings (deref a1 ld)))) i)
    by (intros v; apply Hs).
  unfold a1.
  apply (deref_insert_field f a vma (fun v => set_leader v (Some ld)) i).
  intros v. apply Hl.
Qed.

(** The VMA of line [k] keeps every field of the line that linking
    leaders does not touch. *)
Lemma read_lines_field {B} (f : vma_struct -> B) :
  (forall v l, f (set_leader v l) = f v) ->
  (forall v s, f (set_siblings v s) = f v) ->
  forall rest t prev ls,
    length (arena t) = length ls ->
    (forall k ln, ls !! k = Some ln ->
       f (deref (arena t) k) = f (new_vma (exe t) k ln)) ->
    let t' := snd (read_lines t prev (map Some rest)) in
    forall k ln, (ls ++ rest) !! k = Some ln ->
      f (deref (arena t') k) = f (new_vma (exe t) k ln).
Proof.
  intros Hl Hs. induction rest as [|ln rest IH]; intros t prev ls Hlen Hf.
  - cbn. rewrite app_nil_r. exact Hf.
  - cbn [map read_lines]. cbn zeta.
    assert (Hstep : let t1 := fst (read_one_line t prev ln) in
              exe t1 = exe t /\ length (arena t1) = length (ls ++ [ln]) /\
              forall k l, (ls ++ [ln]) !! k = Some l ->
                f (deref (arena t1) k) = f (new_vma (exe t) k l)).
    { cbn zeta. split; [reflexivity|].
      destruct (read_one_line_ranges t prev ln) as (Hlen' & _).
      split; [rewrite Hlen', length_app; cbn; lia|].
      intros k l Hk. rewrite read_one_line_arena.
      rewrite (link_leader_field f) by assumption.
      destruct (Nat.lt_ge_cases k (length ls)) as [Hlt|Hge].
      - rewrite lookup_app_l in Hk by exact Hlt.
        rewrite deref_app_l by lia. now apply Hf.
      - rewrite lookup_app_r in Hk by exact Hge.
        destruct (k - length ls)%nat as [|m] eqn:Ek; [|discriminate].
        injection Hk as <-. replace k with (length (arena t)) by lia.
        now rewrite deref_app_new. }
    destruct (read_one_line t prev ln) as [t1 prev1]. cbn [fst] in Hstep.
    destruct Hstep as (He & Hlen1 & Hf1).
    intros k l Hk. rewrite <- He.
    apply (IH t1 prev1 (ls ++ [ln])); [exact Hlen1| |now rewrite <- app_assoc].
    intros k' l' Hk'. rewrite He. now apply Hf1.
Qed.

Lemma read_task_vmas_field {B} (f : vma_struct -> B) t0 update lines :
  (forall v l, f (set_leader v l) = f v) ->
  (forall v s, f (set_siblings v s) = f v) ->
  (update = false -> arena t0 = []) ->
  let t := snd (read_task_vmas t0 update (Some (map Some lines))) in
  forall k ln, lines !! k = Some ln ->
    f (deref (arena t) k) = f (new_vma (exe t0) k ln).
Proof.
  intros Hl Hs Hfresh. cbn zeta. unfold read_task_vmas.
  set (t1 := if update then free_task_vmas t0 else t0).
  assert (H0 : arena t1 = [] /\ exe t1 = exe t0).
  { unfold t1. destruct update; [split; reflexivity|]. split; [auto|reflexivity]. }
  destruct H0 as [Ha He]. intros k ln Hk. rewrite <- He.
  apply (read_lines_field f Hl Hs lines t1 None []); [now rewrite Ha| |exact Hk].
  intros k' l' Hk'. discriminate.
Qed.

Lemma read_one_line_unpeeked t prev ln :
  unpeeked t -> unpeeked (fst (read_one_line t prev ln)).
Proof.
  intros (Hno & Hnd & Hb).
  destruct (read_one_line_ranges t prev ln) as (Hlen & _).
  unfold unpeeked. rewrite read_one_line_rb, Hlen. split; [|split].
  - intros i. rewrite read_one_line_arena.
    rewrite (link_leader_field is_elf) by reflexivity.
    destruct (Nat.lt_ge_cases i (length (arena t))) as [Hlt|Hge].
    + rewrite deref_app_l by exact Hlt. apply Hno.
    + destruct (Nat.eq_dec i (length (arena t))) as [->|Hne].
      * now rewrite deref_app_new.
      * rewrite deref_ge; [reflexivity|]. rewrite length_app. cbn. lia.
  - apply rb_insert_ptr_NoDup; [exact Hnd|].
    intros H. rewrite Forall_forall in Hb.
    apply list_elem_of_In in H. apply Hb in H. lia.
  - apply rb_insert_ptr_bound; [|lia].
    eapply Forall_impl; [exact Hb|]. cbn. intros i Hi. lia.
Qed.

Lemma read_lines_unpeeked lines : forall t prev,
  unpeeked t -> unpeeked (snd (read_lines t prev lines)).
Proof.
  induction lines as [|[ln|] lines IH]; intros t prev Hu; cbn [read_lines];
    try exact Hu.
  pose proof (read_one_line_unpeeked t prev ln Hu) as Hstep.
  destruct (read_one_line t prev ln) as [t1 prev1]. now apply IH.
Qed.

Lemma vma_peek_phdr_elf_ok env a vi :
  elf_ok a -> elf_ok (snd (vma_peek_phdr env a vi)).
Proof.
  intros Hok. unfold vma_peek_phdr.
  assert (Hfreed : forall sl,
            elf_ok (<[vi := set_elf (deref a vi) ElfFreed false sl]> a)).
  { intros sl i Hi. destruct (Nat.eq_dec vi i) as [->|Hne].
    - destruct (Nat.lt_ge_cases i (length a)) as [Hlt|Hge].
      + rewrite deref_insert_eq in Hi by exact Hlt. discriminate.
      + rewrite list_insert_ge in * by exact Hge. now apply Hok.
    - rewrite deref_insert_ne in * by exact Hne. now apply Hok. }
  destruct (read_ehdr env (start (deref a vi))) as [r got].
  set (eh := if r <=? 0 then ehdr_zero else got).
  destruct (read_phdrs env (add64 (start (deref a vi)) (e_phoff eh))
                       (u32 (e_phnum eh * sizeof_Phdr))) as [r2 buf].
  set (phs := take (Z.to_nat (e_phnum eh)) buf).
  rewrite (surjective_pairing (load_loop a (ring_from a vi) phs ULONG_MAX)).
  destruct (load_loop_spec (ring_from a vi) phs a ULONG_MAX) as (Hlen & Hvo & _).
  set (a1 := fst (load_loop a (ring_from a vi) phs ULONG_MAX)) in *.
  set (low := snd (load_loop a (ring_from a vi) phs ULONG_MAX)) in *.
  assert (Hok1 : elf_ok a1).
  { intros i Hi. destruct (Hvo i) as [Hs _]. rewrite Hs in Hi |- *.
    cbn in Hi |- *. now apply Hok. }
  assert (Hlast :
    elf_ok (snd (if low =? ULONG_MAX
     then (-1, <[vi := set_elf (deref a1 vi) ElfNull false false]> a1)
     else (0, <[vi := set_elf (deref a1 vi)
                        (ElfLive (mkVmaElf eh phs (sub64 (start (deref a1 vi)) low)))
                        true
                        ((if negb (e_type eh =? ET_DYN) then false
                          else negb (interp_found (deref a vi) phs))
                         || vma_type_eqb (type (deref a vi)) VMA_LIBC
                         || vma_type_eqb (type (deref a vi)) VMA_LIB_DONT_KNOWN)]> a1)))).
  { destruct (low =? ULONG_MAX); cbn [snd]; intros i Hi;
      (destruct (Nat.eq_dec vi i) as [->|Hne];
       [destruct (Nat.lt_ge_cases i (length a1)) as [Hlt|Hge];
        [rewrite deref_insert_eq in * by exact Hlt
        |rewrite list_insert_ge in * by exact Hge; now apply Hok1]
       |rewrite deref_insert_ne in * by exact Hne; now apply Hok1]).
    - discriminate.
    - eexists. reflexivity. }
  set (peeked := match elf (deref a vi) with ElfNull => false | _ => true end
                 || is_elf (deref a vi)).
  destruct (type (deref a vi)); try exact Hok;
    (destruct peeked; [exact Hok|]);
    (destruct (u64 r <? sizeof_Ehdr); [exact Hok|]);
    (destruct (negb (check_ehdr_magic_is_ok eh)); [exact Hok|]);
    (destruct (u32 (e_phnum eh * sizeof_Phdr) =? 0); [apply Hfreed|]);
    (destruct (negb (malloc_phdrs_ok env _)); [apply Hfreed|]);
    (destruct (u32 r2 <? _); [apply Hfreed|]);
    exact Hlast.
Qed.

Lemma peek_all_elf_ok env order : forall a,
  elf_ok a -> elf_ok (peek_all env a order).
Proof.
  induction order as [|v order IH]; intros a Hok; cbn [peek_all]; [exact Hok|].
  apply IH. now apply vma_peek_phdr_elf_ok.
Qed.

Lemma free_elf_all_safe order : forall a,
  NoDup order ->
  (forall i, In i order -> is_elf (deref a i) = true ->
             exists e, elf (deref a i) = ElfLive e) ->
  is_Some (free_elf_all a order).
Proof.
  induction order as [|v order IH]; intros a Hnd Hok; cbn [free_elf_all]; [eauto|].
  apply NoDup_cons in Hnd as [Hv Hnd].
  unfold vma_free_elf.
  destruct (is_elf (deref a v)) eqn:Ee; cbn [negb].
  - destruct (Hok v (or_introl eq_refl) Ee) as [e ->].
    apply IH; [exact Hnd|]. intros i Hi.
    assert (Hne : v <> i).
    { intros ->. apply Hv. now apply list_elem_of_In. }
    rewrite deref_insert_ne by exact Hne. apply Hok. now right.
  - apply IH; [exact Hnd|]. intros i Hi. apply Hok. now right.
Qed.

(** X9. Every task that [open_task] returns can be given to the
    [vma_free_elf] loop of [free_task]: [vma_peek_phdr] sets [is_elf]
    only on a VMA whose [elf] pointer is live, so the loop, which
    visits every VMA of the tree once, frees live allocations only and
    never goes through a NULL pointer or one that [vma_peek_phdr] has
    freed on one of its error paths. *)
Theorem open_task_free_elf_safe (bits : fto_bits) (env : open_env)
  (p flag : Z) (t : task)
  (Hopen : open_task bits env p flag = Some t) :
  elf_ok (arena t) /\ NoDup (vmas_rb t) /\
  is_Some (free_elf_all (arena t) (vmas_rb t)).
Proof.
  unfold open_task in Hopen.
  destruct (mem_fd env <=? 0); [discriminate|].
  set (t0 := mkTask p (exe_link env) flag (mem_fd env) [] [] [] None None
                    None None) in Hopen.
  assert (Hu : unpeeked (snd (read_task_vmas t0 false (maps env)))).
  { assert (H0 : unpeeked t0).
    { split; [intros i; reflexivity|]. split; constructor. }
    unfold read_task_vmas. destruct (maps env) as [lines|]; [|exact H0].
    now apply read_lines_unpeeked. }
  destruct (read_task_vmas t0 false (maps env)) as [r t1]. cbn [snd] in Hu.
  destruct Hu as (Hno & Hnd & Hb).
  destruct (libc_vma t1) as [libc|]; [|discriminate].
  destruct (stack t1) as [stk|]; [|discriminate].
  destruct (_ && _); [discriminate|].
  destruct (_ && _); [discriminate|].
  destruct (_ && _); [discriminate|].
  injection Hopen as <-. cbn [arena vmas_rb].
  assert (Hok : elf_ok (if flag_set flag (FTO_VMA_ELF bits)
                        then peek_all (peek env) (arena t1) (vmas_rb t1)
                        else arena t1)).
  { assert (H1 : elf_ok (arena t1)).
    { intros i Hi. rewrite Hno in Hi. discriminate. }
    destruct (flag_set flag (FTO_VMA_ELF bits)); [|exact H1].
    now apply peek_all_elf_ok. }
  split; [exact Hok|]. split; [exact Hnd|].
  apply free_elf_all_safe; [exact Hnd|]. intros i _. apply Hok.
Qed.

Lemma open_task_free_elf_safe_witness :
  exists t, open_task demo_bits demo_env 1234 4 = Some t /\
            is_Some (free_elf_all (arena t) (vmas_rb t)).
Proof.
  destruct (open_task demo_bits demo_env 1234 4) as [t|] eqn:E;
    [|vm_compute in E; discriminate].
  exists t. split; [reflexivity|].
  exact (proj2 (proj2 (open_task_free_elf_safe demo_bits demo_env 1234 4 t E))).
Defined.

End ElfFreeFacts.

Module WrapperFacts.
Import Word Remote RemoteFacts Wrappers.
Local Open Scope remote_scope.

(** *** [copy_regs] *)

Lemma reg_get_set_eq r i v : (i < length r)%nat -> reg_get (reg_set r i v) i = v.
Proof.
  intros H. unfold reg_get, reg_set, regs. now rewrite list_lookup_insert_eq.
Qed.

Lemma reg_get_set_ne r i j v : i <> j -> reg_get (reg_set r i v) j = reg_get r j.
Proof.
  intros H. unfold reg_get, reg_set, regs. now rewrite list_lookup_insert_ne.
Qed.

Lemma copy_fold src l : forall dst i,
  let r := fold_left (fun d x => reg_set d x (reg_get src x)) l dst in
  length r = length dst /\
  (In i l -> (i < length dst)%nat -> reg_get r i = reg_get src i) /\
  (~ In i l -> reg_get r i = reg_get dst i).
Proof.
  induction l as [|x l IH]; intros dst i; cbn [fold_left].
  - cbn. split; [reflexivity|]. split; [intros []|reflexivity].
  - destruct (IH (reg_set dst x (reg_get src x)) i) as (Hlen & Hin & Hout).
    assert (Hl : length (reg_set dst x (reg_get src x)) = length dst)
      by apply length_insert.
    cbn zeta. split; [congruence|]. split.
    + intros Hi Hlt. destruct (in_dec Nat.eq_dec i l) as [Hil|Hil].
      * apply Hin; [exact Hil|]. now rewrite Hl.
      * rewrite (Hout Hil). destruct Hi as [->|Hi]; [|contradiction].
        now apply reg_get_set_eq.
    + intros Hi. rewrite Hout by (intros H; apply Hi; now right).
      apply reg_get_set_ne. intros ->. apply Hi. now left.
Qed.

(** X10. [copy_regs] gives the destination the value the source has in
    each register of its list and leaves every other register of the
    destination alone; the program counter is not in the list, so the
    address that [task_syscall] has put there before the call stays. *)
Theorem copy_regs_spec (A : arch) (dst src : regs) (i : nat) :
  length (copy_regs A dst src) = length dst /\
  (In i (copied_regs A) -> (i < length dst)%nat ->
   reg_get (copy_regs A dst src) i = reg_get src i) /\
  (~ In i (copied_regs A) ->
   reg_get (copy_regs A dst src) i = reg_get dst i) /\
  reg_get (copy_regs A dst src) (SYSCALL_IP A) = reg_get dst (SYSCALL_IP A).
Proof.
  unfold copy_regs.
  destruct (copy_fold src (copied_regs A) dst i) as (Hlen & Hin & Hout).
  split; [exact Hlen|]. split; [exact Hin|]. split; [exact Hout|].
  apply (copy_fold src (copied_regs A) dst (SYSCALL_IP A)).
  destruct A; cbn; intros H;
    repeat (destruct H as [H|H]; [discriminate|]); exact H.
Qed.


(** *** [wait_for_stop] *)

Lemma wait_loop_result fuel : forall status w r w',
  wait_loop fuel status w = Some (r, w') ->
  exists pre a,
    w_script w = pre ++ a :: w_script w' /\
    ((r = 0 /\ Nat.Odd (length pre) /\ ends_stopped a) \/
     (r = -1 /\ ends_failed a)).
Proof.
  induction fuel as [|fuel IH]; intros status w r w' H; [discriminate|].
  cbn [wait_loop] in H.
  unfold bind at 1 in H. unfold ptrace_cont, bind, next_answer, log, ret in H.
  destruct (w_script w) as [|a rest] eqn:Es; [discriminate|]. cbn in H.
  destruct (a_errno a) as [e|] eqn:Ea; cbn in H.
  - injection H as <- <-. exists [], a. cbn. split; [reflexivity|].
    right. split; [reflexivity|]. left. rewrite Ea. eauto.
  - unfold waitpid, bind, next_answer, get_target, set_target, log, ret in H.
    cbn in H. destruct rest as [|b rest]; [discriminate|]. cbn in H.
    assert (Hrec : forall st w1,
               w_script w1 = rest ->
               wait_loop fuel st w1 = Some (r, w') ->
               exists pre a0,
                 a :: b :: rest = pre ++ a0 :: w_script w' /\
                 ((r = 0 /\ Nat.Odd (length pre) /\ ends_stopped a0) \/
                  (r = -1 /\ ends_failed a0))).
    { intros st w1 Hs Hw.
      destruct (IH st w1 r w' Hw) as (pre & a0 & Hsc & Hcase).
      exists (a :: b :: pre), a0. split; [cbn; rewrite <- Hsc, Hs; reflexivity|].
      destruct Hcase as [(Hr & Hodd & Hst)|Hf]; [left|now right].
      split; [exact Hr|]. split; [|exact Hst].
      cbn [length]. destruct Hodd as [k Hk]. exists (S k). lia. }
    destruct (a_errno b) as [e|] eqn:Eb; cbn in H.
    + injection H as <- <-. exists [a], b. cbn. split; [reflexivity|].
      right. split; [reflexivity|]. left. rewrite Eb. eauto.
    + destruct (a_status b) as [sig|sig|] eqn:Est; cbn in H.
      * destruct (Z.eqb_spec sig SIGSTOP) as [Hstop|Hstop]; cbn [orb] in H;
          [|destruct (Z.eqb_spec sig SIGTRAP) as [Htrap|Htrap]].
        -- injection H as <- <-. exists [a], b. cbn. split; [reflexivity|].
           left. split; [reflexivity|]. split; [exists 0%nat; reflexivity|].
           split; [exact Eb|]. exists sig. split; [exact Est|now left].
        -- injection H as <- <-. exists [a], b. cbn. split; [reflexivity|].
           left. split; [reflexivity|]. split; [exists 0%nat; reflexivity|].
           split; [exact Eb|]. exists sig. split; [exact Est|now right].
        -- destruct (Z.eqb_spec sig SIGSEGV) as [Hsegv|Hsegv].
           ++ injection H as <- <-. exists [a], b. cbn. split; [reflexivity|].
              right. split; [reflexivity|]. right. now rewrite Est, Hsegv.
           ++ eapply Hrec; [|exact H]. reflexivity.
      * eapply Hrec; [|exact H]. reflexivity.
      * eapply Hrec; [|exact H]. reflexivity.
Qed.

(** X11. [wait_for_stop] returns 0 exactly when the last thing it did
    was a [waitpid] that reported a stop by [SIGSTOP] or [SIGTRAP], and
    -1 exactly when its last call failed or [waitpid] reported a stop
    by [SIGSEGV]; it takes its answers in pairs, one [PTRACE_CONT] and
    one [waitpid] per turn. *)
Theorem wait_for_stop_result (w w' : world) (r : Z)
  (Hcall : wait_for_stop w = Some (r, w')) :
  exists pre a,
    w_script w = pre ++ a :: w_script w' /\
    ((r = 0 /\ Nat.Odd (length pre) /\ ends_stopped a) \/
     (r = -1 /\ ends_failed a)).
Proof. eapply wait_loop_result. exact Hcall. Qed.

Lemma wait_for_stop_result_witness :
  exists pre a,
    [ok_answer; stop_answer X86_64 SIGTRAP 0; ok_answer] = pre ++ [a; ok_answer] /\
    ends_stopped a.
Proof.
  set (w := demo_world [ok_answer; stop_answer X86_64 SIGTRAP 0; ok_answer]).
  assert (Hv : option_map (fun x => (fst x, w_script (snd x))) (wait_for_stop w)
               = Some (0, [ok_answer])).
  { vm_compute. reflexivity. }
  destruct (wait_for_stop w) as [[r w']|] eqn:E; [|discriminate].
  injection Hv as -> Hs.
  destruct (wait_for_stop_result w w' 0 E) as (pre & a & Hsc & Hcase).
  exists pre, a. rewrite Hs in Hsc. split; [exact Hsc|].
  destruct Hcase as [(_ & _ & H)|[H _]]; [exact H|discriminate].
Defined.


(** *** [task_open] and [task_fstat] *)

(** X12. [task_open] allocates room for the path in the target,
    copies the path there, makes the remote [open] and frees the room
    again, and returns what its local [result] then holds, as an
    [int].  [task_syscall] stores there only when it returns 0, so when
    the remote [open] could not be carried out [task_open] returns the
    bits that the uninitialised local happened to hold, and no error
    code. *)
Theorem task_open_result (fs : fs_env) (A : arch) (libc_base : Z)
  (pathname : string) (flags mode : Z) (w w' : world) (v : Z)
  (Hcall : task_open fs A libc_base pathname flags mode w = Some (v, w')) :
  let remote_filename_len := Z.of_nat (String.length pathname) + 1 in
  exists remote_fileaddr w1 n w2 r res w3 f,
    task_malloc A libc_base remote_filename_len w = Some (remote_fileaddr, w1) /\
    memcpy_to_task remote_fileaddr (c_bytes pathname) w1 = Some (n, w2) /\
    open_call A libc_base remote_fileaddr flags mode
              (junk_result (w_junk w)) w2 = Some ((r, res), w3) /\
    task_free A libc_base remote_fileaddr remote_filename_len w3
    = Some (f, w') /\
    v = to_int res /\
    r <= 0 /\
    (r <> 0 -> v = to_int (junk_result (w_junk w))).
Proof.
  intros len. unfold task_open in Hcall.
  bind_step Hcall g w0 Hg. injection Hg as <- <-.
  rewrite lor_O_CREAT in Hcall. fold len in Hcall.
  bind_step Hcall addr w1 Hm.
  bind_step Hcall n w2 Hw.
  bind_step Hcall rr w3 Hs.
  bind_step Hcall f w4 Hf.
  injection Hcall as <- <-.
  destruct rr as [r res].
  exists addr, w1, n, w2, r, res, w3, f. cbn [snd].
  assert (Hout : r <= 0 /\ (r <> 0 -> res = junk_result (w_junk w))).
  { destruct A; cbn [open_call];
      destruct (task_syscall_outcome _ _ _ _ _ _ _ _ _ _ _ _ _ _ Hs)
        as (_ & _ & _ & H4 & H5); auto. }
  destruct Hout as [Hle Hres].
  split; [exact Hm|]. split; [exact Hw|].
  split; [destruct A; exact Hs|]. split; [exact Hf|].
  split; [reflexivity|]. split; [exact Hle|].
  intros Hr. now rewrite Hres.
Qed.

Lemma task_open_result_witness :
  let w := demo_world gone_script in
  let len := Z.of_nat (String.length "/tmp/patch-link") + 1 in
  exists v w',
    task_open link_fs X86_64 0x7f0000028000 "/tmp/patch-link" O_RDWR 420 w
    = Some (v, w') /\
    v = to_int (junk_result demo_garbage) /\
    exists remote_fileaddr w1 n w2 r res w3 f,
      task_malloc X86_64 0x7f0000028000 len w = Some (remote_fileaddr, w1) /\
      memcpy_to_task remote_fileaddr (c_bytes "/tmp/patch-link") w1
      = Some (n, w2) /\
      open_call X86_64 0x7f0000028000 remote_fileaddr O_RDWR 420
                (junk_result (w_junk w)) w2 = Some ((r, res), w3) /\
      task_free X86_64 0x7f0000028000 remote_fileaddr len w3 = Some (f, w') /\
      v = to_int res /\ r <= 0 /\
      (r <> 0 -> v = to_int (junk_result (w_junk w))).
Proof.
  intros w len.
  assert (Hv : option_map fst (task_open link_fs X86_64 0x7f0000028000
                                 "/tmp/patch-link" O_RDWR 420 w)
               = Some (to_int (junk_result demo_garbage)))
    by (vm_compute; reflexivity).
  destruct (task_open link_fs X86_64 0x7f0000028000 "/tmp/patch-link"
                      O_RDWR 420 w) as [[v w']|] eqn:E; [|discriminate].
  exists v, w'. split; [reflexivity|]. split.
  - cbn [option_map fst] in Hv. now injection Hv.
  - exact (task_open_result _ _ _ _ _ _ _ _ _ E).
Defined.

(** X13. [task_fstat] returns what [task_syscall] returned, which
    tells whether the remote call was carried out and is never
    positive; what the remote [fstat] itself answered, an error such as
    [EBADF] included, is dropped.  The caller's buffer takes the bytes
    of the scratch allocation whenever they could be read, whether or
    not [fstat] filled them. *)
Theorem task_fstat_result (A : arch) (libc_base remote_fd : Z)
  (statbuf0 statbuf : list Z) (w w' : world) (v : Z)
  (Hcall : task_fstat A libc_base remote_fd statbuf0 w
           = Some ((v, statbuf), w')) :
  exists remote_statbuf w1 res w2 rd w3,
    task_malloc A libc_base (sizeof_stat A) w = Some (remote_statbuf, w1) /\
    task_syscall A libc_base (__NR_fstat A) remote_fd remote_statbuf 0 0 0 0
                 (junk_result (w_junk w)) w1 = Some ((v, res), w2) /\
    v <= 0 /\
    memcpy_from_task remote_statbuf (Z.to_nat (sizeof_stat A)) w2
    = Some (rd, w3) /\
    statbuf = default statbuf0 (snd rd).
Proof.
  unfold task_fstat in Hcall.
  bind_step Hcall g w0 Hg. injection Hg as <- <-.
  bind_step Hcall addr w1 Hm.
  bind_step Hcall rr w2 Hs.
  bind_step Hcall rd w3 Hr.
  bind_step Hcall f w4 Hf.
  injection Hcall as <- <- <-.
  destruct rr as [r res]. cbn [fst].
  exists addr, w1, res, w2, rd, w3.
  destruct (task_syscall_outcome _ _ _ _ _ _ _ _ _ _ _ _ _ _ Hs)
    as (_ & _ & _ & _ & H5).
  repeat split; assumption.
Qed.

Lemma task_fstat_result_witness :
  exists v statbuf w',
    task_fstat X86_64 0x7f0000028000 3 (repeat 0 144) (demo_world fstat_script)
    = Some ((v, statbuf), w') /\
    v = 0 /\ v <= 0.
Proof.
  set (w := demo_world fstat_script).
  assert (Hv : option_map (fun x => fst (fst x))
                 (task_fstat X86_64 0x7f0000028000 3 (repeat 0 144) w)
               = Some 0) by (vm_compute; reflexivity).
  destruct (task_fstat X86_64 0x7f0000028000 3 (repeat 0 144) w)
    as [[[v sb] w']|] eqn:E; [|discriminate].
  exists v, sb, w'. split; [reflexivity|]. split.
  - cbn [option_map fst] in Hv. now injection Hv.
  - destruct (task_fstat_result _ _ _ _ _ _ _ _ E)
      as (addr & w1 & res & w2 & rd & w3 & _ & _ & Hle & _).
    exact Hle.
Defined.

End WrapperFacts.

Module AttachFacts.
Import Word Attach.
Local Open Scope attach_scope.

Lemma attach_loop_result fuel : forall s r s',
  attach_loop fuel s = Some (r, s') ->
  exists pre a reqs,
    replies s = pre ++ a :: replies s' /\
    asked s' = asked s ++ reqs /\
    ((r = 0 /\ last reqs = Some WAITPID /\ stopped_by_SIGSTOP a) \/
     (exists e, rp_errno a = Some e /\ r = - Z.pos e)).
Proof.
  induction fuel as [|fuel IH]; intros s r s' H; [discriminate|].
  cbn [attach_loop] in H. unfold pbind at 1, ask in H.
  destruct (replies s) as [|a rest] eqn:Es; [discriminate|].
  destruct (rp_errno a) as [e|] eqn:Ea.
  - injection H as <- <-. exists [], a, [WAITPID]. cbn.
    split; [reflexivity|]. split; [reflexivity|]. right. eauto.
  - destruct (WIFSTOPPED (rp_status a) && (WSTOPSIG (rp_status a) =? SIGSTOP))
      eqn:Estop.
    + injection H as <- <-. exists [], a, [WAITPID]. cbn.
      split; [reflexivity|]. split; [reflexivity|]. left.
      apply andb_true_iff in Estop as [H1 H2]. apply Z.eqb_eq in H2.
      repeat split; assumption.
    + cbn zeta in H. unfold pbind at 1, ask in H. cbn [replies] in H.
      destruct rest as [|c rest]; [discriminate|].
      destruct (rp_errno c) as [e|] eqn:Ec.
      * injection H as <- <-. eexists [a], c, [WAITPID; _]. cbn.
        split; [reflexivity|]. split; [now rewrite <- app_assoc|]. right. eauto.
      * destruct (IH _ _ _ H) as (pre & a0 & reqs & Hrp & Hask & Hcase).
        cbn [replies asked] in Hrp, Hask.
        eexists (a :: c :: pre), a0, (WAITPID :: _ :: reqs). cbn.
        split; [now rewrite Hrp|].
        split; [rewrite Hask, <- !app_assoc; reflexivity|].
        destruct Hcase as [(Hr & Hl & Hs)|He]; [left|now right].
        split; [exact Hr|]. split; [|exact Hs].
        destruct reqs as [|q reqs]; [discriminate|]. exact Hl.
Qed.

(** X14. [task_attach] returns 0 only when its last request was a
    [waitpid] that reported a stop by [SIGSTOP]: no [PTRACE_CONT]
    follows, so the target is still stopped when the caller goes on.
    Every other return is the negated [errno] of the request that
    failed. *)
Theorem task_attach_result (s s' : sys) (r : Z)
  (Hcall : task_attach s = Some (r, s')) :
  exists pre a reqs,
    replies s = pre ++ a :: replies s' /\
    asked s' = asked s ++ PTRACE_ATTACH :: reqs /\
    ((r = 0 /\ last reqs = Some WAITPID /\ stopped_by_SIGSTOP a) \/
     (exists e, rp_errno a = Some e /\ r = - Z.pos e)).
Proof.
  unfold task_attach, pbind, ask in Hcall.
  destruct (replies s) as [|a rest] eqn:Es; [discriminate|].
  destruct (rp_errno a) as [e|] eqn:Ea.
  - injection Hcall as <- <-. exists [], a, []. cbn.
    split; [reflexivity|]. split; [reflexivity|]. right. eauto.
  - destruct (attach_loop_result _ _ _ _ Hcall) as (pre & a0 & reqs & Hrp & Hask & Hcase).
    cbn [replies asked] in Hrp, Hask.
    exists (a :: pre), a0, reqs. cbn.
    split; [now rewrite Hrp|].
    split; [rewrite Hask, <- app_assoc; reflexivity|exact Hcase].
Qed.

Lemma task_attach_result_witness :
  let s := mkSys [fine; mkReply None (stop_word SIGTRAP); fine;
                  mkReply None (stop_word 28); fine;
                  mkReply None (stop_word SIGSTOP)] [] in
  exists r s',
    task_attach s = Some (r, s') /\
    (r = 0 /\
     asked s' = [PTRACE_ATTACH; WAITPID; PTRACE_CONT 0; WAITPID; PTRACE_CONT 28;
                 WAITPID]) /\
    exists pre a reqs,
      replies s = pre ++ a :: replies s' /\
      asked s' = asked s ++ PTRACE_ATTACH :: reqs /\
      ((r = 0 /\ last reqs = Some WAITPID /\ stopped_by_SIGSTOP a) \/
       (exists e, rp_errno a = Some e /\ r = - Z.pos e)).
Proof.
  intros s.
  destruct (task_attach s) as [[r s']|] eqn:E; [|vm_compute in E; discriminate].
  exists r, s'. split; [reflexivity|]. split.
  - vm_compute in E. injection E as <- <-. split; reflexivity.
  - exact (task_attach_result s s' r E).
Defined.

End AttachFacts.

Module UftraceFacts.
Import Word Calls Uftrace.
Local Open Scope calls_scope.

(** *** [uftrace]: the command line *)

Lemma parse_options_ends e opts : forall s,
  match parse_options e opts s with
  | Ultask.Ret _ => existsb ends_run opts = false
  | Ultask.Exit c => c = 0 /\ existsb ends_run opts = true
  end.
Proof.
  induction opts as [|o opts IH]; intros s; cbn [parse_options existsb].
  - reflexivity.
  - destruct o; cbn [parse_one Ultask.obind ends_run orb print_help];
      try apply IH; split; reflexivity.
Qed.

(** X15. [parse_config] of uftrace ends the run with status 0 exactly
    when the command line holds [-v], [-h] or an option it does not
    know, whatever else is wrong with it; every rejection after the
    option loop ends it with status 1; and when it returns, the pid is
    that of a live process and the patch object is an existing file
    that [ftype] takes for a relocatable ELF object. *)
Theorem uftrace_parse_config (e : env) (opts : list opt) (s0 : statics) :
  match parse_config e opts s0 with
  | Ultask.Exit c =>
    (c = 0 /\ existsb ends_run opts = true) \/
    (c = 1 /\ existsb ends_run opts = false)
  | Ultask.Ret s =>
    existsb ends_run opts = false /\
    target_pid s <> -1 /\
    proc_pid_exist e (target_pid s) = true /\
    exists f, patch_object_file s = Some f /\
              fexist e f = true /\
              Z.land (ftype e f) (FILE_ELF_RELO e) = FILE_ELF_RELO e
  end.
Proof.
  unfold parse_config.
  pose proof (parse_options_ends e opts s0) as H.
  destruct (parse_options e opts s0) as [s|c]; cbn [Ultask.obind].
  - destruct (Z.eqb_spec (target_pid s) (-1)) as [Hp|Hp]; [right; auto|].
    destruct (proc_pid_exist e (target_pid s)) eqn:Hl; cbn [negb];
      [|right; auto].
    destruct (patch_object_file s) as [f|] eqn:Ep; [|right; auto].
    destruct (fexist e f) eqn:Hf; cbn [negb orb]; [|right; auto].
    destruct (Z.eqb_spec (Z.land (ftype e f) (FILE_ELF_RELO e)) (FILE_ELF_RELO e))
      as [Hr|Hr]; cbn [negb]; [|right; auto].
    split; [exact H|]. split; [exact Hp|]. split; [exact Hl|].
    exists f. auto.
  - left. exact H.
Qed.

(** *** [uftrace]: mapping the object *)

Ltac step_run H :=
  match type of H with
  | cbind (does _) _ ?r = Some _ =>
    unfold cbind at 1 in H; unfold does at 1 in H;
    let v := fresh "v" in let rest := fresh "rest" in
    let E := fresh "E" in
    destruct (returns r) as [|v rest] eqn:E; [discriminate|];
    cbn [returns made] in H, E; try subst
  | cbind (does_void _) _ ?r = Some _ =>
    unfold cbind at 1 in H; unfold does_void at 1 in H; cbn [returns made] in H
  end.

Lemma close_ret_made pid fd ret s r x r' :
  close_ret pid fd ret s r = Some (x, r') ->
  x = (ret, s) /\ made r' = made r ++ [task_close fd; task_detach pid].
Proof.
  unfold close_ret. intros H. step_run H. step_run H.
  injection H as <- <-. cbn. split; [reflexivity|now rewrite <- app_assoc].
Qed.

Ltac flow_case :=
  intros;
  repeat match goal with
         | H : _ :: _ = _ :: _ |- _ => injection H as ? ?
         end;
  subst; try lia; try contradiction;
  repeat split; try reflexivity; try congruence; try lia.

Lemma mmap_object_made e pid path s r ret s' r' :
  mmap_object e pid path s r = Some ((ret, s'), r') ->
  obj_target_tasp_map_size s' = obj_target_tasp_map_size s /\
  target_pid s' = target_pid s /\
  exists cs, made r' = made r ++ cs /\
             Forall (fun c => forall a sz, c <> task_munmap a sz) cs /\
             (forall a fd rest,
                 returns r = a :: fd :: rest -> a = 0 -> fd <= 0 ->
                 ret = -1 /\ cs = [task_attach pid; task_open path O_RDWR 420]) /\
             (forall fd t c d rest,
                 returns r = 0 :: fd :: t :: 0 :: c :: d :: rest -> 0 < fd ->
                 ret = t /\
                 (t = 0 -> obj_target_task_map_addr s' = 0)).
Proof.
  unfold mmap_object. intros H. step_run H.
  destruct (Z.eqb_spec v 0) as [->|Hv]; cbn [negb] in H.
  2:{ cbv [cret] in H. injection H; intros <- <- <-.
      split; [reflexivity|]. split; [reflexivity|].
      eexists. split; [reflexivity|]. split; [repeat constructor; discriminate|].
      split; flow_case. }
  step_run H.
  destruct (Z.leb_spec v 0) as [Hfd|Hfd].
  { cbv [cret] in H. injection H; intros <- <- <-.
    split; [reflexivity|]. split; [reflexivity|].
    eexists. split; [rewrite <- app_assoc; reflexivity|].
    split; [repeat constructor; discriminate|]. split; flow_case. }
  step_run H.
  destruct (Z.eqb_spec v0 0) as [->|Ht]; cbn [negb] in H.
  2:{ apply close_ret_made in H as [[= -> ->] Hm]. cbn [made] in Hm.
      split; [reflexivity|]. split; [reflexivity|].
      eexists. split; [rewrite Hm, <- !app_assoc; reflexivity|].
      split; [repeat constructor; discriminate|]. split; flow_case. }
  step_run H.
  destruct (Z.eqb_spec v0 0) as [->|Ha].
  { apply close_ret_made in H as [[= -> ->] Hm]. cbn [made] in Hm.
    split; [reflexivity|]. split; [reflexivity|].
    eexists. split; [rewrite Hm, <- !app_assoc; reflexivity|].
    split; [repeat constructor; discriminate|]. split; flow_case. }
  step_run H. step_run H.
  apply close_ret_made in H as [[= -> ->] Hm]. cbn [made] in Hm.
  split; [reflexivity|]. split; [reflexivity|].
  eexists. split; [rewrite Hm, <- !app_assoc; reflexivity|].
  split; [repeat constructor; discriminate|]. split; flow_case.
Qed.

(** X16. How [uftrace] maps and unmaps its object.  [mmap_object]
    returns -1 and leaves the target attached, with no [task_detach]
    and no [task_close], when the remote [open] fails; it returns what
    [task_ftruncate] returned otherwise, which is 0 also when the
    remote [mmap] has failed.  It keeps the size of the mapping in a
    local, so the file-scope size that [munmap_object] passes on is the
    one from before: in a run of [main] every [task_munmap] asks for
    as many bytes as the file-scope variable held at the start, which
    is none; and [main] returns 0 whatever happened. *)
Theorem uftrace_main_opened (e : env) (path : string) (s : statics)
  (r r' : run) (v : Z)
  (Hrun : main_opened e path s r = Some (v, r')) :
  v = 0 /\
  (exists cs, made r' = made r ++ cs /\
              Forall (fun c => forall a sz, c = task_munmap a sz ->
                                            sz = obj_target_tasp_map_size s) cs) /\
  (forall a fd rest x r1,
      returns r = a :: fd :: rest -> a = 0 -> fd <= 0 ->
      mmap_object e (target_pid s) path s r = Some (x, r1) ->
      fst x = -1 /\
      made r1 = made r ++ [task_attach (target_pid s); task_open path O_RDWR 420]) /\
  (forall fd c d rest x r1,
      returns r = 0 :: fd :: 0 :: 0 :: c :: d :: rest -> 0 < fd ->
      mmap_object e (target_pid s) path s r = Some (x, r1) ->
      fst x = 0 /\ obj_target_task_map_addr (snd x) = 0).
Proof.
  split; [|split; [|split]].
  - unfold main_opened in Hrun.
    unfold cbind at 1 in Hrun.
    destruct (mmap_object e (target_pid s) path s r) as [[rs r1]|]; [|discriminate].
    unfold cbind at 1 in Hrun.
    destruct (munmap_object (target_pid s) (snd rs) r1) as [[u r2]|]; [|discriminate].
    step_run Hrun. now injection Hrun as <- <-.
  - unfold main_opened in Hrun.
    unfold cbind at 1 in Hrun.
    destruct (mmap_object e (target_pid s) path s r) as [[[ret s1] r1]|] eqn:Em;
      [|discriminate].
    destruct (mmap_object_made _ _ _ _ _ _ _ _ Em) as (Hsz & _ & cs & Hm & Hno & _).
    unfold cbind at 1 in Hrun. cbn [snd] in Hrun.
    destruct (munmap_object (target_pid s) s1 r1) as [[u r2]|] eqn:Eu; [|discriminate].
    step_run Hrun. injection Hrun as _ <-. cbn [made].
    assert (Hu : exists cu, made r2 = made r1 ++ cu /\
                   Forall (fun c => forall a sz, c = task_munmap a sz ->
                             sz = obj_target_tasp_map_size s) cu).
    { unfold munmap_object in Eu.
      destruct (obj_target_task_map_addr s1 =? 0); cbn [negb] in Eu.
      - injection Eu as _ <-. exists []. split; [now rewrite app_nil_r|constructor].
      - step_run Eu. step_run Eu. step_run Eu. injection Eu as _ <-. cbn [made].
        eexists. split; [rewrite <- !app_assoc; reflexivity|].
        repeat constructor; intros a sz [=]; congruence. }
    destruct Hu as (cu & Hmu & Hcu).
    exists (cs ++ cu ++ [free_task]). split.
    + rewrite Hmu, Hm, <- !app_assoc. reflexivity.
    + apply Forall_app. split.
      * eapply Forall_impl; [exact Hno|]. cbn. intros c Hc a sz ->.
        exfalso. now apply (Hc a sz).
      * apply Forall_app. split; [exact Hcu|].
        repeat constructor. intros a sz [=].
  - intros a fd rest [ret s1] r1 Hr Ha Hfd Em.
    destruct (mmap_object_made _ _ _ _ _ _ _ _ Em) as (_ & _ & cs & Hm & _ & H1 & _).
    destruct (H1 a fd rest Hr Ha Hfd) as [-> ->]. split; [reflexivity|exact Hm].
  - intros fd c d rest [ret s1] r1 Hr Hfd Em.
    destruct (mmap_object_made _ _ _ _ _ _ _ _ Em) as (_ & _ & cs & Hm & _ & _ & H2).
    destruct (H2 fd 0 c d rest Hr Hfd) as [-> Hz]. split; [reflexivity|now apply Hz].
Qed.

Lemma uftrace_main_opened_witness :
  let s := mkStatics 1234 (Some "/usr/share/ftrace.o"%string) (-1) 0 0 in
  let r := mkRun [0; 3; 0; 0x7f0000a00000; 0; 0; 0; 0; -22; 0; 0] [] in
  exists v r',
    main_opened demo_env "/usr/share/ftrace.o" s r = Some (v, r') /\
    v = 0 /\
    made r' =
      [task_attach 1234; task_open "/usr/share/ftrace.o" O_RDWR 420;
       task_ftruncate 3 4096;
       task_mmap 0 4096 7 MAP_PRIVATE 3 0; update_task_vmas; dump_task_vmas;
       task_close 3; task_detach 1234;
       task_attach 1234; task_munmap 0x7f0000a00000 0; task_detach 1234;
       free_task].
Proof.
  intros s r.
  destruct (main_opened demo_env "/usr/share/ftrace.o" s r)
    as [[v r']|] eqn:E; [|vm_compute in E; discriminate].
  exists v, r'. split; [reflexivity|]. split.
  - exact (proj1 (uftrace_main_opened _ _ _ _ _ _ E)).
  - vm_compute in E. injection E as _ <-. reflexivity.
Defined.

End UftraceFacts.

Module UltaskRunFacts.
Import Word Vma VmaFacts Lookup LookupFacts ElfFreeFacts Calls UltaskRun.
Local Open Scope calls_scope.

(** *** [mmap_a_file] *)

Ltac step_run H :=
  match type of H with
  | cbind (does _) _ ?r = Some _ =>
    unfold cbind at 1 in H; unfold does at 1 in H;
    let v := fresh "v" in let rest := fresh "rest" in
    let E := fresh "E" in
    destruct (returns r) as [|v rest] eqn:E; [discriminate|];
    cbn [returns made] in H, E; try subst
  | cbind (does_void _) _ ?r = Some _ =>
    unfold cbind at 1 in H; unfold does_void at 1 in H; cbn [returns made] in H
  end.

Ltac flow_case :=
  intros;
  repeat match goal with
         | H : _ :: _ = _ :: _ |- _ => injection H as ? ?
         end;
  subst; try lia; try contradiction;
  repeat split; try reflexivity; try congruence; try lia.

Lemma map_prot_bits ro ne :
  Z.land (map_prot ro ne) PROT_READ = PROT_READ /\
  Z.land (map_prot ro ne) PROT_WRITE = (if ro then 0 else PROT_WRITE) /\
  Z.land (map_prot ro ne) PROT_EXEC = (if ne then 0 else PROT_EXEC).
Proof. destruct ro, ne; repeat split; reflexivity. Qed.

(** X17. [mmap_a_file] attaches and opens the file in the target.  When
    the remote [open] fails it returns -1 and makes no further call,
    neither closing nor detaching.  Otherwise it truncates, and when
    [task_ftruncate] returned 0 asks the target for one private
    mapping of the whole file at no fixed address, always readable,
    writable unless [ro] was given and executable unless [noexec] was
    given; then it closes, detaches and updates the VMAs, and returns
    what [task_ftruncate] returned, which is 0 also when the remote
    [mmap] has failed. *)
Theorem mmap_a_file_spec (f : files) (pid : Z) (s : Ultask.statics)
  (r r' : run) (v : Z)
  (Hrun : mmap_a_file f pid s r = Some (v, r')) :
  let prot := map_prot (Ultask.flags s Ultask.map_ro)
                       (Ultask.flags s Ultask.map_noexec) in
  let filename := default ""%string (Ultask.strs s Ultask.map_file) in
  let map_len := fsize f filename in
  Z.land prot PROT_READ = PROT_READ /\
  Z.land prot PROT_WRITE
  = (if Ultask.flags s Ultask.map_ro then 0 else PROT_WRITE) /\
  Z.land prot PROT_EXEC
  = (if Ultask.flags s Ultask.map_noexec then 0 else PROT_EXEC) /\
  exists a fd rest cs,
    returns r = a :: fd :: rest /\
    made r' = made r ++ task_attach pid :: task_open2 filename O_RDWR :: cs /\
    (fd <= 0 -> v = -1 /\ cs = [] /\ returns r' = rest) /\
    (0 < fd ->
     exists t rest',
       rest = t :: rest' /\ v = t /\
       (t <> 0 ->
        cs = [task_ftruncate fd map_len;
              task_close fd; task_detach pid; update_task_vmas_ulp]) /\
       (t = 0 ->
        exists map_v rest'',
          rest' = map_v :: rest'' /\
          cs = [task_ftruncate fd map_len;
                task_mmap 0 (u64 map_len) prot MAP_PRIVATE fd 0;
                task_close fd; task_detach pid; update_task_vmas_ulp])).
Proof.
  cbn zeta.
  destruct (map_prot_bits (Ultask.flags s Ultask.map_ro)
                          (Ultask.flags s Ultask.map_noexec)) as (H1 & H2 & H3).
  split; [exact H1|]. split; [exact H2|]. split; [exact H3|].
  unfold mmap_a_file in Hrun. step_run Hrun. step_run Hrun.
  exists v0, v1.
  destruct (Z.leb_spec v1 0) as [Hfd|Hfd].
  { cbv [cret] in Hrun. injection Hrun; intros <- <-.
    exists rest0, []. split; [reflexivity|]. cbn [made returns].
    split; [now rewrite <- app_assoc|].
    split; [auto|]. intros. lia. }
  step_run Hrun.
  assert (Hclose : forall ret r0 x r1,
             close_ret pid v1 ret r0 = Some (x, r1) ->
             x = ret /\
             made r1 = made r0 ++ [task_close v1; task_detach pid;
                                   update_task_vmas_ulp]).
  { intros ret r0 x r1 H. unfold close_ret in H.
    step_run H. step_run H. step_run H. cbv [cret] in H.
    injection H; intros <- <-. cbn [made].
    split; [reflexivity|now rewrite <- !app_assoc]. }
  destruct (Z.eqb_spec v2 0) as [->|Ht]; cbn [negb] in Hrun.
  - cbn zeta in Hrun. step_run Hrun.
    assert (Hboth := Hrun). clear Hrun.
    match type of Hboth with (if ?c then _ else _) _ = _ => destruct c end.
    all: apply Hclose in Hboth as [-> Hm]; cbn [made] in Hm.
    all: eexists _, _; (split; [reflexivity|]);
      (split; [rewrite Hm, <- !app_assoc; reflexivity|]);
      (split; [intros; lia|]); intros _;
      eexists 0, _; (split; [reflexivity|]); (split; [reflexivity|]);
      (split; [intros H; contradiction|]); intros _;
      eexists _, _; (split; reflexivity).
  - apply Hclose in Hrun as [-> Hm]. cbn [made] in Hm.
    eexists _, _. split; [reflexivity|].
    split; [rewrite Hm, <- !app_assoc; reflexivity|].
    split; [intros; lia|]. intros _.
    eexists v2, _. split; [reflexivity|]. split; [reflexivity|].
    split; [reflexivity|]. intros H. contradiction.
Qed.

Lemma mmap_a_file_spec_witness :
  let s := Ultask.set_flag Ultask.map_ro true
             (Ultask.set_str Ultask.map_file (Some "/srv/data.bin"%string)
                Ultask.ultask_args_reset) in
  let r := mkRun [0; 3; 0; 0x7f0000a00000; 0; 0; 0] [] in
  exists v r',
    mmap_a_file data_files 1234 s r = Some (v, r') /\
    v = 0 /\
    made r' = [task_attach 1234; task_open2 "/srv/data.bin" O_RDWR;
               task_ftruncate 3 4096;
               task_mmap 0 4096 (Z.lor PROT_READ PROT_EXEC) MAP_PRIVATE 3 0;
               task_close 3; task_detach 1234; update_task_vmas_ulp].
Proof.
  intros s r.
  destruct (mmap_a_file data_files 1234 s r) as [[v r']|] eqn:E;
    [|vm_compute in E; discriminate].
  exists v, r'. split; [reflexivity|].
  destruct (mmap_a_file_spec _ _ _ _ _ _ E)
    as (_ & _ & _ & a & fd & rest & cs & Hret & Hmade & _ & Hopen).
  cbn [returns r] in Hret. injection Hret as <- <- <-.
  destruct (Hopen ltac:(lia)) as (t & rest' & Hrest & -> & _ & Hmap).
  injection Hrest as <- <-.
  destruct (Hmap eq_refl) as (map_v & rest'' & _ & ->).
  split; [reflexivity|]. rewrite Hmade. reflexivity.
Defined.

(** *** [munmap_an_vma] *)

(** X18. [munmap_an_vma] looks the address up with [find_vma]; on a
    task whose listing has no overlapping lines it unmaps, from the
    start of the line that holds the address and not from the address
    itself, as many bytes as the file of that name has when such a
    file exists and as many as the line spans otherwise, between one
    [task_attach] and one [task_detach]; for an address that no line
    holds it returns -1 without any call. *)
Theorem munmap_an_vma_spec (f : files) (pid : Z) (t0 : task) (update : bool)
  (lines : list maps_line) (s : Ultask.statics) (r : run)
  (Hfresh : update = false -> arena t0 = [] /\ vmas_rb t0 = [])
  (Hrange : Forall line_range_ok lines)
  (Hapart : no_overlap lines) :
  let t := snd (read_task_vmas t0 update (Some (map Some lines))) in
  let vaddr := Ultask.nums s Ultask.vma_addr in
  (forall k ln a b c rest,
      lines !! k = Some ln -> line_has ln vaddr ->
      returns r = a :: b :: c :: rest ->
      munmap_an_vma f pid t s r =
      Some (0, mkRun rest
                 (made r ++
                  [task_attach pid;
                   task_munmap (l_start ln)
                     (if fexist f (l_name ln) then u64 (fsize f (l_name ln))
                      else l_end ln - l_start ln);
                   task_detach pid]))) /\
  ((forall ln, In ln lines -> ~ line_has ln vaddr) ->
   munmap_an_vma f pid t s r = Some (-1, r)).
Proof.
  intros t vaddr.
  destruct (read_task_vmas_invs t0 update lines Hfresh Hrange Hapart)
    as [Htree Hlines].
  fold t in Htree, Hlines.
  destruct (find_vma_lines t lines vaddr Htree Hlines) as [Hin Hout].
  split.
  - intros k ln a b c rest Hk Hhas Hr.
    destruct (Hin k ln Hk Hhas) as (Hfind & Hs & He).
    assert (Hname : name_ (deref (arena t) k) = l_name ln).
    { unfold t. rewrite (read_task_vmas_field name_ t0 update lines) with (ln := ln);
        try reflexivity; try exact Hk. intros H. now apply Hfresh. }
    unfold munmap_an_vma. fold vaddr. rewrite Hfind. cbn zeta.
    rewrite Hname, Hs, He.
    assert (Hsz : sub64 (l_end ln) (l_start ln) = l_end ln - l_start ln).
    { rewrite Forall_forall in Hrange.
      assert (Hok : line_range_ok ln).
      { apply Hrange. eapply list_elem_of_lookup_2. exact Hk. }
      unfold line_range_ok in Hok. apply WordFacts.sub64_nowrap; lia. }
    rewrite Hsz.
    unfold cbind, does. rewrite Hr. cbn [returns made].
    unfold cret. rewrite <- !app_assoc. reflexivity.
  - intros Hno. unfold munmap_an_vma. fold vaddr. now rewrite (Hout Hno).
Qed.

Lemma munmap_an_vma_spec_witness :
  let lines := [libc_ro; libc_rx; stack_line] in
  let t := snd (read_task_vmas (fresh_task 1234 "/usr/bin/app") false
                  (Some (map Some lines))) in
  munmap_an_vma no_files 1234 t
    (Ultask.set_num Ultask.vma_addr 0x7f000006f3d0 Ultask.ultask_args_reset)
    (mkRun [0; 0; 0] [])
  = Some (0, mkRun [] [task_attach 1234;
                       task_munmap 0x7f0000028000 0x175000;
                       task_detach 1234]).
Proof.
  intros lines t.
  assert (Hr : Forall line_range_ok lines) by (unfold lines; solve_no_overlap).
  assert (Hn : no_overlap lines) by (unfold lines; cbn; solve_no_overlap).
  destruct (munmap_an_vma_spec no_files 1234 (fresh_task 1234 "/usr/bin/app")
              false lines
              (Ultask.set_num Ultask.vma_addr 0x7f000006f3d0
                              Ultask.ultask_args_reset)
              (mkRun [0; 0; 0] []) (fun _ => conj eq_refl eq_refl) Hr Hn)
    as [Hin _].
  apply (Hin 1%nat libc_rx 0 0 0 []); [reflexivity| |reflexivity].
  unfold line_has. split; vm_compute; [discriminate|reflexivity].
Defined.

End UltaskRunFacts.

Module UltaskChecksFacts.
Import Ultask UltaskChecks.
Local Open Scope exit_scope.

Lemma dump_subopts_keeps e toks : forall s s',
  dump_subopts e toks s = Ret s' ->
  flags s' flag_print_task = flags s flag_print_task /\
  flags s' flag_rdonly = flags s flag_rdonly.
Proof.
  induction toks as [|tok toks IH]; intros s s' H; cbn [dump_subopts] in H.
  - injection H as <-. split; reflexivity.
  - destruct (getsubopt dump_opts tok) as [idx value].
    destruct idx as [[|[|[|[|n]]]]|]; try discriminate;
      apply IH in H as [H1 H2]; rewrite H1, H2; split; reflexivity.
Qed.

Lemma jmp_subopts_keeps e toks : forall s s',
  jmp_subopts e toks s = Ret s' ->
  flags s' flag_print_task = flags s flag_print_task /\
  flags s' flag_rdonly = flags s flag_rdonly.
Proof.
  induction toks as [|tok toks IH]; intros s s' H; cbn [jmp_subopts] in H.
  - injection H as <-. split; reflexivity.
  - destruct (getsubopt jmp_opts tok) as [idx value].
    destruct idx as [[|[|n]]|]; try discriminate;
      apply IH in H as [H1 H2]; rewrite H1, H2; split; reflexivity.
Qed.

Lemma map_subopts_keeps toks : forall s s',
  map_subopts toks s = Ret s' ->
  flags s' flag_print_task = flags s flag_print_task /\
  flags s' flag_rdonly = flags s flag_rdonly.
Proof.
  induction toks as [|tok toks IH]; intros s s' H; cbn [map_subopts] in H.
  - injection H as <-. split; reflexivity.
  - destruct (getsubopt map_opts tok) as [idx value].
    destruct idx as [[|[|[|n]]]|]; try discriminate;
      apply IH in H as [H1 H2]; rewrite H1, H2; split; reflexivity.
Qed.

Lemma parse_one_keeps e o s s' :
  parse_one e o s = Ret s' ->
  flags s' flag_print_task = flags s flag_print_task /\
  flags s' flag_rdonly = (if writes_target o then false else flags s flag_rdonly).
Proof.
  destruct o; cbn [parse_one writes_target]; intros H;
    try (injection H as <-; split; reflexivity); try discriminate.
  - destruct (dump_subopts e (subopt_tokens optarg) s) as [s1|] eqn:E;
      [|discriminate]. cbn [obind] in H.
    apply dump_subopts_keeps in E as [E1 E2]. rewrite <- E1, <- E2.
    repeat match type of H with
           | (if ?c then _ else _) = _ => destruct c; try discriminate
           end; injection H as <-; split; reflexivity.
  - destruct (jmp_subopts e (subopt_tokens optarg) s) as [s1|] eqn:E;
      [|discriminate]. cbn [obind] in H.
    apply jmp_subopts_keeps in E as [E1 E2]. rewrite <- E1.
    cbv zeta in H.
    destruct (_ || _) in H; [discriminate|]. injection H as <-. split; reflexivity.
  - destruct (map_subopts (subopt_tokens optarg) s) as [s1|] eqn:E;
      [|discriminate]. cbn [obind] in H.
    apply map_subopts_keeps in E as [E1 E2]. rewrite <- E1.
    cbv zeta in H.
    destruct (strs _ map_file) in H; [|discriminate].
    injection H as <-. split; reflexivity.
  - destruct ends; [discriminate|]. injection H as <-. split; reflexivity.
Qed.

Lemma parse_options_keeps e opts : forall s s',
  parse_options e opts s = Ret s' ->
  flags s' flag_print_task = flags s flag_print_task /\
  flags s' flag_rdonly = flags s flag_rdonly && negb (existsb writes_target opts).
Proof.
  induction opts as [|o opts IH]; intros s s' H; cbn [parse_options] in H.
  - injection H as <-. cbn. now rewrite andb_true_r.
  - destruct (parse_one e o s) as [s1|] eqn:E; [|discriminate]. cbn [obind] in H.
    apply parse_one_keeps in E as [E1 E2]. apply IH in H as [H1 H2].
    rewrite H1, H2, E1, E2. split; [reflexivity|]. cbn [existsb].
    destruct (writes_target o); cbn; [now rewrite andb_false_r|reflexivity].
Qed.

Lemma validate_ret e s s' :
  validate e s = Ret s' ->
  nums s' = nums s /\
  nums s target_pid <> -1 /\
  proc_pid_exist e (nums s target_pid) = true /\
  flags s' flag_rdonly = flags s flag_rdonly /\
  flags s' flag_print_task = flags s flag_print_task && nothing_to_do s /\
  nothing_to_do s' = nothing_to_do s /\
  strs s' output_file = strs s output_file /\
  ((flags s' flag_dump_vma || flags s' flag_dump_addr) = true ->
   is_Some (strs s' output_file)) /\
  (forall out, strs s' output_file = Some out ->
               force e = true \/ fexist e out = false) /\
  (strs s map_file = None -> strs s' map_file = None) /\
  (forall mf, strs s' map_file = Some mf ->
     is_Some (strs s map_file) /\
     fexist e mf = true /\ fregular e mf = true /\ fsize e mf <> 0).
Proof.
  unfold validate.
  destruct (Z.eqb_spec (nums s target_pid) (-1)) as [|Hpid]; [discriminate|].
  destruct (proc_pid_exist e (nums s target_pid)) eqn:Hlive; [|discriminate].
  cbn [negb]. cbv zeta. fold (nothing_to_do s).
  set (s1 := if nothing_to_do s then s else set_flag flag_print_task false s).
  assert (Hs1 : strs s1 = strs s /\ nums s1 = nums s /\
                (forall v, v <> flag_print_task -> flags s1 v = flags s v) /\
                flags s1 flag_print_task
                = flags s flag_print_task && nothing_to_do s).
  { unfold s1. destruct (nothing_to_do s).
    - repeat split; try reflexivity. now rewrite andb_true_r.
    - repeat split; try reflexivity.
      + intros v Hv. cbn. destruct (decide (v = flag_print_task)); [contradiction|reflexivity].
      + now rewrite andb_false_r. }
  destruct Hs1 as (Hstr & Hnum & Hfl & Hpt).
  rewrite (Hfl flag_dump_vma), (Hfl flag_dump_addr), Hstr by discriminate.
  intros H.
  destruct (flags s flag_dump_vma
            && match strs s output_file with None => true | Some _ => false end)
    eqn:Ev; [discriminate|].
  destruct (flags s flag_dump_addr
            && match strs s output_file with None => true | Some _ => false end)
    eqn:Ea; [discriminate|].
  destruct (check_map_file e s1) as [s2|] eqn:Ec; [|discriminate].
  cbn [obind] in H.
  assert (Hs2 : flags s2 = flags s1 /\ nums s2 = nums s1 /\
                strs s2 output_file = strs s1 output_file /\
                (strs s1 map_file = None -> strs s2 map_file = None) /\
                (forall mf, strs s2 map_file = Some mf ->
                   is_Some (strs s1 map_file) /\
                   fexist e mf = true /\ fregular e mf = true /\
                   fsize e mf <> 0)).
  { unfold check_map_file in Ec.
    destruct (strs s1 map_file) as [mf0|] eqn:Em.
    2:{ injection Ec as <-.
        split; [reflexivity|]. split; [reflexivity|]. split; [reflexivity|].
        split; [auto|]. intros mf Hmf. rewrite Em in Hmf. discriminate. }
    set (rmf := if is_absolute mf0 then
                  if negb (fexist e mf0) then cmd_exit EEXIST else Ret mf0
                else
                  if negb (fexist e (get_proc_pid_cwd e (nums s1 target_pid)
                                     ++ "/" ++ mf0)%string)
                  then cmd_exit EEXIST
                  else Ret (get_proc_pid_cwd e (nums s1 target_pid)
                            ++ "/" ++ mf0)%string) in Ec.
    assert (Hr : forall real, rmf = Ret real -> fexist e real = true).
    { unfold rmf. intros real.
      destruct (is_absolute mf0).
      - destruct (fexist e mf0) eqn:Ef; cbn [negb]; [|discriminate].
        intros [= <-]. exact Ef.
      - destruct (fexist e _) eqn:Ef; cbn [negb]; [|discriminate].
        intros [= <-]. exact Ef. }
    destruct rmf as [real|]; [|discriminate]. cbn [obind] in Ec.
    specialize (Hr real eq_refl).
    destruct (fregular e real) eqn:Er; cbn [negb] in Ec; [|discriminate].
    destruct (Z.eqb_spec (fsize e real) 0) as [|Hsz]; [discriminate|].
    injection Ec as <-.
    split; [reflexivity|]. split; [reflexivity|]. split; [reflexivity|].
    split; [discriminate|]. intros mf Hmf. cbn in Hmf. injection Hmf as <-.
    split; [eauto|]. split; [exact Hr|]. split; [exact Er|exact Hsz]. }
  destruct Hs2 as (Hf2 & Hn2 & Ho2 & Hm2n & Hm2).
  assert (Hs' : s' = s2).
  { destruct (strs s2 output_file) as [out|]; [|now injection H as <-].
    destruct (negb (force e) && fexist e out); [discriminate|now injection H as <-]. }
  subst s'.
  assert (Hntd : nothing_to_do s2 = nothing_to_do s).
  { unfold nothing_to_do. rewrite Hf2, Hn2, Hnum.
    rewrite !Hfl by discriminate.
    assert (Hmm : match strs s2 map_file with None => true | Some _ => false end
                  = match strs s map_file with None => true | Some _ => false end).
    { destruct (strs s2 map_file) as [mf|] eqn:E2.
      - destruct (Hm2 mf eq_refl) as ([x Hx] & _). rewrite Hstr in Hx.
        now rewrite Hx.
      - destruct (strs s map_file) as [mf|] eqn:E1; [|reflexivity].
        exfalso. unfold check_map_file in Ec. rewrite Hstr, E1 in Ec.
        destruct (if is_absolute mf then _ else _) as [real|]; [|discriminate].
        cbn [obind] in Ec.
        destruct (negb (fregular e real)); [discriminate|].
        destruct (fsize e real =? 0); [discriminate|].
        injection Ec as <-. cbn in E2. discriminate. }
    now rewrite Hmm. }
  rewrite Hf2, Hn2, Ho2, Hstr, Hnum, Hpt.
  rewrite !Hfl by discriminate.
  split; [reflexivity|]. split; [exact Hpid|]. split; [reflexivity|].
  split; [reflexivity|]. split; [reflexivity|]. split; [exact Hntd|].
  split; [reflexivity|]. split; [|split; [|split]].
  - intros Hd. destruct (strs s output_file); [eauto|].
    rewrite !andb_true_r in Ev, Ea. rewrite Ev, Ea in Hd. discriminate.
  - intros out Ho. rewrite Ho2, Hstr, Ho in H.
    destruct (force e); [now left|]. cbn [negb andb] in H.
    destruct (fexist e out); [discriminate|now right].
  - intros Hn. apply Hm2n. now rewrite Hstr.
  - intros mf Hmf. destruct (Hm2 mf Hmf) as (Hi & ?). rewrite Hstr in Hi. auto.
Qed.

(** X19. A configuration with which [parse_config] of ultask returns
    is sound: the pid is that of a live process; a dump has its output
    file; the output file does not exist yet unless [--force] was
    given; and the file to map exists, is a regular file and is not
    empty. *)
Theorem parse_config_accepts (e : env) (opts : list opt) (s : statics)
  (Hret : parse_config e opts = Ret s) :
  nums s target_pid <> -1 /\
  proc_pid_exist e (nums s target_pid) = true /\
  ((flags s flag_dump_vma || flags s flag_dump_addr) = true ->
   is_Some (strs s output_file)) /\
  (forall out, strs s output_file = Some out ->
               force e = true \/ fexist e out = false) /\
  (forall mf, strs s map_file = Some mf ->
              fexist e mf = true /\ fregular e mf = true /\ fsize e mf <> 0).
Proof.
  unfold parse_config in Hret.
  destruct (parse_options e opts ultask_args_reset) as [s0|] eqn:E; [|discriminate].
  cbn [obind] in Hret.
  destruct (validate_ret e s0 s Hret)
    as (Hn & Hpid & Hlive & _ & _ & _ & _ & Hdump & Hout & _ & Hmap).
  rewrite Hn. split; [exact Hpid|]. split; [exact Hlive|].
  split; [exact Hdump|]. split; [exact Hout|].
  intros mf Hmf. destruct (Hmap mf Hmf) as (_ & H). exact H.
Qed.

Lemma parse_config_accepts_witness :
  match parse_config file_env [OptPid "1234"; OptMap "file=/srv/data.bin,ro"] with
  | Ret s => proc_pid_exist file_env (nums s target_pid) = true
  | Exit _ => False
  end.
Proof.
  destruct (parse_config file_env [OptPid "1234"; OptMap "file=/srv/data.bin,ro"])
    as [s|c] eqn:E; [|vm_compute in E; discriminate].
  exact (proj1 (proj2 (parse_config_accepts _ _ _ E))).
Defined.

(** X20. When [parse_config] of ultask returns, [flag_print_task], on
    which the summary of the task is printed, is set exactly when the
    command line asked for no action at all. *)
Theorem parse_config_print_task (e : env) (opts : list opt) (s : statics)
  (Hret : parse_config e opts = Ret s) :
  flags s flag_print_task = nothing_to_do s.
Proof.
  unfold parse_config in Hret.
  destruct (parse_options e opts ultask_args_reset) as [s0|] eqn:E; [|discriminate].
  cbn [obind] in Hret.
  destruct (validate_ret e s0 s Hret)
    as (_ & _ & _ & _ & Hpt & Hntd & _).
  apply parse_options_keeps in E as [E1 _].
  rewrite Hpt, Hntd, E1. reflexivity.
Qed.

Lemma parse_config_print_task_witness :
  match parse_config file_env [OptPid "1234"] with
  | Ret s => flags s flag_print_task = true
  | Exit _ => False
  end /\
  match parse_config file_env [OptPid "1234"; OptVmas] with
  | Ret s => flags s flag_print_task = false
  | Exit _ => False
  end.
Proof.
  split.
  - destruct (parse_config file_env [OptPid "1234"]) as [s|c] eqn:E;
      [|vm_compute in E; discriminate].
    rewrite (parse_config_print_task _ _ _ E).
    assert (H : match parse_config file_env [OptPid "1234"] with
                | Ret s => nothing_to_do s
                | Exit _ => false
                end = true) by (vm_compute; reflexivity).
    now rewrite E in H.
  - destruct (parse_config file_env [OptPid "1234"; OptVmas]) as [s|c] eqn:E;
      [|vm_compute in E; discriminate].
    rewrite (parse_config_print_task _ _ _ E).
    assert (H : match parse_config file_env [OptPid "1234"; OptVmas] with
                | Ret s => nothing_to_do s
                | Exit _ => true
                end = false) by (vm_compute; reflexivity).
    now rewrite E in H.
Defined.

(** X21. When [parse_config] of ultask returns, [flag_rdonly] is still
    set, so that the target is opened without write access, exactly
    when none of [--jmp], [--map] and [--unmap] was on the command
    line. *)
Theorem parse_config_rdonly (e : env) (opts : list opt) (s : statics)
  (Hret : parse_config e opts = Ret s) :
  flags s flag_rdonly = negb (existsb writes_target opts).
Proof.
  unfold parse_config in Hret.
  destruct (parse_options e opts ultask_args_reset) as [s0|] eqn:E; [|discriminate].
  cbn [obind] in Hret.
  destruct (validate_ret e s0 s Hret) as (_ & _ & _ & Hrd & _).
  apply parse_options_keeps in E as [_ E2].
  rewrite Hrd, E2. reflexivity.
Qed.

Lemma parse_config_rdonly_witness :
  match parse_config file_env [OptPid "1234"; OptMap "file=/srv/data.bin,ro"] with
  | Ret s => flags s flag_rdonly = false
  | Exit _ => False
  end.
Proof.
  destruct (parse_config file_env [OptPid "1234"; OptMap "file=/srv/data.bin,ro"])
    as [s|c] eqn:E; [|vm_compute in E; discriminate].
  exact (parse_config_rdonly _ _ _ E).
Defined.

End UltaskChecksFacts.

Module PropertyFacts.
Import Word Property.

Lemma land_mask (k x : Z) :
  0 <= k < 64 -> 0 <= x < 2 ^ 64 ->
  Z.land x (2 ^ 64 - 2 ^ k) = 2 ^ k * (x / 2 ^ k).
Proof.
  intros Hk Hx.
  apply Z.bits_inj'. intros i Hi.
  rewrite Z.land_spec.
  replace (2 ^ 64 - 2 ^ k) with (Z.shiftl (Z.ones (64 - k)) k).
  2:{ rewrite Z.shiftl_mul_pow2, Z.ones_equiv by lia.
      rewrite <- Z.sub_1_r, Z.mul_sub_distr_r, <- Z.pow_add_r by lia.
      replace (64 - k + k) with 64 by lia. lia. }
  rewrite Z.shiftl_spec by lia.
  rewrite (Z.mul_comm (2 ^ k)), <- Z.shiftl_mul_pow2, Z.shiftl_spec by lia.
  rewrite <- Z.shiftr_div_pow2 by lia.
  destruct (Z.ltb_spec i k) as [Hlt | Hge].
  - rewrite (Z.testbit_neg_r (Z.ones (64 - k)) (i - k)) by lia.
    rewrite (Z.testbit_neg_r (Z.shiftr x k) (i - k)) by lia.
    apply andb_false_r.
  - rewrite Z.shiftr_spec by lia. replace (i - k + k) with i by lia.
    destruct (Z.ltb_spec i 64) as [H64 | H64].
    + rewrite Z.ones_spec_low by lia. apply andb_true_r.
    + rewrite Z.ones_spec_high by lia. rewrite andb_false_r.
      symmetry. destruct (Z.eq_dec x 0) as [-> | Hnz]; [apply Z.bits_0|].
      apply Z.bits_above_log2; [lia|].
      assert (Z.log2 x < 64) by (apply Z.log2_lt_pow2; lia). lia.
Qed.

Lemma NOTE_ALIGN4_div (n : Z) :
  0 <= n <= 2 ^ 32 - 4 -> NOTE_ALIGN4 n = 4 * ((n + 3) / 4).
Proof.
  intros Hn. unfold NOTE_ALIGN4, u32, u64.
  rewrite (Z.mod_small (n + 3)) by lia.
  change ((-4) mod 2 ^ 64) with (2 ^ 64 - 2 ^ 2).
  rewrite land_mask by lia. reflexivity.
Qed.

Lemma NOTE_ALIGN8_div (n : Z) :
  0 <= n <= 2 ^ 32 - 8 -> NOTE_ALIGN8 n = 8 * ((n + 7) / 8).
Proof.
  intros Hn. unfold NOTE_ALIGN8, u32, u64.
  rewrite (Z.mod_small (n + 7)) by lia.
  change ((-8) mod 2 ^ 64) with (2 ^ 64 - 2 ^ 3).
  rewrite land_mask by lia. reflexivity.
Qed.

(** X22. For a size that the loop can hold (at most [2^32 - 8], since
    eight bytes of header came off a 32-bit [descsz]), [NOTE_ALIGN4]
    and [NOTE_ALIGN8] give the least multiple of 4, of 8, that is not
    below the size. *)
Theorem NOTE_ALIGN_least_multiple (n : Z) (Hn : 0 <= n <= 2 ^ 32 - 8) :
  (NOTE_ALIGN4 n mod 4 = 0 /\ n <= NOTE_ALIGN4 n < n + 4) /\
  (NOTE_ALIGN8 n mod 8 = 0 /\ n <= NOTE_ALIGN8 n < n + 8).
Proof.
  rewrite NOTE_ALIGN4_div, NOTE_ALIGN8_div by lia.
  pose proof (Z.div_mod (n + 3) 4 ltac:(lia)) as H4.
  pose proof (Z.mod_pos_bound (n + 3) 4 ltac:(lia)) as B4.
  pose proof (Z.div_mod (n + 7) 8 ltac:(lia)) as H8.
  pose proof (Z.mod_pos_bound (n + 7) 8 ltac:(lia)) as B8.
  repeat split; try lia.
  - rewrite Z.mul_comm. apply Z.mod_mul. lia.
  - rewrite Z.mul_comm. apply Z.mod_mul. lia.
Qed.

Lemma NOTE_ALIGN_least_multiple_witness :
  (NOTE_ALIGN4 5 mod 4 = 0 /\ 5 <= NOTE_ALIGN4 5 < 5 + 4) /\
  (NOTE_ALIGN8 5 mod 8 = 0 /\ 5 <= NOTE_ALIGN8 5 < 5 + 8).
Proof. apply (NOTE_ALIGN_least_multiple 5). lia. Defined.

Lemma feature_read_inside (E : elf_env) (d pos total : Z) :
  0 <= pos -> 0 <= d -> pos + d <= total ->
  Forall (inside total) (fst (feature_read E d pos)).
Proof.
  intros Hp Hd Hin. unfold feature_read.
  destruct (Z.eqb_spec d 4) as [-> | _]; cbn [fst]; [|constructor].
  constructor; [|constructor]. unfold inside. cbn [fst snd]. lia.
Qed.

Lemma property_reads_inside (E : elf_env) (ty d pos total : Z) :
  0 <= pos -> 0 <= d -> pos + d <= total ->
  Forall (inside total) (fst (property_reads E ty d pos)).
Proof.
  intros Hp Hd Hin. unfold property_reads.
  repeat match goal with
  | |- context [if ?c then _ else _] =>
      lazymatch c with
      | context [if _ then _ else _] => fail
      | _ => destruct c
      end
  | |- context [match gelf_getclass E with _ => _ end] =>
      destruct (gelf_getclass E)
  end; cbn [fst];
  try apply feature_read_inside; try lia;
  repeat constructor; cbn [fst snd]; lia.
Qed.

Lemma property_loop_inside (E : elf_env) (desc : list Z) (total : Z) :
  forall (fuel : nat) (pos descsz : Z) (reads : list (Z * Z)),
  0 <= pos -> 0 <= descsz < 2 ^ 32 ->
  descsz < 8 \/ pos + descsz <= total ->
  Forall (inside total) reads ->
  (Z.to_nat (descsz / 8) < fuel)%nat ->
  exists e r, property_loop fuel E desc pos descsz reads = Some (e, r) /\
              Forall (inside total) r.
Proof.
  induction fuel as [|fuel IH]; intros pos descsz reads Hp Hd Hin Hr Hf; [lia|].
  cbn [property_loop].
  destruct (Z.ltb_spec descsz 8) as [Hlt | Hge]; [eauto|].
  assert (Hhead : Forall (inside total) (reads ++ [(pos, 8)])).
  { apply Forall_app. split; [exact Hr|].
    constructor; [|constructor]. unfold inside. cbn [fst snd]. lia. }
  destruct (xlate_ok E pos 8); cbn [negb]; [|eauto].
  set (ty := u32 (to_word E (bytes_at desc pos 4))).
  set (d := u32 (to_word E (bytes_at desc (pos + 4) 4))).
  assert (Hdn : 0 <= d < 2 ^ 32) by (apply Z.mod_pos_bound; lia).
  assert (Hsz : u32 (descsz - 8) = descsz - 8)
    by (unfold u32; apply Z.mod_small; lia).
  rewrite Hsz.
  destruct (Z.gtb_spec d (descsz - 8)) as [Hbad | Hfit]; [eauto|].
  pose proof (property_reads_inside E ty d (pos + 8) total
                ltac:(lia) ltac:(lia) ltac:(lia)) as Hmore.
  destruct (property_reads E ty d (pos + 8)) as [asked goes_on].
  cbn [fst] in Hmore.
  assert (Hall : Forall (inside total) ((reads ++ [(pos, 8)]) ++ asked))
    by (apply Forall_app; split; assumption).
  destruct goes_on; cbn [negb]; [|eauto].
  set (a := match gelf_getclass E with
            | ELFCLASS32 => u32 (NOTE_ALIGN4 d)
            | ELFCLASS64 => u32 (NOTE_ALIGN8 d)
            end).
  assert (Ha : 0 <= a < 2 ^ 32)
    by (unfold a; destruct (gelf_getclass E); apply Z.mod_pos_bound; lia).
  assert (Hdiv : descsz / 8 = (descsz - 8) / 8 + 1).
  { replace descsz with ((descsz - 8) + 1 * 8) at 1 by lia.
    apply Z.div_add. lia. }
  assert (Hq : 0 <= (descsz - 8) / 8) by (apply Z.div_pos; lia).
  destruct (Z.gtb_spec (descsz - 8) a) as [Hmore' | Hless].
  - assert (Hsz' : u32 (descsz - 8 - a) = descsz - 8 - a)
      by (unfold u32; apply Z.mod_small; lia).
    rewrite Hsz'.
    apply IH; try lia; try assumption.
    assert ((descsz - 8 - a) / 8 <= (descsz - 8) / 8)
      by (apply Z.div_le_mono; lia).
    assert (0 <= (descsz - 8 - a) / 8) by (apply Z.div_pos; lia).
    lia.
  - apply IH; try lia; try assumption.
    change (0 / 8) with 0. lia.
Qed.

(** X23. The loop over the GNU properties of a note terminates after at
    most [descsz / 8 + 1] turns whatever bytes the descriptor holds,
    and every conversion it asks of libelf lies inside the [descsz]
    bytes of the descriptor. *)
Theorem gnu_property_note_bounded (E : elf_env) (name_is_GNU : bool)
  (desc : list Z) (descsz : Z) (Hsz : 0 <= descsz < 2 ^ 32) :
  exists e reads,
    gnu_property_note (S (Z.to_nat (descsz / 8))) E name_is_GNU desc descsz
      = Some (e, reads) /\
    Forall (inside descsz) reads.
Proof.
  unfold gnu_property_note.
  destruct (name_is_GNU && (descsz >? 0)); [|eauto].
  apply property_loop_inside; try lia. constructor.
Qed.

Lemma gnu_property_note_bounded_witness :
  exists e reads,
    gnu_property_note (S (Z.to_nat (16 / 8))) x86_env true feature_desc 16
      = Some (e, reads) /\
    Forall (inside 16) reads.
Proof. apply (gnu_property_note_bounded x86_env true feature_desc 16). lia. Defined.

End PropertyFacts.


Module CoreNoteFacts.
Import Word Property CoreNote.

Lemma has_data_room (ptr end_ sz : Z) :
  0 < ptr -> end_ < 2 ^ 64 ->
  buf_has_data ptr end_ sz = true -> ptr + sz <= end_.
Proof.
  intros Hp He H. unfold buf_has_data in H.
  apply andb_true_iff in H as [Hlt Hsz].
  apply Z.ltb_lt in Hlt. apply Z.geb_le in Hsz.
  unfold u64 in Hsz. rewrite Z.mod_small in Hsz by lia. lia.
Qed.

Lemma buf_read_int_in (K : core) (ptr end_ r0 : Z) (rd : reads)
  (ok : bool) (v ptr' : Z) (rd' : reads) :
  (forall a n, xlate K a n = true) ->
  0 < d_buf K -> d_buf K + d_size K < 2 ^ 64 ->
  d_buf K <= ptr -> end_ <= d_buf K + d_size K ->
  Forall (in_chunk K) rd ->
  buf_read_int K ptr end_ r0 rd = (ok, v, ptr', rd') ->
  Forall (in_chunk K) rd' /\ ptr <= ptr' /\ (ok = true -> ptr' <= end_).
Proof.
  intros Hx Hb Htop Hp He Hrd H. unfold buf_read_int, convert in H.
  destruct (buf_has_data ptr end_ 4) eqn:Hd; cbn [negb] in H.
  - rewrite Hx in H. injection H as <- <- <- <-.
    pose proof (has_data_room ptr end_ 4 ltac:(lia) ltac:(lia) Hd).
    split; [|lia].
    apply Forall_app. split; [exact Hrd|].
    constructor; [|constructor]. unfold in_chunk. cbn [fst snd]. lia.
  - injection H as <- <- <- <-. split; [exact Hrd|]. split; [lia|discriminate].
Qed.

Lemma addr_fsize_cases (K : core) : addr_fsize K = 4 \/ addr_fsize K = 8.
Proof. unfold addr_fsize. destruct (core_class K); auto. Qed.

Lemma buf_read_ulong_in (K : core) (ptr end_ r0 : Z) (rd : reads)
  (ok : bool) (v ptr' : Z) (rd' : reads) :
  (forall a n, xlate K a n = true) ->
  0 < d_buf K -> d_buf K + d_size K < 2 ^ 64 ->
  d_buf K <= ptr -> end_ <= d_buf K + d_size K ->
  Forall (in_chunk K) rd ->
  buf_read_ulong K ptr end_ r0 rd = (ok, v, ptr', rd') ->
  Forall (in_chunk K) rd' /\ ptr <= ptr' /\
  (ok = true -> ptr' <= end_ /\ 0 <= v < 2 ^ 64).
Proof.
  intros Hx Hb Htop Hp He Hrd H. unfold buf_read_ulong, convert in H.
  pose proof (addr_fsize_cases K) as Hsz.
  destruct (buf_has_data ptr end_ (addr_fsize K)) eqn:Hd; cbn [negb] in H.
  - rewrite Hx in H. injection H as <- <- <- <-.
    pose proof (has_data_room ptr end_ _ ltac:(lia) ltac:(lia) Hd).
    split; [|split; [lia|]].
    + apply Forall_app. split; [exact Hrd|].
      constructor; [|constructor]. unfold in_chunk. cbn [fst snd]. lia.
    + intros _. split; [lia|].
      destruct (addr_fsize K =? 4); unfold u32, u64.
      * pose proof (Z.mod_pos_bound (addr_of K (bytes_of K ptr (addr_fsize K)))
                      (2 ^ 32) ltac:(lia)). lia.
      * apply Z.mod_pos_bound. lia.
  - injection H as <- <- <- <-. split; [exact Hrd|]. split; [lia|discriminate].
Qed.

Lemma index_of_zero_bound (l : list Z) : forall i k,
  index_of_zero l i = Some k -> i <= k < i + Z.of_nat (length l).
Proof.
  induction l as [|b rest IH]; intros i k H; [discriminate|].
  cbn [index_of_zero] in H. cbn [length].
  destruct (b =? 0).
  - injection H as <-. lia.
  - apply IH in H. lia.
Qed.

Lemma memchr_bound (K : core) (fptr len k : Z) :
  0 <= len -> memchr K fptr len = Some k -> 0 <= k < len.
Proof.
  intros Hlen H. unfold memchr in H. apply index_of_zero_bound in H.
  unfold bytes_of in H. rewrite length_take in H. lia.
Qed.

(** One call of a reader inside a handler: name what it returns and
    what [buf_read_int_in] or [buf_read_ulong_in] say of it. *)
Ltac read_one Hx Hb Htop :=
  lazymatch goal with
  | |- context [buf_read_int ?K ?p ?e ?r ?rd] =>
    let E := fresh "E" in
    let ok := fresh "ok" in let v := fresh "v" in
    let p' := fresh "ptr" in let rd' := fresh "rd" in
    destruct (buf_read_int K p e r rd) as [[[ok v] p'] rd'] eqn:E;
    apply (buf_read_int_in K p e r rd ok v p' rd' Hx Hb Htop) in E;
    [|lia|lia|assumption]
  | |- context [buf_read_ulong ?K ?p ?e ?r ?rd] =>
    let E := fresh "E" in
    let ok := fresh "ok" in let v := fresh "v" in
    let p' := fresh "ptr" in let rd' := fresh "rd" in
    destruct (buf_read_ulong K p e r rd) as [[[ok v] p'] rd'] eqn:E;
    apply (buf_read_ulong_in K p e r rd ok v p' rd' Hx Hb Htop) in E;
    [|lia|lia|assumption]
  end;
  lazymatch goal with
  | E : Forall _ ?rd' /\ _ /\ (?ok = true -> _) |- _ =>
    let Hrd := fresh "Hrd" in let Hle := fresh "Hle" in
    let Hok := fresh "Hok" in
    destruct E as (Hrd & Hle & Hok);
    destruct ok; cbn [negb]; [specialize (Hok eq_refl)|exact Hrd]
  end.

(** X24. As long as libelf converts what it is asked to, every read
    that [handle_siginfo_note] makes lies inside the chunk of the
    note, however short the note is and whatever it holds; the word of
    padding that is skipped on a 64-bit file may carry the pointer
    past the end, and then nothing more is read. *)
Theorem handle_siginfo_note_in_chunk (K : core)
  (Hx : forall a n, xlate K a n = true)
  (Hb : 0 < d_buf K)
  (Htop : d_buf K + d_size K < 2 ^ 64) :
  Forall (in_chunk K) (snd (handle_siginfo_note K)).
Proof.
  unfold handle_siginfo_note.
  destruct (has_chunk K); cbn [negb]; [|constructor].
  assert (H0 : Forall (in_chunk K) []) by constructor.
  read_one Hx Hb Htop. read_one Hx Hb Htop. read_one Hx Hb Htop.
  set (p := match core_class K with
            | ELFCLASS32 => ptr1
            | ELFCLASS64 => ptr1 + 4
            end).
  assert (Hp : d_buf K <= p) by (unfold p; destruct (core_class K); lia).
  destruct (v1 >? 0).
  - destruct (_ || _); [|exact Hrd1].
    read_one Hx Hb Htop. exact Hrd2.
  - destruct (v1 =? CORE_SI_USER K); [|exact Hrd1].
    read_one Hx Hb Htop. read_one Hx Hb Htop. exact Hrd3.
Qed.

Lemma handle_siginfo_note_in_chunk_witness :
  Forall (in_chunk segv_core) (snd (handle_siginfo_note segv_core)).
Proof.
  apply (handle_siginfo_note_in_chunk segv_core);
    [reflexivity|reflexivity|reflexivity].
Defined.

Lemma file_loop_in (K : core) (fstart : Z)
  (Hx : forall a n, xlate K a n = true)
  (Hb : 0 < d_buf K)
  (Htop : d_buf K + d_size K < 2 ^ 64)
  (Hfs : fstart <= d_buf K + d_size K) :
  forall (n : nat) (ptr fptr : Z) (rd : reads),
  d_buf K <= ptr -> d_buf K <= fptr <= d_buf K + d_size K ->
  Forall (in_chunk K) rd ->
  Forall (in_chunk K)
         (snd (file_loop n K ptr fstart fptr (d_buf K + d_size K) rd)).
Proof.
  induction n as [|n IH]; intros ptr fptr rd Hp Hf Hrd0; [exact Hrd0|].
  cbn [file_loop].
  read_one Hx Hb Htop. read_one Hx Hb Htop. read_one Hx Hb Htop.
  assert (Hlen : u64 (d_buf K + d_size K - fptr) = d_buf K + d_size K - fptr)
    by (unfold u64; apply Z.mod_small; lia).
  rewrite Hlen.
  destruct (memchr K fptr (d_buf K + d_size K - fptr)) as [k|] eqn:Em.
  - apply memchr_bound in Em; [|lia].
    apply IH; [lia|lia|].
    apply Forall_app. split; [exact Hrd2|].
    constructor; [|constructor]. unfold in_chunk. cbn [fst snd]. lia.
  - cbn [snd]. apply Forall_app. split; [exact Hrd2|].
    constructor; [|constructor]. unfold in_chunk. cbn [fst snd]. lia.
Qed.

(** X25. When [elf_getdata_rawchunk] has returned a chunk and libelf
    converts what it is asked to, every read of [handle_file_note],
    the search for the end of each file name included, lies inside the
    chunk, whatever count the note claims: the count is checked
    against the room that is left before the names are looked for. *)
Theorem handle_file_note_in_chunk (K : core)
  (Hx : forall a n, xlate K a n = true)
  (Hb : 0 < d_buf K)
  (Htop : d_buf K + d_size K < 2 ^ 64) :
  Forall (in_chunk K) (snd (handle_file_note K)).
Proof.
  unfold handle_file_note.
  destruct (has_chunk K); cbn [negb]; [|constructor].
  assert (H0 : Forall (in_chunk K) []) by constructor.
  read_one Hx Hb Htop. read_one Hx Hb Htop.
  destruct Hok as [Hend Hv]. destruct Hok0 as [Hend0 Hv0].
  assert (Hroom : u64 (d_buf K + d_size K - ptr0) = d_buf K + d_size K - ptr0)
    by (unfold u64; apply Z.mod_small; lia).
  rewrite Hroom.
  destruct (Z.gtb_spec v (( d_buf K + d_size K - ptr0) / (3 * addr_fsize K)))
    as [Hbig | Hfit]; [exact Hrd0|].
  pose proof (addr_fsize_cases K) as Hsz.
  assert (Hmul : 3 * v * addr_fsize K <= d_buf K + d_size K - ptr0).
  { assert (H3 : 0 < 3 * addr_fsize K) by lia.
    pose proof (Z.mul_div_le (d_buf K + d_size K - ptr0) (3 * addr_fsize K) H3).
    nia. }
  assert (Hw : u64 (3 * v * addr_fsize K) = 3 * v * addr_fsize K)
    by (unfold u64; apply Z.mod_small; nia).
  rewrite Hw.
  apply file_loop_in; try assumption; try lia; nia.
Qed.

Lemma handle_file_note_in_chunk_witness :
  Forall (in_chunk one_file_core) (snd (handle_file_note one_file_core)).
Proof.
  apply (handle_file_note_in_chunk one_file_core);
    [reflexivity|reflexivity|reflexivity].
Defined.

(** X26. In the case [NT_GNU_ABI_TAG] the buffer that takes the
    converted descriptor always has room for it: the sixteen words of
    [sbuf] are used only for a descriptor of at most 64 bytes, because
    a size that is not a multiple of four never gets that far. *)
Theorem gnu_abi_tag_room (descsz : Z) (malloc_ok : bool) (room written : Z)
  (Hconv : gnu_abi_tag descsz malloc_ok = Converted room written) :
  written = descsz /\ written <= room /\ 8 <= descsz /\ descsz mod 4 = 0.
Proof.
  unfold gnu_abi_tag, FIXED_TAG_BYTES in Hconv.
  destruct (Z.geb_spec descsz 8) as [H8 | H8]; cbn [andb] in Hconv;
    [|discriminate].
  destruct (Z.eqb_spec (descsz mod 4) 0) as [H4 | H4]; [|discriminate].
  destruct (Z.gtb_spec (descsz / 4) 16) as [Hbig | Hsmall].
  - destruct malloc_ok; [|discriminate]. injection Hconv as <- <-. lia.
  - injection Hconv as <- <-.
    pose proof (Z.div_mod descsz 4 ltac:(lia)). lia.
Qed.

Lemma gnu_abi_tag_room_witness :
  gnu_abi_tag 16 true = Converted 64 16 /\
  (16 = 16 /\ 16 <= 64 /\ 8 <= 16 /\ 16 mod 4 = 0).
Proof.
  split; [reflexivity|].
  apply (gnu_abi_tag_room 16 true 64 16). reflexivity.
Defined.

End CoreNoteFacts.
